(** * Portfolio risk flamegraph: variance decomposition and factor regression

    Shallow embedding of [backend/decomposition.py] and of
    [run_factor_regression] from [backend/factor_pipeline.py].

    Numbers: the Python code computes with binary floating point.  Here every
    float is an exact rational ([Q]); [max], [round], [sum], [@] and the
    comparisons are the exact operations.  [np.sqrt] and the statsmodels OLS
    fit are library functions and are taken as parameters.  Overflow to
    [inf] and [nan], underflow and rounding error are not modelled: the
    theorems that bound returned percentages are stated for inputs of
    ordinary size ([ordinary_inputs]), and the bit-for-bit equality of two
    computed floats is not a statement of this model. *)

From Stdlib Require Import QArith Qround Qabs ZArith List String Bool Lia Lqa.
From Stdlib Require Import DecimalString.
From Stdlib Require Import Sorting.Sorted Sorting.Permutation.
From Stdlib Require Import Setoid Morphisms.
Import ListNotations.

Local Open Scope Q_scope.

(** ** Numeric primitives *)

Definition Qltb (a b : Q) : bool := negb (Qle_bool b a).

(** Python [max(a, b)]: the first argument unless the second is greater. *)
Definition py_max (a b : Q) : Q := if Qltb a b then b else a.

(** Round half to even, to an integer. *)
Definition round_half_even (x : Q) : Z :=
  let f := Qfloor x in
  match Qcompare (x - inject_Z f) (1 # 2) with
  | Lt => f
  | Gt => (f + 1)%Z
  | Eq => if Z.even f then f else (f + 1)%Z
  end.

(** Python [round(x, 2)] on the exact value: half to even at the second
    decimal.  (On a binary64 the code's result can differ when the value is
    within rounding error of a tie.) *)
Definition round2 (x : Q) : Q := inject_Z (round_half_even (x * 100)) / 100.

(** Python [sum] over a list of numbers. *)
Definition py_sum (l : list Q) : Q := fold_left Qplus l 0.

(** ** Exceptions *)

Inductive exn : Type :=
| KeyError (key : string)
| ValueError (msg : string)
| IndexError (msg : string).

Inductive result (A : Type) : Type :=
| Ret (a : A)
| Raise (e : exn).
Arguments Ret {A} a.
Arguments Raise {A} e.

Definition bind {A B} (m : result A) (k : A -> result B) : result B :=
  match m with
  | Ret a => k a
  | Raise e => Raise e
  end.

Notation "x <- m ;; k" := (bind m (fun x => k))
  (at level 61, m at next level, right associativity).

Fixpoint mapM {A B} (f : A -> result B) (l : list A) : result (list B) :=
  match l with
  | [] => Ret []
  | a :: l' => b <- f a ;; bs <- mapM f l' ;; Ret (b :: bs)
  end.

(** ** Python dicts: insertion-ordered association lists with unique keys *)

Definition dict (V : Type) : Type := list (string * V).

Fixpoint dict_get {V} (k : string) (d : dict V) : option V :=
  match d with
  | [] => None
  | (k', v) :: d' => if String.eqb k k' then Some v else dict_get k d'
  end.

(** [d[k]], raising [KeyError] on a missing key. *)
Definition dict_item {V} (d : dict V) (k : string) : result V :=
  match dict_get k d with
  | Some v => Ret v
  | None => Raise (KeyError k)
  end.

(** [d.get(k, default)]. *)
Definition dict_get_default {V} (d : dict V) (k : string) (default : V) : V :=
  match dict_get k d with
  | Some v => v
  | None => default
  end.

(** [d[k] = v]: overwrite in place, or append a new key. *)
Fixpoint dict_set {V} (d : dict V) (k : string) (v : V) : dict V :=
  match d with
  | [] => [(k, v)]
  | (k', v') :: d' =>
      if String.eqb k k' then (k, v) :: d' else (k', v') :: dict_set d' k v
  end.

Definition dict_keys {V} (d : dict V) : list string := map fst d.
Definition dict_values {V} (d : dict V) : list V := map snd d.

(** ** Vectors and matrices *)

Definition vec3 : Type := (Q * Q * Q)%type.
Definition mat3 : Type := (vec3 * vec3 * vec3)%type.

(** [v[k]] for a 3-vector and [F[i, j]] for a 3x3 array. *)
Definition vget (v : vec3) (k : nat) : Q :=
  let '(a, b, c) := v in
  match k with 0%nat => a | 1%nat => b | _ => c end.

Definition mrow (F : mat3) (i : nat) : vec3 :=
  let '(r0, r1, r2) := F in
  match i with 0%nat => r0 | 1%nat => r1 | _ => r2 end.

Definition mget (F : mat3) (i j : nat) : Q := vget (mrow F i) j.

Definition mcol (F : mat3) (j : nat) : vec3 :=
  (mget F 0 j, mget F 1 j, mget F 2 j).

Definition dot3 (a b : vec3) : Q :=
  vget a 0 * vget b 0 + vget a 1 * vget b 1 + vget a 2 * vget b 2.

(** Elementwise product [u * v] and inner product [u @ v] of 1-D arrays. *)
Fixpoint vmul (u v : list Q) : list Q :=
  match u, v with
  | x :: u', y :: v' => x * y :: vmul u' v'
  | _, _ => []
  end.

Fixpoint dot (u v : list Q) : Q :=
  match u, v with
  | x :: u', y :: v' => x * y + dot u' v'
  | _, _ => 0
  end.

Fixpoint vadd (u v : list Q) : list Q :=
  match u, v with
  | x :: u', y :: v' => x + y :: vadd u' v'
  | _, _ => []
  end.

Definition vscale (c : Q) (u : list Q) : list Q := map (Qmult c) u.

(** [w @ M] for a 1-D [w] and a matrix [M] with [ncols] columns, stored by
    rows: the sum of the rows of [M] weighted by [w]. *)
Fixpoint vecmat (ncols : nat) (w : list Q) (M : list (list Q)) : list Q :=
  match w, M with
  | x :: w', r :: M' => vadd (vscale x r) (vecmat ncols w' M')
  | _, _ => repeat 0 ncols
  end.

(** [M + N], elementwise. *)
Fixpoint madd (M N : list (list Q)) : list (list Q) :=
  match M, N with
  | r :: M', s :: N' => vadd r s :: madd M' N'
  | _, _ => []
  end.

(** [B[:, k]]. *)
Definition column (B : list vec3) (k : nat) : list Q :=
  map (fun r => vget r k) B.

(** [B @ F] for an n x 3 array [B] and the 3x3 array [F]. *)
Definition matmul_F (B : list vec3) (F : mat3) : list vec3 :=
  map (fun r => (dot3 r (mcol F 0), dot3 r (mcol F 1), dot3 r (mcol F 2))) B.

(** [A @ B.T] for two n x 3 arrays. *)
Definition matmul_T (A B : list vec3) : list (list Q) :=
  map (fun a => map (fun b => dot3 a b) B) A.

(** [np.diag(d)]. *)
Definition np_diag (d : list Q) : list (list Q) :=
  let n := List.length d in
  map (fun i => map (fun j => if Nat.eqb i j then nth i d 0 else 0) (seq 0 n))
      (seq 0 n).

(** [w @ M @ w]. *)
Definition quad (w : list Q) (M : list (list Q)) : Q :=
  dot (vecmat (List.length w) w M) w.

(** Equality of 1-D arrays up to [Qeq]. *)
Definition veq : list Q -> list Q -> Prop := Forall2 Qeq.

(** ** Data model *)

(** The per-ticker regression result produced by [run_factor_regression]:
    an entry of [betas] with all its keys.  In the code an entry is an open
    dict; [OpenBetas] has the presenter on entries that may lack keys. *)
Record Loadings : Type := mkLoadings {
  ticker : string;
  beta_mkt : Q;
  beta_smb : Q;
  beta_hml : Q;
  alpha : Q;
  r_squared : Q;
  residual_variance : Q;
  n_observations : nat;
  sufficient_data : bool
}.

(** One entry of [stock_contributions]. *)
Record StockContribution : Type := mkContribution {
  market_contribution : Q;
  smb_contribution : Q;
  hml_contribution : Q;
  idio_contribution : Q;
  weight : Q
}.

(** Values stored in the dict returned by [decompose_portfolio_variance]. *)
Inductive value : Type :=
| VNum (q : Q)
| VStocks (sc : dict StockContribution).

Definition get_num (d : dict value) (k : string) : option Q :=
  match dict_get k d with
  | Some (VNum q) => Some q
  | _ => None
  end.

Definition get_stocks (d : dict value) (k : string)
  : option (dict StockContribution) :=
  match dict_get k d with
  | Some (VStocks sc) => Some sc
  | _ => None
  end.

(** [d[k]] on a dict of numbers, for a key the code has just stored; the
    default stands for a [KeyError] that the callers below cannot trigger
    (see [raw_contributions_closed] and [raw_pcts_closed]). *)
Definition dict_at (d : dict Q) (k : string) : Q := dict_get_default d k 0.

(** ** decomposition.py *)

Module Decomposition.

Definition factor_names : list string := ["market"; "smb"; "hml"]%string.

(** [enumerate(l)]. *)
Definition enumerate {A} (l : list A) : list (nat * A) :=
  combine (seq 0 (List.length l)) l.

Definition _zero_result (tickers : list string) (weights : dict Q)
  : dict value :=
  [ ("market_pct", VNum 25);
    ("smb_pct", VNum 25);
    ("hml_pct", VNum 25);
    ("idiosyncratic_pct", VNum 25);
    ("total_annual_vol", VNum 0);
    ("total_daily_var", VNum 0);
    ("stock_contributions",
      VStocks (fold_left
        (fun acc t =>
           dict_set acc t
             {| market_contribution := 0; smb_contribution := 0;
                hml_contribution := 0; idio_contribution := 0;
                weight := dict_get_default weights t 0 |})
        tickers [])) ]%string.

Definition _compute_stock_contributions (tickers : list string)
    (w : list Q) (B : list vec3) (F : mat3) (D : list (list Q))
    (total_var : Q) : dict StockContribution :=
  fold_left
    (fun contributions '(i, t) =>
       let w_i := nth i w 0 in
       let B_i := nth i B (0, 0, 0) in
       let mkt_contrib := w_i * vget B_i 0 * dot w (column B 0) * mget F 0 0 in
       let smb_contrib := w_i * vget B_i 1 * dot w (column B 1) * mget F 1 1 in
       let hml_contrib := w_i * vget B_i 2 * dot w (column B 2) * mget F 2 2 in
       let idio_contrib := (w_i * w_i) * nth i (nth i D []) 0 in
       let pct x := if Qltb 0 total_var
                    then py_max (x / total_var * 100) 0 else 0 in
       dict_set contributions t
         {| market_contribution := pct mkt_contrib;
            smb_contribution := pct smb_contrib;
            hml_contribution := pct hml_contrib;
            idio_contribution := pct idio_contrib;
            weight := w_i |})
    (enumerate tickers) [].

(** The locals of [decompose_portfolio_variance], in source order. *)

Definition systematic_cov (B : list vec3) (F : mat3) : list (list Q) :=
  matmul_T (matmul_F B F) B.

Definition sigma (B : list vec3) (F : mat3) (d : list Q) : list (list Q) :=
  madd (systematic_cov B F) (np_diag d).

Definition total_var (w : list Q) (B : list vec3) (F : mat3) (d : list Q) : Q :=
  quad w (sigma B F d).

(** First loop: the clamped pure contribution of each factor. *)
Definition raw_contributions (w : list Q) (B : list vec3) (F : mat3)
  : dict Q :=
  fold_left
    (fun raw '(k, name) =>
       let b_k := column B k in
       let var_k := mget F k k in
       let contrib := dot (vmul w b_k) (vmul w b_k) * var_k in
       dict_set raw name (py_max contrib 0))
    (enumerate factor_names) [].

Definition total_systematic (w : list Q) (B : list vec3) (F : mat3) : Q :=
  quad w (systematic_cov B F).

Definition pure_factor_sum (w : list Q) (B : list vec3) (F : mat3) : Q :=
  py_sum (dict_values (raw_contributions w B F)).

Definition cross_terms (w : list Q) (B : list vec3) (F : mat3) : Q :=
  total_systematic w B F - pure_factor_sum w B F.

Definition idio_var (w : list Q) (d : list Q) : Q := quad w (np_diag d).

(** Second loop: apportion the cross terms over the factor buckets. *)
Definition apportion (raw : dict Q) (pure_sum cross : Q) : dict Q :=
  if Qltb 0 pure_sum && negb (Qeq_bool cross 0) then
    fold_left
      (fun raw name =>
         let share := dict_at raw name / pure_sum in
         dict_set raw name (dict_at raw name + cross * share))
      factor_names raw
  else raw.

Definition apportioned (w : list Q) (B : list vec3) (F : mat3) : dict Q :=
  apportion (raw_contributions w B F) (pure_factor_sum w B F)
            (cross_terms w B F).

(** Percentages, clamped at 0. *)
Definition clamped_pcts (raw : dict Q) (idio tv : Q) : dict Q :=
  let market_pct := dict_at raw "market" / tv * 100 in
  let smb_pct := dict_at raw "smb" / tv * 100 in
  let hml_pct := dict_at raw "hml" / tv * 100 in
  let idio_pct := idio / tv * 100 in
  [ ("market_pct", py_max market_pct 0);
    ("smb_pct", py_max smb_pct 0);
    ("hml_pct", py_max hml_pct 0);
    ("idiosyncratic_pct", py_max idio_pct 0) ]%string.

(** Renormalisation to 100. *)
Definition renormalize (raw_pcts : dict Q) : dict Q :=
  let total_raw := py_sum (dict_values raw_pcts) in
  if Qltb 0 total_raw then
    let scale := 100 / total_raw in
    fold_left
      (fun pcts key => dict_set pcts key (dict_at pcts key * scale))
      (dict_keys raw_pcts) raw_pcts
  else raw_pcts.

Definition raw_pcts (w : list Q) (B : list vec3) (F : mat3) (d : list Q)
  : dict Q :=
  renormalize
    (clamped_pcts (apportioned w B F) (idio_var w d) (total_var w B F d)).

(** The arrays [w], [B] and the diagonal of [D] built from the input dicts.
    [weights[t]] for a key [t] of [weights] never raises; [betas[t]] raises
    [KeyError] when a ticker has no loadings. *)
Definition weight_vector (weights : dict Q) : list Q :=
  map (fun t => dict_get_default weights t 0) (dict_keys weights).

Definition loading_matrix (betas : dict Loadings) (tickers : list string)
  : result (list vec3) :=
  mapM (fun t => b <- dict_item betas t ;;
                 Ret (beta_mkt b, beta_smb b, beta_hml b)) tickers.

Definition residual_vector (weights residual_vars : dict Q) : list Q :=
  map (fun t => dict_get_default residual_vars t 0) (dict_keys weights).

Section Decompose.

(** [np.sqrt]. *)
Variable np_sqrt : Q -> Q.

Definition decompose_portfolio_variance (weights : dict Q)
    (betas : dict Loadings) (factor_cov : mat3) (residual_vars : dict Q)
  : result (dict value) :=
  let tickers := dict_keys weights in
  w <- mapM (dict_item weights) tickers ;;
  B <- loading_matrix betas tickers ;;
  let d := residual_vector weights residual_vars in
  let D := np_diag d in
  let F := factor_cov in
  (* [B @ F]: with no ticker, B is a 1-D array of length 0 *)
  if Nat.eqb (List.length tickers) 0 then
    Raise (ValueError "matmul: mismatch in core dimension")
  else
  let total_var := total_var w B F d in
  if Qle_bool total_var 0 then Ret (_zero_result tickers weights) else
  let cross_terms := cross_terms w B F in
  let raw_pcts := raw_pcts w B F d in
  let annual_vol := np_sqrt (total_var * 252) * 100 in
  let stock_contributions :=
    _compute_stock_contributions tickers w B F D total_var in
  Ret [ ("market_pct", VNum (round2 (dict_at raw_pcts "market_pct")));
        ("smb_pct", VNum (round2 (dict_at raw_pcts "smb_pct")));
        ("hml_pct", VNum (round2 (dict_at raw_pcts "hml_pct")));
        ("idiosyncratic_pct",
           VNum (round2 (dict_at raw_pcts "idiosyncratic_pct")));
        ("cross_factor_pct",
           VNum (if Qltb 0 total_var
                 then round2 (cross_terms / total_var * 100) else 0));
        ("total_annual_vol", VNum (round2 annual_vol));
        ("total_daily_var", VNum total_var);
        ("stock_contributions", VStocks stock_contributions) ]%string.

End Decompose.

(** The value of the local [total_var] as a function of the inputs; it
    raises where the call raises before [total_var] is computed. *)
Definition portfolio_variance (weights : dict Q) (betas : dict Loadings)
    (factor_cov : mat3) (residual_vars : dict Q) : result Q :=
  let tickers := dict_keys weights in
  B <- loading_matrix betas tickers ;;
  if Nat.eqb (List.length tickers) 0 then
    Raise (ValueError "matmul: mismatch in core dimension")
  else Ret (total_var (weight_vector weights) B factor_cov
                      (residual_vector weights residual_vars)).

(** *** The decomposition in the words of the specification *)

(** Step 1: pure contribution of factor [k], clamped at 0. *)
Definition pure_contribution (w : list Q) (B : list vec3) (F : mat3)
    (k : nat) : Q :=
  let wb := vmul w (column B k) in
  py_max (dot wb wb * mget F k k) 0.

Definition pure_sum (w : list Q) (B : list vec3) (F : mat3) : Q :=
  pure_contribution w B F 0 + pure_contribution w B F 1
  + pure_contribution w B F 2.

(** Step 2: cross-factor residual. *)
Definition cross_residual (w : list Q) (B : list vec3) (F : mat3) : Q :=
  total_systematic w B F - pure_sum w B F.

(** Step 3: factor [k] absorbs [cross_residual * pure_k / pure_sum]; with a
    zero pure sum the cross term is left unapportioned. *)
Definition bucket_variance (w : list Q) (B : list vec3) (F : mat3)
    (k : nat) : Q :=
  if Qltb 0 (pure_sum w B F)
  then pure_contribution w B F k
       + cross_residual w B F * pure_contribution w B F k / pure_sum w B F
  else pure_contribution w B F k.

(** Step 5: percentage of total variance, clamped at 0. *)
Definition clamped_pct (x tv : Q) : Q := py_max (x / tv * 100) 0.

Inductive bucket : Type := Market | Smb | Hml | Idiosyncratic.

Definition bucket_clamped (w : list Q) (B : list vec3) (F : mat3)
    (d : list Q) (b : bucket) : Q :=
  let tv := total_var w B F d in
  match b with
  | Market => clamped_pct (bucket_variance w B F 0) tv
  | Smb => clamped_pct (bucket_variance w B F 1) tv
  | Hml => clamped_pct (bucket_variance w B F 2) tv
  | Idiosyncratic => clamped_pct (idio_var w d) tv
  end.

Definition clamped_total (w : list Q) (B : list vec3) (F : mat3)
    (d : list Q) : Q :=
  bucket_clamped w B F d Market + bucket_clamped w B F d Smb
  + bucket_clamped w B F d Hml + bucket_clamped w B F d Idiosyncratic.

(** Step 5, renormalisation: divide by the sum, multiply by 100. *)
Definition bucket_pct (w : list Q) (B : list vec3) (F : mat3)
    (d : list Q) (b : bucket) : Q :=
  let total := clamped_total w B F d in
  if Qltb 0 total then bucket_clamped w B F d b / total * 100
  else bucket_clamped w B F d b.

(** [y @ F @ y] for a 3-vector, and positive semi-definiteness of [F], as
    every covariance matrix has it. *)
Definition quad3 (F : mat3) (y : vec3) : Q :=
  dot3 (dot3 y (mcol F 0), dot3 y (mcol F 1), dot3 y (mcol F 2)) y.

Definition positive_semidefinite (F : mat3) : Prop :=
  forall y : vec3, 0 <= quad3 F y.

(** The portfolio's factor exposure [w @ B]. *)
Definition exposure (w : list Q) (B : list vec3) : vec3 :=
  (dot w (column B 0), dot w (column B 1), dot w (column B 2)).

(** A row of [B] without factor exposure. *)
Definition zero_loading (b : vec3) : Prop :=
  vget b 0 == 0 /\ vget b 1 == 0 /\ vget b 2 == 0.

(** The input dict [weights] with every weight multiplied by [c]. *)
Definition scale_weights (c : Q) (weights : dict Q) : dict Q :=
  map (fun '(t, x) => (t, c * x)) weights.

End Decomposition.


Import Decomposition.

(** ** String formatting *)

Definition string_of_N (n : N) : string :=
  DecimalString.NilZero.string_of_uint (N.to_uint n).

(** [f"{x:.1f}"]. *)
Definition format_1f (x : Q) : string :=
  let t := Z.abs (round_half_even (x * 10)) in
  ((if Qltb x 0 then "-" else "")
   ++ string_of_N (Z.to_N (t / 10)) ++ "." ++ string_of_N (Z.to_N (t mod 10)))
  %string.

(** ** The attribution tree of [build_flamegraph_json] *)

Module Flamegraph.

Record Meta : Type := mkMeta {
  meta_beta_mkt : Q;
  meta_beta_smb : Q;
  meta_beta_hml : Q;
  meta_r_squared : Q;
  meta_weight : Q
}.

Record Leaf : Type := mkLeaf {
  leaf_name : string;
  leaf_value : Q;
  leaf_meta : Meta
}.

Record FactorNode : Type := mkNode {
  node_name : string;
  node_value : Q;
  node_factor : string;
  node_children : list Leaf
}.

Record Tree : Type := mkTree {
  tree_name : string;
  tree_value : Q;
  tree_children : list FactorNode
}.

(** [contrib[key]] on one entry of [stock_contributions]. *)
Definition contrib_item (contrib : StockContribution) (key : string)
  : result Q :=
  if String.eqb key "market_contribution" then Ret (market_contribution contrib)
  else if String.eqb key "smb_contribution" then Ret (smb_contribution contrib)
  else if String.eqb key "hml_contribution" then Ret (hml_contribution contrib)
  else if String.eqb key "idio_contribution" then Ret (idio_contribution contrib)
  else if String.eqb key "weight" then Ret (weight contrib)
  else Raise (KeyError key).

(** [d[k]] on the decomposition dict, for a number and for the nested dict. *)
Definition num_item (d : dict value) (k : string) : result Q :=
  match dict_get k d with
  | Some (VNum q) => Ret q
  | _ => Raise (KeyError k)
  end.

Definition stocks_item (d : dict value) (k : string)
  : result (dict StockContribution) :=
  match dict_get k d with
  | Some (VStocks sc) => Ret sc
  | _ => Raise (KeyError k)
  end.

(** [sorted(children, key=lambda x: x["value"], reverse=True)]: a stable
    sort; each element goes behind the elements that are not smaller. *)
Fixpoint insert_desc (x : Leaf) (l : list Leaf) : list Leaf :=
  match l with
  | [] => [x]
  | y :: l' =>
      if Qltb (leaf_value y) (leaf_value x) then x :: l
      else y :: insert_desc x l'
  end.

Definition sorted_desc (l : list Leaf) : list Leaf :=
  fold_left (fun acc x => insert_desc x acc) l [].

(** One iteration of the loop of [make_factor_children]. *)
Definition visit (betas : dict Loadings) (factor_key : string)
    (children : list Leaf) (item : string * StockContribution)
  : result (list Leaf) :=
  let '(ticker, contrib) := item in
  val <- contrib_item contrib factor_key ;;
  if Qltb (1 # 2) val then
    b <- dict_item betas ticker ;;
    wt <- contrib_item contrib "weight" ;;
    Ret (children ++
         [ {| leaf_name := ticker;
              leaf_value := round2 val;
              leaf_meta := {| meta_beta_mkt := beta_mkt b;
                              meta_beta_smb := beta_smb b;
                              meta_beta_hml := beta_hml b;
                              meta_r_squared := r_squared b;
                              meta_weight := wt |} |} ])
  else Ret children.

Fixpoint foldM {A S} (f : S -> A -> result S) (l : list A) (s : S)
  : result S :=
  match l with
  | [] => Ret s
  | a :: l' => s' <- f s a ;; foldM f l' s'
  end.

Definition make_factor_children (sc : dict StockContribution)
    (betas : dict Loadings) (factor_key : string) : result (list Leaf) :=
  children <- foldM (visit betas factor_key) sc [] ;;
  Ret (sorted_desc children).

Definition build_flamegraph_json (decomposition : dict value)
    (betas : dict Loadings) : result Tree :=
  sc <- stocks_item decomposition "stock_contributions" ;;
  vol <- num_item decomposition "total_annual_vol" ;;
  v1 <- num_item decomposition "market_pct" ;;
  c1 <- make_factor_children sc betas "market_contribution" ;;
  v2 <- num_item decomposition "smb_pct" ;;
  c2 <- make_factor_children sc betas "smb_contribution" ;;
  v3 <- num_item decomposition "hml_pct" ;;
  c3 <- make_factor_children sc betas "hml_contribution" ;;
  v4 <- num_item decomposition "idiosyncratic_pct" ;;
  c4 <- make_factor_children sc betas "idio_contribution" ;;
  Ret {| tree_name :=
           ("Your Portfolio — " ++ format_1f vol ++ "% Annual Vol")%string;
         tree_value := 100;
         tree_children :=
           [ mkNode "Market Beta" v1 "market" c1;
             mkNode "SMB (Size)" v2 "smb" c2;
             mkNode "HML (Value)" v3 "hml" c3;
             mkNode "Idiosyncratic" v4 "idiosyncratic" c4 ] |}.

(** *** The presenter in the words of the specification *)

(** The contribution of an instrument to a bucket. *)
Definition contribution_to (b : bucket) (c : StockContribution) : Q :=
  match b with
  | Market => market_contribution c
  | Smb => smb_contribution c
  | Hml => hml_contribution c
  | Idiosyncratic => idio_contribution c
  end.

Definition factor_key (b : bucket) : string :=
  match b with
  | Market => "market_contribution"
  | Smb => "smb_contribution"
  | Hml => "hml_contribution"
  | Idiosyncratic => "idio_contribution"
  end.

Definition pct_key (b : bucket) : string :=
  match b with
  | Market => "market_pct"
  | Smb => "smb_pct"
  | Hml => "hml_pct"
  | Idiosyncratic => "idiosyncratic_pct"
  end.

(** The instruments above the 0.5 point visibility threshold. *)
Definition visible (b : bucket) (sc : dict StockContribution)
  : dict StockContribution :=
  filter (fun item => Qltb (1 # 2) (contribution_to b (snd item))) sc.

(** The leaf shown for an instrument with loadings [l]. *)
Definition leaf_of (b : bucket) (t : string) (c : StockContribution)
    (l : Loadings) : Leaf :=
  {| leaf_name := t;
     leaf_value := round2 (contribution_to b c);
     leaf_meta := {| meta_beta_mkt := beta_mkt l;
                     meta_beta_smb := beta_smb l;
                     meta_beta_hml := beta_hml l;
                     meta_r_squared := r_squared l;
                     meta_weight := weight c |} |}.

Definition desc (x y : Leaf) : Prop := leaf_value y <= leaf_value x.

End Flamegraph.

(** What the specification asks of the node of bucket [b]: its value is the
    bucket's percentage in the decomposition; its children are the leaves of
    the visible instruments, in descending order of value. *)
Definition presents (decomposition : dict value) (betas : dict Loadings)
    (sc : dict StockContribution) (b : bucket) (n : Flamegraph.FactorNode)
  : Prop :=
  get_num decomposition (Flamegraph.pct_key b)
  = Some (Flamegraph.node_value n)
  /\ (exists leaves,
        Forall2
          (fun item leaf =>
             exists l,
               dict_get (fst item) betas = Some l
               /\ leaf = Flamegraph.leaf_of b (fst item) (snd item) l)
          (Flamegraph.visible b sc) leaves
        /\ Permutation leaves (Flamegraph.node_children n))
  /\ StronglySorted Flamegraph.desc (Flamegraph.node_children n).

(** ** pandas series and frames *)

(** Index labels are dates, numbered by day.  A missing value (NaN) is
    [None].  Labels are taken to be unique, as they are in the series that
    [compute_excess_returns] and [download_ff_factors] produce. *)
Definition date : Type := Z.

Definition Series : Type := list (date * option Q).

Record FFRow : Type := mkFF {
  ff_mkt_rf : option Q;
  ff_smb : option Q;
  ff_hml : option Q;
  ff_rf : option Q
}.

Definition Frame : Type := list (date * FFRow).

Definition index {A} (s : list (date * A)) : list date := map fst s.

(** [s.dropna()] on a series. *)
Definition series_dropna (s : Series) : list (date * Q) :=
  flat_map (fun '(d, v) => match v with Some x => [(d, x)] | None => [] end) s.

(** [a.intersection(b)] on indexes: the labels of [a] that occur in [b],
    without repetition. *)
Definition index_intersection (a b : list date) : list date :=
  nodup Z.eq_dec (filter (fun d => existsb (Z.eqb d) b) a).

(** [idx.sort_values()]. *)
Fixpoint insert_asc (d : date) (l : list date) : list date :=
  match l with
  | [] => [d]
  | e :: l' => if (d <=? e)%Z then d :: l else e :: insert_asc d l'
  end.

Definition sort_values (l : list date) : list date :=
  fold_right insert_asc [] l.

(** [l[-n:]]. *)
Definition slice_last {A} (n : Z) (l : list A) : list A :=
  if (n <=? 0)%Z then skipn (Z.to_nat (- n)) l
  else skipn (List.length l - Z.to_nat n) l.

(** [df.tail(n)]. *)
Definition df_tail {A} (n : Z) (l : list A) : list A :=
  if (n =? 0)%Z then [] else slice_last n l.

(** [s.loc[d]] for one label. *)
Fixpoint loc {A} (s : list (date * A)) (d : date) : option A :=
  match s with
  | [] => None
  | (d', v) :: s' => if (d =? d')%Z then Some v else loc s' d
  end.

(** [s.loc[labels].values]. *)
Definition loc_values {A} (s : list (date * A)) (labels : list date)
  : list A :=
  flat_map (fun d => match loc s d with Some v => [v] | None => [] end) labels.

(** [np.mean(y)] and [np.var(y)] (divisor N). *)
Definition np_mean (y : list Q) : Q :=
  py_sum y / inject_Z (Z.of_nat (List.length y)).

Definition np_var (y : list Q) : Q :=
  let m := np_mean y in
  np_mean (map (fun v => (v - m) * (v - m)) y).

(** [l[i]] on an array. *)
Definition py_index (l : list Q) (i : nat) : result Q :=
  match nth_error l i with
  | Some x => Ret x
  | None => Raise (IndexError "index out of bounds")
  end.

(** ** factor_pipeline.py: the regression *)

Module FactorPipeline.

(** What the code reads of a fitted statsmodels OLS model. *)
Record OLSResults : Type := mkOLS {
  params : list Q;
  rsquared : Q;
  resid : list Q
}.

Definition _empty_result (t : string) : Loadings :=
  {| ticker := t;
     beta_mkt := 0; beta_smb := 0; beta_hml := 0;
     alpha := 0; r_squared := 0;
     residual_variance := 0;
     n_observations := 0;
     sufficient_data := false |}.

(** [ff_df.loc[common, ["Mkt-RF", "SMB", "HML"]].values]. *)
Definition factor_values (ff_df : Frame) (common : list date)
  : list (list (option Q)) :=
  map (fun r => [ff_mkt_rf r; ff_smb r; ff_hml r]) (loc_values ff_df common).

(** [sm.add_constant(X)] where it adds the constant: a leading column of
    ones.  With its default [has_constant='skip'] statsmodels returns [X]
    unchanged when a column of [X] is already a non-zero constant; that case
    is not modelled.  The fit that receives the result is a parameter. *)
Definition add_constant (X : list (list (option Q)))
  : list (list (option Q)) :=
  map (fun r => Some 1 :: r) X.

(** The dates the regression runs on: the local [common] at the point
    where [y] is read. *)
Definition window_dates (excess_returns : Series) (ff_df : Frame)
    (window : Z) : list date :=
  let common :=
    index_intersection (index (series_dropna excess_returns)) (index ff_df) in
  let common := sort_values common in
  if (Z.of_nat (List.length common) >? window)%Z
  then slice_last window common else common.

(** The local [y]. *)
Definition window_returns (excess_returns : Series) (ff_df : Frame)
    (window : Z) : list Q :=
  loc_values (series_dropna excess_returns)
             (window_dates excess_returns ff_df window).

(** The local [X]. *)
Definition window_factors (excess_returns : Series) (ff_df : Frame)
    (window : Z) : list (list (option Q)) :=
  factor_values ff_df (window_dates excess_returns ff_df window).

Section Regression.

(** [sm.OLS(y, X_const).fit()]; [Raise] when statsmodels raises. *)
Variable OLS_fit : list Q -> list (list (option Q)) -> result OLSResults.

Definition run_factor_regression (t : string) (excess_returns : Series)
    (ff_df : Frame) (window : Z) (min_obs : Z) : result Loadings :=
  let common :=
    index_intersection (index (series_dropna excess_returns)) (index ff_df) in
  if Nat.eqb (List.length common) 0 then Ret (_empty_result t) else
  let common := sort_values common in
  let common :=
    if (Z.of_nat (List.length common) >? window)%Z
    then slice_last window common else common in
  let y := loc_values (series_dropna excess_returns) common in
  let X := factor_values ff_df common in
  let n_obs := List.length y in
  if (Z.of_nat n_obs <? min_obs)%Z then
    Ret {| ticker := t;
           beta_mkt := 0; beta_smb := 0; beta_hml := 0;
           alpha := 0; r_squared := 0;
           residual_variance :=
             if Nat.ltb 0 (List.length y) then np_var y else 0;
           n_observations := n_obs;
           sufficient_data := false |}
  else
  let X_const := add_constant X in
  match OLS_fit y X_const with
  | Raise _ => Ret (_empty_result t)
  | Ret model =>
      p1 <- py_index (params model) 1 ;;
      p2 <- py_index (params model) 2 ;;
      p3 <- py_index (params model) 3 ;;
      p0 <- py_index (params model) 0 ;;
      Ret {| ticker := t;
             beta_mkt := p1; beta_smb := p2; beta_hml := p3;
             alpha := p0; r_squared := rsquared model;
             residual_variance := np_var (resid model);
             n_observations := n_obs;
             sufficient_data := true |}
  end.

End Regression.

(** The degenerate result of the insufficient-data branch. *)
Definition degenerate_result (t : string) (y : list Q) : Loadings :=
  {| ticker := t;
     beta_mkt := 0; beta_smb := 0; beta_hml := 0;
     alpha := 0; r_squared := 0;
     residual_variance := match y with [] => 0 | _ => np_var y end;
     n_observations := List.length y;
     sufficient_data := false |}.

End FactorPipeline.

(** ** decomposition.py: the factor covariance *)

Module FactorCovariance.

(** [ff_df[factor_cols].dropna()]: the rows without a missing factor. *)
Definition jointly_valid (ff_df : Frame) : list (date * vec3) :=
  flat_map
    (fun '(d, r) =>
       match ff_mkt_rf r, ff_smb r, ff_hml r with
       | Some a, Some b, Some c => [(d, (a, b, c))]
       | _, _, _ => []
       end) ff_df.

Definition recent (ff_df : Frame) (window : Z) : list (date * vec3) :=
  df_tail window (jointly_valid ff_df).

(** Sample covariance of two columns (divisor N - 1), as [DataFrame.cov]. *)
Definition cov (xs ys : list Q) : Q :=
  let mx := np_mean xs in
  let my := np_mean ys in
  dot (map (fun x => x - mx) xs) (map (fun y => y - my) ys)
  / (inject_Z (Z.of_nat (List.length xs)) - 1).

(** [recent.cov().values]. *)
Definition df_cov (rows : list vec3) : mat3 :=
  let c k := column rows k in
  ( (cov (c 0%nat) (c 0%nat), cov (c 0%nat) (c 1%nat), cov (c 0%nat) (c 2%nat)),
    (cov (c 1%nat) (c 0%nat), cov (c 1%nat) (c 1%nat), cov (c 1%nat) (c 2%nat)),
    (cov (c 2%nat) (c 0%nat), cov (c 2%nat) (c 1%nat), cov (c 2%nat) (c 2%nat)) ).

Definition compute_factor_covariance (ff_df : Frame) (window : Z)
  : result mat3 :=
  let recent := recent ff_df window in
  if Nat.ltb (List.length recent) 60 then
    Raise (ValueError
             ("Insufficient factor data: only "
              ++ string_of_N (N.of_nat (List.length recent))
              ++ " days available"))
  else Ret (df_cov (map snd recent)).

(** The last [n] elements of a list. *)
Definition lastn {A} (n : nat) (l : list A) : list A :=
  skipn (List.length l - n) l.

End FactorCovariance.

(** ** Running the model *)

(** A square root on exact rationals, to run the model where [np.sqrt] is
    applied to the square of a rational: the integer square roots of the
    numerator and of the denominator of the reduced fraction. *)
Definition sqrt_rational (x : Q) : Q :=
  let r := Qred x in Z.sqrt (Qnum r) # Pos.sqrt (Qden r).

Module Examples.

Definition loadings (t : string) (bm bs bh : Q) : Loadings :=
  mkLoadings t bm bs bh 0 (1 # 2) 0 252 true.

(** The end-to-end scenario of the specification. *)
Definition weights_AB : dict Q := [("A", 6 # 10); ("B", 4 # 10)]%string.
Definition betas_AB : dict Loadings :=
  [ ("A", loadings "A" (12 # 10) (3 # 10) (-1 # 10));
    ("B", loadings "B" (8 # 10) (-2 # 10) (5 # 10)) ]%string.
Definition resid_AB : dict Q := [("A", 2 # 10000); ("B", 4 # 10000)]%string.
Definition F_small : mat3 :=
  ( (10 # 100000, 1 # 100000, -1 # 100000),
    (1 # 100000, 5 # 100000, 0),
    (-1 # 100000, 0, 4 # 100000) ).

(** The same portfolio with every weight at zero. *)
Definition weights_zero : dict Q := [("A", 0); ("B", 0)]%string.

(** One instrument with unit loadings on uncorrelated unit-variance
    factors and no residual variance. *)
Definition weights_one : dict Q := [("A", 1)]%string.
Definition betas_unit : dict Loadings := [("A", loadings "A" 1 1 1)]%string.
Definition F_identity : mat3 := ((1, 0, 0), (0, 1, 0), (0, 0, 1)).
Definition resid_none : dict Q := [("A", 0)]%string.

(** One instrument without factor exposure and residual variance
    1/2268 = 1/(9 * 252). *)
Definition betas_flat : dict Loadings := [("A", loadings "A" 0 0 0)]%string.
Definition resid_2268 : dict Q := [("A", 1 # 2268)]%string.

End Examples.

Module FlameExamples.

Import Flamegraph.

Definition contribs : dict StockContribution :=
  [ ("A", mkContribution (6 # 10) 0 0 1 (1 # 4));
    ("B", mkContribution 10 0 0 (1 # 2) (1 # 4));
    ("C", mkContribution (3 # 10) 0 0 0 (1 # 4));
    ("D", mkContribution 10 0 0 30 (1 # 4)) ]%string.

Definition betas : dict Loadings :=
  [ ("A", Examples.loadings "A" 1 0 0);
    ("B", Examples.loadings "B" 2 0 0);
    ("C", Examples.loadings "C" 3 0 0);
    ("D", Examples.loadings "D" 4 0 0) ]%string.

Definition decomposition : dict value :=
  [ ("market_pct", VNum 60); ("smb_pct", VNum 0); ("hml_pct", VNum 0);
    ("idiosyncratic_pct", VNum 40); ("total_annual_vol", VNum (1234 # 100));
    ("total_daily_var", VNum (1 # 10000));
    ("stock_contributions", VStocks contribs) ]%string.

End FlameExamples.

Module RegExamples.

Import FactorPipeline.

(** An OLS fit that fails. *)
Definition failing_fit (y : list Q) (X : list (list (option Q)))
  : result OLSResults :=
  Raise (ValueError "SVD did not converge").

Definition ff_row (x : Q) : FFRow := mkFF (Some x) (Some 0) (Some 0) (Some 0).

(** Four days of excess returns, one of them missing, over three days of
    factor data: two usable observations, 0 and 2. *)
Definition returns_short : Series :=
  [ (1%Z, Some 0); (2%Z, None); (3%Z, Some 2); (4%Z, Some 4) ].
Definition factors_short : Frame :=
  [ (1%Z, ff_row 1); (2%Z, ff_row 2); (3%Z, ff_row 3) ].

(** Sixty days of excess returns alternating between 1 and 0, over sixty
    days of factor data with a missing market factor on the first day. *)
Definition days : list nat := seq 1 60.
Definition returns_60 : Series :=
  map (fun i => (Z.of_nat i, Some (inject_Z (Z.of_nat (i mod 2))))) days.
Definition factors_60 : Frame :=
  map (fun i => (Z.of_nat i,
                 if Nat.eqb i 1 then mkFF None (Some 0) (Some 0) (Some 0)
                 else ff_row (inject_Z (Z.of_nat i)))) days.

End RegExamples.

Module CovExamples.

(** Sixty-one days of factor data; the market factor is missing on the
    first day, which leaves sixty jointly valid rows. *)
Definition factors_61 : Frame :=
  map (fun i => (Z.of_nat i,
                 mkFF (if Nat.eqb i 1 then None
                       else Some (inject_Z (Z.of_nat (i mod 3))))
                      (Some (inject_Z (Z.of_nat (i mod 2))))
                      (Some 1) None))
      (seq 1 61).

End CovExamples.

Module CornerExamples.

(** A matrix that is not a covariance matrix: zero variances with a
    non-zero covariance. *)
Definition F_offdiag : mat3 := ((0, 1, 0), (1, 0, 0), (0, 0, 0)).
Definition betas_110 : dict Loadings :=
  [("A", Examples.loadings "A" 1 1 0)]%string.

End CornerExamples.

(** * Further definitions *)

(** The first ticker without loadings, if any. *)
Definition first_missing (betas : dict Loadings) (tickers : list string)
  : option string :=
  find (fun t => match dict_get t betas with Some _ => false | None => true end)
       tickers.

(** A contribution as a percentage of the total variance, clamped at 0. *)
Definition contribution_pct (tv x : Q) : Q :=
  if Qltb 0 tv then py_max (x / tv * 100) 0 else 0.

(** The entry of [stock_contributions] for an instrument with weight [x],
    loadings [l] and residual variance [rv], in a portfolio with weight
    vector [w] and loading matrix [B]. *)
Definition ticker_contribution (w : list Q) (B : list vec3) (F : mat3)
    (tv x : Q) (l : Loadings) (rv : Q) : StockContribution :=
  {| market_contribution :=
       contribution_pct tv (x * beta_mkt l * dot w (column B 0) * mget F 0 0);
     smb_contribution :=
       contribution_pct tv (x * beta_smb l * dot w (column B 1) * mget F 1 1);
     hml_contribution :=
       contribution_pct tv (x * beta_hml l * dot w (column B 2) * mget F 2 2);
     idio_contribution := contribution_pct tv (x * x * rv);
     weight := x |}.

(** What every entry of [stock_contributions] satisfies for an instrument
    of weight [x]: it reports the weight, its contributions are not
    negative, and they vanish with the weight. *)
Definition entry_facts (x : Q) (c : StockContribution) : Prop :=
  weight c = x
  /\ 0 <= market_contribution c /\ 0 <= smb_contribution c
  /\ 0 <= hml_contribution c /\ 0 <= idio_contribution c
  /\ (x == 0 ->
      market_contribution c == 0 /\ smb_contribution c == 0
      /\ hml_contribution c == 0 /\ idio_contribution c == 0).


Module ExtraExamples.

(** The two-instrument portfolio with all the weight on the first one. *)
Definition weights_A_only : dict Q := [("A", 1); ("B", 0)]%string.

End ExtraExamples.

(** Leaves shown with value [v], and the entries of [stock_contributions]
    that are visible in bucket [b] and shown with value [v]. *)
Definition same_value (v : Q) (leaf : Flamegraph.Leaf) : bool :=
  Qeq_bool (Flamegraph.leaf_value leaf) v.

Definition shown_as (b : bucket) (v : Q) (item : string * StockContribution)
  : bool :=
  Qltb (1 # 2) (Flamegraph.contribution_to b (snd item))
  && Qeq_bool (round2 (Flamegraph.contribution_to b (snd item))) v.

(** ** factor_pipeline.py: Toronto tickers *)

(** [s.upper()] and [s.endswith(suffix)] on ASCII strings. *)
Definition ascii_upper (c : Ascii.ascii) : Ascii.ascii :=
  let n := Ascii.nat_of_ascii c in
  if Nat.leb 97 n && Nat.leb n 122 then Ascii.ascii_of_nat (n - 32) else c.

Fixpoint str_upper (s : string) : string :=
  match s with
  | EmptyString => EmptyString
  | String c s' => String (ascii_upper c) (str_upper s')
  end.

Fixpoint endswith (s suffix : string) : bool :=
  if String.eqb s suffix then true
  else match s with
       | EmptyString => false
       | String _ s' => endswith s' suffix
       end.

Definition _is_tsx_ticker (t : string) : bool :=
  endswith (str_upper t) ".TO" || endswith (str_upper t) ".V".

(** ** insight.py *)

Module Insight.

(** [f"{x:.0f}"]. *)
Definition format_0f (x : Q) : string :=
  ((if Qltb x 0 then "-" else "")
   ++ string_of_N (Z.to_N (Z.abs (round_half_even x))))%string.

(** The five sentences. *)
Definition market_message (market_pct : Q) : string :=
  (format_0f market_pct
   ++ "% of your portfolio risk comes from market exposure alone. "
   ++ "You are less diversified than you think — adding bonds or uncorrelated "
   ++ "assets would meaningfully reduce your risk.")%string.

Definition stock_message (t : string) (stock_share : Q) : string :=
  (t ++ " alone accounts for " ++ format_0f stock_share ++ "% of your "
   ++ "stock-specific risk — that's a concentrated bet on one company "
   ++ "that your factor model can't explain.")%string.

Definition smb_message (smb_pct : Q) : string :=
  ("Your portfolio has a significant small-cap tilt — " ++ format_0f smb_pct
   ++ "% of your "
   ++ "risk comes from the size factor. You are effectively betting on "
   ++ "small-cap stocks outperforming large-caps.")%string.

Definition hml_message (hml_pct : Q) : string :=
  (format_0f hml_pct ++ "% of your risk is driven by value factor exposure. "
   ++ "Your portfolio is significantly tilted toward value stocks over growth.")
  %string.

Definition top_message (top1_name : string) (top1_pct : Q)
    (top2_name : string) (top2_pct vol : Q) : string :=
  ("Your top risk drivers are " ++ top1_name ++ " (" ++ format_0f top1_pct
   ++ "%) and "
   ++ top2_name ++ " (" ++ format_0f top2_pct
   ++ "%), with a total annualized volatility "
   ++ "of " ++ format_1f vol ++ "%.")%string.

(** [components.sort(key=lambda x: x[1], reverse=True)]: a stable sort. *)
Fixpoint insert_component (x : string * Q) (l : list (string * Q))
  : list (string * Q) :=
  match l with
  | [] => [x]
  | y :: l' =>
      if Qltb (snd y) (snd x) then x :: l else y :: insert_component x l'
  end.

Definition sort_components (l : list (string * Q)) : list (string * Q) :=
  fold_left (fun acc x => insert_component x acc) l [].

(** The share of the stock-specific risk of one entry. *)
Definition stock_share (total_idio : Q) (contrib : StockContribution) : Q :=
  idio_contribution contrib / total_idio * 100.

(** [decomposition.get("stock_contributions", {})]. *)
Definition stock_contribs_of (decomposition : dict value)
  : dict StockContribution :=
  match get_stocks decomposition "stock_contributions" with
  | Some sc => sc
  | None => []
  end.

(** [sum(s.get("idio_contribution", 0) for s in stock_contribs.values())]. *)
Definition total_idio (stock_contribs : dict StockContribution) : Q :=
  py_sum (map (fun s => idio_contribution s) (dict_values stock_contribs)).

(** The second rule: the first entry, in dict order, with more than 20% of
    the stock-specific risk, looked for only when [idio_pct > 10], the dict
    is not empty and the total is positive. *)
Definition concentrated (idio_pct : Q) (stock_contribs : dict StockContribution)
  : option (string * StockContribution) :=
  if Qltb 10 idio_pct && negb (Nat.eqb (List.length stock_contribs) 0) then
    if Qltb 0 (total_idio stock_contribs) then
      find (fun item =>
              Qltb 20 (stock_share (total_idio stock_contribs) (snd item)))
           stock_contribs
    else None
  else None.

(** The four components of the last rule, in source order. *)
Definition components (market_pct smb_pct hml_pct idio_pct : Q)
  : list (string * Q) :=
  [ ("market exposure", market_pct);
    ("size factor (SMB)", smb_pct);
    ("value factor (HML)", hml_pct);
    ("stock-specific risk", idio_pct) ]%string.

(** [generate_insight].  [positions] is not read by the code.  An entry of
    the decomposition of the wrong kind is treated like a missing one. *)
Definition generate_insight (decomposition : dict value)
    (positions : list (string * Q)) : result string :=
  market_pct <- Flamegraph.num_item decomposition "market_pct" ;;
  smb_pct <- Flamegraph.num_item decomposition "smb_pct" ;;
  hml_pct <- Flamegraph.num_item decomposition "hml_pct" ;;
  idio_pct <- Flamegraph.num_item decomposition "idiosyncratic_pct" ;;
  vol <- Flamegraph.num_item decomposition "total_annual_vol" ;;
  let stock_contribs := stock_contribs_of decomposition in
  if Qltb 65 market_pct then Ret (market_message market_pct) else
  match concentrated idio_pct stock_contribs with
  | Some (t, contrib) =>
      Ret (stock_message t (stock_share (total_idio stock_contribs) contrib))
  | None =>
      if Qltb 20 smb_pct then Ret (smb_message smb_pct) else
      if Qltb 20 hml_pct then Ret (hml_message hml_pct) else
      match sort_components (components market_pct smb_pct hml_pct idio_pct)
      with
      | (top1_name, top1_pct) :: (top2_name, top2_pct) :: _ =>
          Ret (top_message top1_name top1_pct top2_name top2_pct vol)
      | _ => Raise (IndexError "list index out of range")
      end
  end.

(** The numbers [generate_insight] reads. *)
Definition insight_inputs (d : dict value) (m s h i vol : Q) : Prop :=
  get_num d "market_pct" = Some m
  /\ get_num d "smb_pct" = Some s
  /\ get_num d "hml_pct" = Some h
  /\ get_num d "idiosyncratic_pct" = Some i
  /\ get_num d "total_annual_vol" = Some vol.

End Insight.

Module InsightExamples.

Definition entry (idio : Q) : StockContribution :=
  {| market_contribution := 0; smb_contribution := 0; hml_contribution := 0;
     idio_contribution := idio; weight := 1 # 4 |}.

Definition numbers (m s h i : Q) (sc : dict StockContribution) : dict value :=
  [ ("market_pct", VNum m); ("smb_pct", VNum s); ("hml_pct", VNum h);
    ("idiosyncratic_pct", VNum i); ("total_annual_vol", VNum 18);
    ("stock_contributions", VStocks sc) ]%string.

(** Three holdings; the second and the third both carry more than 20% of
    the stock-specific risk, the third the most. *)
Definition three_stocks : dict StockContribution :=
  [ ("A", entry 2); ("B", entry 10); ("C", entry 30) ]%string.

Definition stock_heavy : dict value := numbers 40 15 5 40 three_stocks.

(** No rule but the last applies. *)
Definition balanced : dict value := numbers 60 15 16 9 three_stocks.

End InsightExamples.

(** ** factor_pipeline.py: the loop of [analyze_all];
       routers/analyze.py: [analyze_portfolio] *)

(** A dict filled in a loop, [for t in l: d[t] = f(t)], and the dict
    comprehension [{t: f(t) for t in l}], where [f(t)] may raise. *)
Definition dict_fill {V} (f : string -> result V) (l : list string)
  : result (dict V) :=
  Flamegraph.foldM (fun acc t => v <- f t ;; Ret (dict_set acc t v)) l [].

Module Analyze.

(** [str(e)]. *)
Definition str_exn (e : exn) : string :=
  match e with
  | KeyError key => ("'" ++ key ++ "'")%string
  | ValueError msg => msg
  | IndexError msg => msg
  end.

Record Position : Type := mkPosition {
  symbol : string;
  market_value : Q
}.

(** What the endpoint answers: a response body, or an [HTTPException]. *)
Inductive response (A : Type) : Type :=
| Ok (a : A)
| HTTPException (status_code : Z) (detail : string).
Arguments Ok {A} a.
Arguments HTTPException {A} status_code detail.

(** The [decomposition] field of the response. *)
Record Summary : Type := mkSummary {
  sum_market_pct : Q;
  sum_smb_pct : Q;
  sum_hml_pct : Q;
  sum_idiosyncratic_pct : Q;
  sum_cross_factor_pct : Q;
  sum_total_annual_vol : Q;
  sum_realized_vol : option Q
}.

Record AnalyzeResponse : Type := mkResponse {
  flamegraph : Flamegraph.Tree;
  decomposition : Summary;
  insight : string;
  stock_details : dict Loadings
}.

(** The locals [total_value], [tickers] and [weights]. *)
Definition total_value (positions : list Position) : Q :=
  py_sum (map market_value positions).

Definition tickers_of (positions : list Position) : list string :=
  map (fun p => str_upper (symbol p)) positions.

Definition weights_of (positions : list Position) : dict Q :=
  fold_left
    (fun acc p =>
       dict_set acc (str_upper (symbol p))
                (market_value p / total_value positions))
    positions [].

Section Endpoint.

Variable np_sqrt : Q -> Q.
Variable OLS_fit :
  list Q -> list (list (option Q)) -> result FactorPipeline.OLSResults.

(** The downloads of [analyze_all]: [download_ff_factors], [fetch_prices]
    and [compute_excess_returns] give the factor table, the prices and the
    excess returns by column, or raise. *)
Variable Prices : Type.
Variable fetch_data : list string -> result (Frame * Prices * dict Series).

(** Step 7, whose failures are swallowed: [None] when it raises. *)
Variable realized_vol_of : Prices -> list string -> dict Q -> option Q.

(** One turn of the loop of [analyze_all]. *)
Definition regress_one (excess : dict Series) (ff_df : Frame) (t : string)
  : result Loadings :=
  match dict_get t excess with
  | Some column =>
      FactorPipeline.run_factor_regression OLS_fit t column ff_df 252 60
  | None => Ret (FactorPipeline._empty_result t)
  end.

Definition regress_all (tickers : list string) (excess : dict Series)
    (ff_df : Frame) : result (dict Loadings) :=
  dict_fill (regress_one excess ff_df) tickers.

Definition analyze_all (tickers : list string)
  : result (dict Loadings * Frame * Prices) :=
  data <- fetch_data tickers ;;
  let '(ff_df, prices, excess) := data in
  results <- regress_all tickers excess ff_df ;;
  Ret (results, ff_df, prices).

(** [{t: betas[t]["residual_variance"] for t in tickers}]. *)
Definition residual_vars_of (betas : dict Loadings) (tickers : list string)
  : result (dict Q) :=
  dict_fill (fun t => b <- dict_item betas t ;; Ret (residual_variance b))
            tickers.

(** [[{"symbol": t, "weight": weights[t]} for t in tickers]]. *)
Definition positions_list_of (weights : dict Q) (tickers : list string)
  : result (list (string * Q)) :=
  mapM (fun t => w <- dict_item weights t ;; Ret (t, w)) tickers.

(** The body of the [try] block. *)
Definition analysis (tickers : list string) (weights : dict Q)
  : result AnalyzeResponse :=
  all <- analyze_all tickers ;;
  let '(betas, ff_df, prices) := all in
  factor_cov <- FactorCovariance.compute_factor_covariance ff_df 252 ;;
  residual_vars <- residual_vars_of betas tickers ;;
  decomposition <-
    Decomposition.decompose_portfolio_variance np_sqrt weights betas
      factor_cov residual_vars ;;
  flamegraph <- Flamegraph.build_flamegraph_json decomposition betas ;;
  positions_list <- positions_list_of weights tickers ;;
  insight <- Insight.generate_insight decomposition positions_list ;;
  let realized_vol := realized_vol_of prices tickers weights in
  market_pct <- Flamegraph.num_item decomposition "market_pct" ;;
  smb_pct <- Flamegraph.num_item decomposition "smb_pct" ;;
  hml_pct <- Flamegraph.num_item decomposition "hml_pct" ;;
  idiosyncratic_pct <- Flamegraph.num_item decomposition "idiosyncratic_pct" ;;
  let cross_factor_pct :=
    match get_num decomposition "cross_factor_pct" with
    | Some q => q
    | None => 0
    end in
  total_annual_vol <- Flamegraph.num_item decomposition "total_annual_vol" ;;
  Ret {| flamegraph := flamegraph;
         decomposition :=
           {| sum_market_pct := market_pct;
              sum_smb_pct := smb_pct;
              sum_hml_pct := hml_pct;
              sum_idiosyncratic_pct := idiosyncratic_pct;
              sum_cross_factor_pct := cross_factor_pct;
              sum_total_annual_vol := total_annual_vol;
              sum_realized_vol := realized_vol |};
         insight := insight;
         stock_details := betas |}.

Definition analyze_portfolio (positions : list Position)
  : response AnalyzeResponse :=
  if Nat.eqb (List.length positions) 0 then
    HTTPException 400 "No positions provided"
  else
  if Qle_bool (total_value positions) 0 then
    HTTPException 400 "Total portfolio value must be positive"
  else
  match analysis (tickers_of positions) (weights_of positions) with
  | Ret r => Ok r
  | Raise e => HTTPException 500 ("Analysis failed: " ++ str_exn e)
  end.

End Endpoint.

(** Every column of the excess returns that belongs to one of the tickers
    has no valid return on a date of the factor table. *)
Definition no_usable_returns (tickers : list string) (excess : dict Series)
    (ff_df : Frame) : Prop :=
  forall t column,
    In t tickers -> dict_get t excess = Some column ->
    index_intersection (index (series_dropna column)) (index ff_df) = [].

End Analyze.

Module AnalyzeExamples.

Import Analyze.

Definition positions : list Position :=
  [ mkPosition "aapl" 3; mkPosition "MSFT" 1 ]%string.

(** A fit with a market beta of 1 that leaves the returns as residuals. *)
Definition unit_fit (y : list Q) (X : list (list (option Q)))
  : result FactorPipeline.OLSResults :=
  Ret (FactorPipeline.mkOLS [0; 1; 0; 0] (1 # 2) y).

(** Sixty days of returns for AAPL, none for MSFT. *)
Definition fetch_aapl (tickers : list string)
  : result (Frame * unit * dict Series) :=
  Ret (CovExamples.factors_61, tt, [("AAPL"%string, RegExamples.returns_60)]).

(** Returns for AAPL on a day the factor table does not have. *)
Definition fetch_stale (tickers : list string)
  : result (Frame * unit * dict Series) :=
  Ret (CovExamples.factors_61, tt, [("AAPL"%string, [(100%Z, Some 1)])]).

Definition no_realized_vol (prices : unit) (tickers : list string)
    (weights : dict Q) : option Q := None.

End AnalyzeExamples.

(** * Preconditions and specification-side definitions *)

(** ** Inputs of ordinary size *)

(** The model computes on exact rationals, the code on binary64 numbers.
    An input number is ordinary when it is 0 or its magnitude lies between
    1e-20 and 1e20: the products of up to five such numbers that the
    decomposition forms, and their quotients, stay far inside the range of
    binary64 (about 1e-308 to 1e308), away from [inf], [nan] and underflow
    to 0.  The theorems that bound returned percentages are stated for such
    inputs; their proofs are in exact arithmetic. *)
Definition ordinaryb (x : Q) : bool :=
  Qeq_bool x 0
  || (Qle_bool (1 # 100000000000000000000) (Qabs x)
      && Qle_bool (Qabs x) 100000000000000000000).

(** Every number [decompose_portfolio_variance] reads is ordinary: the
    weights, the three loadings of every ticker of [weights], the nine
    entries of the factor covariance, and the residual variances the code
    looks up ([residual_vars.get(t, 0.0)]). *)
Definition ordinary_inputs (weights : dict Q) (betas : dict Loadings)
    (F : mat3) (residual_vars : dict Q) : bool :=
  forallb (fun item => ordinaryb (snd item)) weights
  && forallb (fun t => match dict_get t betas with
                       | Some l => ordinaryb (beta_mkt l)
                                   && ordinaryb (beta_smb l)
                                   && ordinaryb (beta_hml l)
                       | None => true
                       end) (dict_keys weights)
  && forallb ordinaryb
       [ mget F 0 0; mget F 0 1; mget F 0 2;
         mget F 1 0; mget F 1 1; mget F 1 2;
         mget F 2 0; mget F 2 1; mget F 2 2 ]
  && forallb (fun t => ordinaryb (dict_get_default residual_vars t 0))
             (dict_keys weights).

(** ** Variance and covariance in the words of the specification *)

(** The sum of the squared deviations of [y] from its arithmetic mean,
    over the divisor [k].  With [k = N] this is the population variance,
    with [k = N - 1] the (unbiased) sample variance. *)
Definition variance_over (k : Q) (y : list Q) : Q :=
  let n := inject_Z (Z.of_nat (List.length y)) in
  let mean := py_sum y / n in
  py_sum (map (fun v => (v - mean) * (v - mean)) y) / k.

Definition population_variance (y : list Q) : Q :=
  variance_over (inject_Z (Z.of_nat (List.length y))) y.

Definition sample_variance (y : list Q) : Q :=
  variance_over (inject_Z (Z.of_nat (List.length y)) - 1) y.

(** The sample covariance of two columns of [N] values each, by its
    computational formula:
    [(sum x_i y_i - (sum x_i)(sum y_i) / N) / (N - 1)]. *)
Definition sum_of_products (xs ys : list Q) : Q :=
  py_sum (map (fun p => fst p * snd p) (combine xs ys)).

Definition sample_covariance (xs ys : list Q) : Q :=
  let n := inject_Z (Z.of_nat (List.length xs)) in
  (sum_of_products xs ys - py_sum xs * py_sum ys / n) / (n - 1).

(** A row of the factor table with all three factors present, and the
    value of factor [k] (0: Mkt-RF, 1: SMB, 2: HML) in a row. *)
Definition factor_of (k : nat) (r : FFRow) : option Q :=
  match k with
  | O => ff_mkt_rf r
  | S O => ff_smb r
  | _ => ff_hml r
  end.

Definition all_present (r : FFRow) : bool :=
  match ff_mkt_rf r, ff_smb r, ff_hml r with
  | Some _, Some _, Some _ => true
  | _, _, _ => false
  end.

(** The rows of the table without a missing factor, in table order. *)
Definition valid_rows (ff_df : Frame) : Frame :=
  filter (fun item => all_present (snd item)) ff_df.

(** The three factor values of a row, a missing one read as 0. *)
Definition vec_of_row (r : FFRow) : vec3 :=
  let get v := match v with Some x => x | None => 0 end in
  (get (ff_mkt_rf r), get (ff_smb r), get (ff_hml r)).

(** The values of factor [k] down the rows. *)
Definition factor_column (k : nat) (rows : Frame) : list Q :=
  flat_map (fun item => match factor_of k (snd item) with
                        | Some x => [x]
                        | None => []
                        end) rows.

(** ** ASCII symbols *)

(** The model's strings are byte strings and [str_upper] maps the bytes
    [a]..[z] only; on a string of ASCII characters this is what Python's
    [str.upper()] does. *)
Fixpoint is_ascii (s : string) : bool :=
  match s with
  | EmptyString => true
  | String c s' => Nat.ltb (Ascii.nat_of_ascii c) 128 && is_ascii s'
  end.

(** ** decomposition.py: [build_flamegraph_json] on open entries *)

(** In the code an entry of [betas] is an open dict.  The record
    [Loadings] stands for an entry that has all its keys; here an entry is
    the dict of its numeric keys, and a missing key raises [KeyError] where
    the code reads it. *)
Module OpenBetas.

Definition Entry : Type := dict Q.

(** The four reads [betas[ticker]["beta_mkt"]], ..., [betas[ticker]
    ["r_squared"]] of one leaf, in source order. *)
Definition read_meta (betas : dict Entry) (ticker : string)
  : result (Q * Q * Q * Q) :=
  entry <- dict_item betas ticker ;;
  bm <- dict_item entry "beta_mkt" ;;
  bs <- dict_item entry "beta_smb" ;;
  bh <- dict_item entry "beta_hml" ;;
  r2 <- dict_item entry "r_squared" ;;
  Ret (bm, bs, bh, r2).

Definition leaf_with (ticker : string) (val wt : Q) (m : Q * Q * Q * Q)
  : Flamegraph.Leaf :=
  let '(bm, bs, bh, r2) := m in
  {| Flamegraph.leaf_name := ticker;
     Flamegraph.leaf_value := round2 val;
     Flamegraph.leaf_meta :=
       {| Flamegraph.meta_beta_mkt := bm;
          Flamegraph.meta_beta_smb := bs;
          Flamegraph.meta_beta_hml := bh;
          Flamegraph.meta_r_squared := r2;
          Flamegraph.meta_weight := wt |} |}.

(** One iteration of the loop of [make_factor_children]. *)
Definition visit (betas : dict Entry) (factor_key : string)
    (children : list Flamegraph.Leaf) (item : string * StockContribution)
  : result (list Flamegraph.Leaf) :=
  let '(ticker, contrib) := item in
  val <- Flamegraph.contrib_item contrib factor_key ;;
  if Qltb (1 # 2) val then
    m <- read_meta betas ticker ;;
    wt <- Flamegraph.contrib_item contrib "weight" ;;
    Ret (children ++ [leaf_with ticker val wt m])
  else Ret children.

Definition make_factor_children (sc : dict StockContribution)
    (betas : dict Entry) (factor_key : string)
  : result (list Flamegraph.Leaf) :=
  children <- Flamegraph.foldM (visit betas factor_key) sc [] ;;
  Ret (Flamegraph.sorted_desc children).

Definition build_flamegraph_json (decomposition : dict value)
    (betas : dict Entry) : result Flamegraph.Tree :=
  sc <- Flamegraph.stocks_item decomposition "stock_contributions" ;;
  vol <- Flamegraph.num_item decomposition "total_annual_vol" ;;
  v1 <- Flamegraph.num_item decomposition "market_pct" ;;
  c1 <- make_factor_children sc betas "market_contribution" ;;
  v2 <- Flamegraph.num_item decomposition "smb_pct" ;;
  c2 <- make_factor_children sc betas "smb_contribution" ;;
  v3 <- Flamegraph.num_item decomposition "hml_pct" ;;
  c3 <- make_factor_children sc betas "hml_contribution" ;;
  v4 <- Flamegraph.num_item decomposition "idiosyncratic_pct" ;;
  c4 <- make_factor_children sc betas "idio_contribution" ;;
  Ret {| Flamegraph.tree_name :=
           ("Your Portfolio — " ++ format_1f vol ++ "% Annual Vol")%string;
         Flamegraph.tree_value := 100;
         Flamegraph.tree_children :=
           [ Flamegraph.mkNode "Market Beta" v1 "market" c1;
             Flamegraph.mkNode "SMB (Size)" v2 "smb" c2;
             Flamegraph.mkNode "HML (Value)" v3 "hml" c3;
             Flamegraph.mkNode "Idiosyncratic" v4 "idiosyncratic" c4 ] |}.

(** An entry with the four keys a leaf needs. *)
Definition complete (entry : Entry) : bool :=
  match dict_get "beta_mkt" entry, dict_get "beta_smb" entry,
        dict_get "beta_hml" entry, dict_get "r_squared" entry with
  | Some _, Some _, Some _, Some _ => true
  | _, _, _, _ => false
  end.

(** The typed dict [betas] holds the three loadings that the open dict
    [open] has for each of its tickers, which is what
    [decompose_portfolio_variance] reads of an entry. *)
Definition loadings_from (open : dict Entry) (betas : dict Loadings) : Prop :=
  forall t l,
    dict_get t betas = Some l ->
    exists entry,
      dict_get t open = Some entry
      /\ dict_get "beta_mkt" entry = Some (beta_mkt l)
      /\ dict_get "beta_smb" entry = Some (beta_smb l)
      /\ dict_get "beta_hml" entry = Some (beta_hml l).

End OpenBetas.

Module OpenExamples.

(** The loadings of [Examples.betas_AB] as open entries with all their
    keys. *)
Definition open_AB : dict OpenBetas.Entry :=
  [ ("A", [ ("beta_mkt", 12 # 10); ("beta_smb", 3 # 10);
            ("beta_hml", -1 # 10); ("r_squared", 1 # 2) ]);
    ("B", [ ("beta_mkt", 8 # 10); ("beta_smb", -2 # 10);
            ("beta_hml", 5 # 10); ("r_squared", 1 # 2) ]) ]%string.

(** The loadings of [FlameExamples.betas] as open entries; the entry of
    [C], an instrument that is visible in no bucket, lacks [r_squared]. *)
Definition open_flame : dict OpenBetas.Entry :=
  [ ("A", [ ("beta_mkt", 1); ("beta_smb", 0); ("beta_hml", 0);
            ("r_squared", 1 # 2) ]);
    ("B", [ ("beta_mkt", 2); ("beta_smb", 0); ("beta_hml", 0);
            ("r_squared", 1 # 2) ]);
    ("C", [ ("beta_mkt", 3); ("beta_smb", 0); ("beta_hml", 0) ]);
    ("D", [ ("beta_mkt", 4); ("beta_smb", 0); ("beta_hml", 0);
            ("r_squared", 1 # 2) ]) ]%string.

End OpenExamples.
(** * Properties *)

(** ** Numeric lemmas *)

Lemma Qltb_lt (a b : Q) : Qltb a b = true <-> a < b.
Proof.
  unfold Qltb. rewrite negb_true_iff.
  split; intro H.
  - apply Qnot_le_lt. intro Hle. apply Qle_bool_iff in Hle. congruence.
  - destruct (Qle_bool b a) eqn:E; [|reflexivity].
    apply Qle_bool_iff in E. exfalso. exact (Qlt_not_le _ _ H E).
Qed.

Lemma Qltb_ge (a b : Q) : Qltb a b = false <-> b <= a.
Proof.
  unfold Qltb. rewrite negb_false_iff. apply Qle_bool_iff.
Qed.

#[global] Instance Qltb_proper : Proper (Qeq ==> Qeq ==> eq) Qltb.
Proof.
  intros a a' Ha b b' Hb.
  destruct (Qltb a b) eqn:E, (Qltb a' b') eqn:E'; try reflexivity.
  - apply Qltb_lt in E. apply Qltb_ge in E'. rewrite Ha, Hb in E. lra.
  - apply Qltb_ge in E. apply Qltb_lt in E'. rewrite Ha, Hb in E. lra.
Qed.

Ltac case_ltb a b :=
  let E := fresh "E" in
  destruct (Qltb a b) eqn:E;
  [apply Qltb_lt in E | apply Qltb_ge in E].

#[global] Instance py_max_proper : Proper (Qeq ==> Qeq ==> Qeq) py_max.
Proof.
  intros a a' Ha b b' Hb. unfold py_max.
  rewrite (Qltb_proper _ _ Ha _ _ Hb).
  destruct (Qltb a' b'); assumption.
Qed.

Lemma py_max_nonneg (a : Q) : 0 <= py_max a 0.
Proof. unfold py_max. case_ltb a 0; lra. Qed.

Lemma py_max_pos (a : Q) : 0 < a -> py_max a 0 == a.
Proof. intro H. unfold py_max. case_ltb a 0; lra. Qed.

Lemma py_max_nonpos (a : Q) : a <= 0 -> py_max a 0 == 0.
Proof. intro H. unfold py_max. case_ltb a 0; lra. Qed.


Lemma py_max_scale (c a : Q) : 0 < c -> py_max (c * a) 0 == c * py_max a 0.
Proof.
  intro Hc. unfold py_max.
  case_ltb (c * a) 0; case_ltb a 0; try lra; nra.
Qed.

#[global] Instance round_half_even_proper : Proper (Qeq ==> eq) round_half_even.
Proof.
  intros x y H. unfold round_half_even.
  rewrite (Qfloor_comp _ _ H).
  assert (Hc : Qcompare (x - inject_Z (Qfloor y)) (1 # 2)
             = Qcompare (y - inject_Z (Qfloor y)) (1 # 2)).
  { apply Qcompare_comp; [rewrite H|]; reflexivity. }
  rewrite Hc. reflexivity.
Qed.

Lemma round2_proper (x y : Q) : x == y -> round2 x = round2 y.
Proof.
  intro H. unfold round2.
  assert (Hx : x * 100 == y * 100) by (rewrite H; reflexivity).
  rewrite (round_half_even_proper _ _ Hx). reflexivity.
Qed.

Lemma round_half_even_bounds (y : Q) :
  y - (1 # 2) <= inject_Z (round_half_even y) <= y + (1 # 2).
Proof.
  unfold round_half_even.
  pose proof (Qfloor_le y) as Hlo.
  pose proof (Qlt_floor y) as Hhi.
  rewrite inject_Z_plus in Hhi. change (inject_Z 1) with 1 in Hhi.
  destruct (Qcompare (y - inject_Z (Qfloor y)) (1 # 2)) eqn:E.
  - apply Qeq_alt in E.
    destruct (Z.even (Qfloor y)).
    + lra.
    + rewrite inject_Z_plus. change (inject_Z 1) with 1. lra.
  - apply Qlt_alt in E. lra.
  - apply Qgt_alt in E. rewrite inject_Z_plus. change (inject_Z 1) with 1. lra.
Qed.

Lemma round2_bounds (x : Q) :
  x - (1 # 200) <= round2 x <= x + (1 # 200).
Proof.
  unfold round2.
  pose proof (round_half_even_bounds (x * 100)) as [Hlo Hhi].
  set (r := inject_Z (round_half_even (x * 100))) in *.
  assert (Hr : r / 100 == r * (1 # 100)) by (field).
  rewrite Hr. lra.
Qed.

Lemma py_sum3 (a b c : Q) : py_sum [a; b; c] == a + b + c.
Proof. unfold py_sum; simpl. ring. Qed.

Lemma py_sum4 (a b c d : Q) : py_sum [a; b; c; d] == a + b + c + d.
Proof. unfold py_sum; simpl. ring. Qed.

(** ** Vectors up to [Qeq] *)


Lemma veq_refl (u : list Q) : veq u u.
Proof. induction u; constructor; [reflexivity | assumption]. Qed.

Lemma veq_sym (u v : list Q) : veq u v -> veq v u.
Proof. induction 1; constructor; [symmetry|]; assumption. Qed.

Lemma veq_trans (u v w : list Q) : veq u v -> veq v w -> veq u w.
Proof.
  intros H; revert w.
  induction H as [|x y u v Hxy _ IH]; intros w Hw; inversion Hw; subst;
    constructor.
  - etransitivity; eassumption.
  - apply IH; assumption.
Qed.

#[global] Instance veq_equiv : Equivalence veq.
Proof.
  split; [exact veq_refl | exact veq_sym | exact veq_trans].
Qed.

Lemma veq_length (u v : list Q) : veq u v -> List.length u = List.length v.
Proof. induction 1; simpl; congruence. Qed.

#[global] Instance dot_proper : Proper (veq ==> veq ==> Qeq) dot.
Proof.
  intros u u' Hu. induction Hu as [|x x' u u' Hx _ IH]; intros v v' Hv.
  - reflexivity.
  - destruct Hv as [|y y' v v' Hy Hv]; simpl; [reflexivity|].
    rewrite Hx, Hy, (IH _ _ Hv). reflexivity.
Qed.

#[global] Instance vadd_proper : Proper (veq ==> veq ==> veq) vadd.
Proof.
  intros u u' Hu. induction Hu as [|x x' u u' Hx _ IH]; intros v v' Hv.
  - constructor.
  - destruct Hv as [|y y' v v' Hy Hv]; simpl; constructor.
    + rewrite Hx, Hy. reflexivity.
    + apply IH, Hv.
Qed.

Lemma vscale_length (c : Q) (u : list Q) :
  List.length (vscale c u) = List.length u.
Proof. apply length_map. Qed.

Lemma vadd_length (u v : list Q) :
  List.length (vadd u v) = Nat.min (List.length u) (List.length v).
Proof.
  revert v; induction u as [|x u IH]; intros [|y v]; simpl; auto.
Qed.

Lemma vscale_vadd (c : Q) (u v : list Q) :
  veq (vscale c (vadd u v)) (vadd (vscale c u) (vscale c v)).
Proof.
  revert v; induction u as [|x u IH]; intros [|y v]; simpl; constructor.
  - ring.
  - apply IH.
Qed.

Lemma vscale_vscale (c x : Q) (u : list Q) :
  veq (vscale (c * x) u) (vscale c (vscale x u)).
Proof.
  induction u as [|y u IH]; simpl; constructor; [ring | exact IH].
Qed.

Lemma vscale_zeros (c : Q) (n : nat) : veq (vscale c (repeat 0 n)) (repeat 0 n).
Proof.
  induction n; simpl; constructor; [ring | assumption].
Qed.

Lemma vadd_zeros (n : nat) : veq (vadd (repeat 0 n) (repeat 0 n)) (repeat 0 n).
Proof.
  induction n; simpl; constructor; [ring | assumption].
Qed.

Lemma vadd_interchange (a b c d : list Q) :
  veq (vadd (vadd a b) (vadd c d)) (vadd (vadd a c) (vadd b d)).
Proof.
  revert b c d; induction a as [|x a IH]; intros [|y b] [|z c] [|t d];
    simpl; try constructor.
  - ring.
  - apply IH.
Qed.

Lemma dot_vscale_l (c : Q) (u v : list Q) : dot (vscale c u) v == c * dot u v.
Proof.
  revert v; induction u as [|x u IH]; intros [|y v]; simpl; try ring.
  rewrite IH. ring.
Qed.

Lemma dot_vscale_r (c : Q) (u v : list Q) : dot u (vscale c v) == c * dot u v.
Proof.
  revert v; induction u as [|x u IH]; intros [|y v]; simpl; try ring.
  rewrite IH. ring.
Qed.

Lemma dot_vadd_l (u v t : list Q) :
  List.length u = List.length v ->
  dot (vadd u v) t == dot u t + dot v t.
Proof.
  revert v t; induction u as [|x u IH]; intros [|y v] t; simpl;
    try discriminate; intro H.
  - ring.
  - destruct t as [|z t]; [ring|].
    injection H as H. rewrite (IH _ _ H). ring.
Qed.

Lemma dot_zeros_l (n : nat) (v : list Q) : dot (repeat 0 n) v == 0.
Proof.
  revert v; induction n; intros [|y v]; simpl; try reflexivity.
  rewrite IHn. ring.
Qed.

Lemma vmul_vscale_l (c : Q) (u v : list Q) :
  veq (vmul (vscale c u) v) (vscale c (vmul u v)).
Proof.
  revert v; induction u as [|x u IH]; intros [|y v]; simpl; constructor.
  - ring.
  - apply IH.
Qed.

(** ** [w @ M]: scaling and additivity *)

Lemma vecmat_vscale (n : nat) (c : Q) (w : list Q) (M : list (list Q)) :
  veq (vecmat n (vscale c w) M) (vscale c (vecmat n w M)).
Proof.
  revert M; induction w as [|x w IH]; intros M; simpl.
  - symmetry. apply vscale_zeros.
  - destruct M as [|r M].
    + symmetry. apply vscale_zeros.
    + rewrite vscale_vadd.
      apply vadd_proper; [apply vscale_vscale | apply IH].
Qed.

Lemma vecmat_length (n : nat) (w : list Q) (M : list (list Q)) :
  Forall (fun r => List.length r = n) M ->
  List.length (vecmat n w M) = n.
Proof.
  intro H; revert w; induction H as [|r M Hr _ IH]; intros [|x w]; simpl;
    try apply repeat_length.
  rewrite vadd_length, vscale_length, Hr, IH. apply Nat.min_id.
Qed.

Lemma vecmat_madd (n : nat) (w : list Q) (M N : list (list Q)) :
  List.length M = List.length N ->
  veq (vecmat n w (madd M N)) (vadd (vecmat n w M) (vecmat n w N)).
Proof.
  revert w N; induction M as [|r M IH]; intros w [|s N] H; simpl in H;
    try discriminate.
  - destruct w; simpl; symmetry; apply vadd_zeros.
  - injection H as H. destruct w as [|x w]; simpl.
    + symmetry; apply vadd_zeros.
    + rewrite (IH w N H), vscale_vadd. apply vadd_interchange.
Qed.

Lemma quad_vscale (c : Q) (w : list Q) (M : list (list Q)) :
  quad (vscale c w) M == c * c * quad w M.
Proof.
  unfold quad. rewrite vscale_length.
  rewrite (vecmat_vscale (List.length w) c w M).
  rewrite dot_vscale_l, dot_vscale_r. ring.
Qed.

Lemma quad_madd (w : list Q) (M N : list (list Q)) :
  List.length M = List.length N ->
  Forall (fun r => List.length r = List.length w) M ->
  Forall (fun r => List.length r = List.length w) N ->
  quad w (madd M N) == quad w M + quad w N.
Proof.
  intros HL HM HN. unfold quad.
  rewrite (vecmat_madd _ w M N HL).
  apply dot_vadd_l.
  rewrite !vecmat_length; auto.
Qed.

(** ** Dict lemmas *)

Lemma dict_get_set_same {V} (d : dict V) (k : string) (v : V) :
  dict_get k (dict_set d k v) = Some v.
Proof.
  induction d as [|[k' v'] d IH]; simpl.
  - rewrite String.eqb_refl. reflexivity.
  - destruct (String.eqb k k') eqn:E; simpl; rewrite ?String.eqb_refl, ?E; auto.
Qed.

Lemma dict_get_set_other {V} (d : dict V) (k k' : string) (v : V) :
  k <> k' -> dict_get k (dict_set d k' v) = dict_get k d.
Proof.
  intro Hne. apply String.eqb_neq in Hne.
  induction d as [|[k0 v0] d IH]; simpl.
  - rewrite Hne. reflexivity.
  - destruct (String.eqb k' k0) eqn:E; simpl.
    + apply String.eqb_eq in E; subst k0. rewrite Hne. reflexivity.
    + destruct (String.eqb k k0); auto.
Qed.

Lemma dict_get_keys {V} (d : dict V) (k : string) :
  In k (dict_keys d) <-> exists v, dict_get k d = Some v.
Proof.
  induction d as [|[k' v'] d IH]; simpl.
  - split; [tauto | intros [v H]; discriminate].
  - destruct (String.eqb k k') eqn:E.
    + apply String.eqb_eq in E; subst. split; eauto.
    + apply String.eqb_neq in E. rewrite <- IH. split; [|tauto].
      intros [H|H]; [congruence | assumption].
Qed.

(** A dict comprehension [{t: f(t) for t in l}], written as the loop it is. *)
Lemma dict_get_comprehension {V} (f : string -> V) (l : list string)
    (acc : dict V) (k : string) :
  dict_get k (fold_left (fun acc t => dict_set acc t (f t)) l acc)
  = if existsb (String.eqb k) l then Some (f k) else dict_get k acc.
Proof.
  revert acc; induction l as [|t l IH]; intro acc; simpl; [reflexivity|].
  rewrite IH.
  destruct (String.eqb k t) eqn:E; simpl.
  - apply String.eqb_eq in E; subst t.
    rewrite dict_get_set_same. destruct (existsb _ l); reflexivity.
  - apply String.eqb_neq in E. rewrite dict_get_set_other by assumption.
    reflexivity.
Qed.

Lemma existsb_keys {V} (d : dict V) (k : string) :
  existsb (String.eqb k) (dict_keys d)
  = match dict_get k d with Some _ => true | None => false end.
Proof.
  induction d as [|[k' v'] d IH]; simpl; [reflexivity|].
  destruct (String.eqb k k'); simpl; auto.
Qed.

Lemma mapM_ret {A B} (f : A -> result B) (g : A -> B) (l : list A) :
  (forall a, In a l -> f a = Ret (g a)) -> mapM f l = Ret (map g l).
Proof.
  induction l as [|a l IH]; intro H; simpl; [reflexivity|].
  rewrite (H a) by (left; reflexivity). simpl.
  rewrite IH by (intros; apply H; right; assumption). reflexivity.
Qed.

Lemma mapM_length {A B} (f : A -> result B) (l : list A) (bs : list B) :
  mapM f l = Ret bs -> List.length bs = List.length l.
Proof.
  revert bs; induction l as [|a l IH]; simpl; intros bs H.
  - injection H as <-. reflexivity.
  - destruct (f a); simpl in H; [|discriminate].
    destruct (mapM f l); simpl in H; [|discriminate].
    injection H as <-. simpl. f_equal. apply IH. reflexivity.
Qed.


Lemma weight_vector_ok (weights : dict Q) :
  mapM (dict_item weights) (dict_keys weights) = Ret (weight_vector weights).
Proof.
  apply mapM_ret. intros t Ht.
  apply dict_get_keys in Ht. destruct Ht as [v Hv].
  unfold dict_item, dict_get_default. rewrite Hv. reflexivity.
Qed.



(** ** Closed forms of the locals of [decompose_portfolio_variance] *)

Lemma raw_contributions_closed (w : list Q) (B : list vec3) (F : mat3) :
  raw_contributions w B F
  = [ ("market", pure_contribution w B F 0);
      ("smb", pure_contribution w B F 1);
      ("hml", pure_contribution w B F 2) ]%string.
Proof. reflexivity. Qed.

Lemma pure_factor_sum_eq (w : list Q) (B : list vec3) (F : mat3) :
  pure_factor_sum w B F == pure_sum w B F.
Proof.
  unfold pure_factor_sum. rewrite raw_contributions_closed.
  unfold dict_values; simpl. apply py_sum3.
Qed.

Lemma cross_terms_eq (w : list Q) (B : list vec3) (F : mat3) :
  cross_terms w B F == cross_residual w B F.
Proof.
  unfold cross_terms, cross_residual. rewrite pure_factor_sum_eq. reflexivity.
Qed.

Lemma pure_contribution_nonneg (w : list Q) (B : list vec3) (F : mat3) k :
  0 <= pure_contribution w B F k.
Proof. apply py_max_nonneg. Qed.


Lemma apportion_value (p S S' c c' : Q) :
  S == S' -> c == c' -> 0 < S ->
  p + c * (p / S) == p + c' * p / S'.
Proof.
  intros HS Hc Hpos. rewrite HS, Hc. field. lra.
Qed.

Lemma apportioned_closed (w : list Q) (B : list vec3) (F : mat3) :
  exists m s h,
    apportioned w B F = [("market", m); ("smb", s); ("hml", h)]%string
    /\ m == bucket_variance w B F 0
    /\ s == bucket_variance w B F 1
    /\ h == bucket_variance w B F 2.
Proof.
  unfold apportioned, apportion, bucket_variance.
  rewrite raw_contributions_closed.
  pose proof (pure_factor_sum_eq w B F) as HS.
  pose proof (cross_terms_eq w B F) as HC.
  rewrite <- (Qltb_proper 0 0 (Qeq_refl 0) _ _ HS).
  case_ltb 0 (pure_factor_sum w B F); simpl.
  - destruct (Qeq_bool (cross_terms w B F) 0) eqn:Ec; simpl.
    + apply Qeq_bool_eq in Ec. rewrite Ec in HC.
      do 3 eexists; split; [reflexivity|].
      assert (HS' : ~ pure_sum w B F == 0) by lra.
      repeat split; rewrite <- HC; field; exact HS'.
    + do 3 eexists; split; [reflexivity|].
      unfold dict_at, dict_get_default; simpl.
      repeat split; apply apportion_value; assumption.
  - do 3 eexists; split; [reflexivity|]. repeat split; reflexivity.
Qed.

#[global] Instance clamped_pct_proper : Proper (Qeq ==> Qeq ==> Qeq) clamped_pct.
Proof.
  intros x x' Hx t t' Ht. unfold clamped_pct. rewrite Hx, Ht. reflexivity.
Qed.

Lemma renormalized_value (x x' T T' : Q) :
  x == x' -> T == T' -> 0 < T -> x * (100 / T) == x' / T' * 100.
Proof.
  intros Hx HT Hpos. rewrite Hx, HT. field. lra.
Qed.

Lemma raw_pcts_closed (w : list Q) (B : list vec3) (F : mat3) (d : list Q) :
  exists a b c e,
    raw_pcts w B F d
    = [ ("market_pct", a); ("smb_pct", b); ("hml_pct", c);
        ("idiosyncratic_pct", e) ]%string
    /\ a == bucket_pct w B F d Market
    /\ b == bucket_pct w B F d Smb
    /\ c == bucket_pct w B F d Hml
    /\ e == bucket_pct w B F d Idiosyncratic.
Proof.
  unfold raw_pcts.
  destruct (apportioned_closed w B F) as (m & s & h & E & Hm & Hs & Hh).
  rewrite E. unfold clamped_pcts, dict_at, dict_get_default; simpl.
  set (tv := total_var w B F d).
  assert (Ha : py_max (m / tv * 100) 0 == bucket_clamped w B F d Market).
  { unfold bucket_clamped. fold tv. fold (clamped_pct m tv).
    rewrite Hm. reflexivity. }
  assert (Hb : py_max (s / tv * 100) 0 == bucket_clamped w B F d Smb).
  { unfold bucket_clamped. fold tv. fold (clamped_pct s tv).
    rewrite Hs. reflexivity. }
  assert (Hc : py_max (h / tv * 100) 0 == bucket_clamped w B F d Hml).
  { unfold bucket_clamped. fold tv. fold (clamped_pct h tv).
    rewrite Hh. reflexivity. }
  assert (He : py_max (idio_var w d / tv * 100) 0
               == bucket_clamped w B F d Idiosyncratic) by reflexivity.
  unfold renormalize, dict_values, dict_keys; simpl map.
  set (a := py_max (m / tv * 100) 0) in *.
  set (b := py_max (s / tv * 100) 0) in *.
  set (c := py_max (h / tv * 100) 0) in *.
  set (e := py_max (idio_var w d / tv * 100) 0) in *.
  assert (HT : py_sum [a; b; c; e] == clamped_total w B F d).
  { rewrite py_sum4. unfold clamped_total. rewrite Ha, Hb, Hc, He.
    reflexivity. }
  unfold bucket_pct.
  rewrite <- (Qltb_proper 0 0 (Qeq_refl 0) _ _ HT).
  case_ltb 0 (py_sum [a; b; c; e]).
  - unfold dict_at, dict_get_default; simpl.
    do 4 eexists; split; [reflexivity|].
    repeat split; apply renormalized_value; assumption.
  - do 4 eexists; split; [reflexivity|]. repeat split; assumption.
Qed.

(** ** The three outcomes of [decompose_portfolio_variance] *)

Section Outcomes.

Variable np_sqrt : Q -> Q.
Variables (weights : dict Q) (betas : dict Loadings) (F : mat3)
          (residual_vars : dict Q).

Lemma decompose_raises (e : exn) :
  portfolio_variance weights betas F residual_vars = Raise e ->
  decompose_portfolio_variance np_sqrt weights betas F residual_vars = Raise e.
Proof.
  unfold portfolio_variance, decompose_portfolio_variance.
  rewrite weight_vector_ok; simpl.
  destruct (loading_matrix betas (dict_keys weights)) as [B|e']; simpl.
  - destruct (Nat.eqb _ 0); intro H; [congruence | discriminate H].
  - intro H; congruence.
Qed.

Lemma decompose_degenerate (tv : Q) :
  portfolio_variance weights betas F residual_vars = Ret tv ->
  tv <= 0 ->
  decompose_portfolio_variance np_sqrt weights betas F residual_vars
  = Ret (_zero_result (dict_keys weights) weights).
Proof.
  unfold portfolio_variance, decompose_portfolio_variance.
  rewrite weight_vector_ok; simpl.
  destruct (loading_matrix betas (dict_keys weights)) as [B|e']; simpl;
    [|discriminate].
  destruct (Nat.eqb _ 0); [discriminate|].
  intros H Hle. injection H as H. rewrite H.
  apply Qle_bool_iff in Hle. rewrite Hle. reflexivity.
Qed.

Lemma decompose_nondegenerate (tv : Q) :
  portfolio_variance weights betas F residual_vars = Ret tv ->
  0 < tv ->
  exists B,
    let w := weight_vector weights in
    let d := residual_vector weights residual_vars in
    loading_matrix betas (dict_keys weights) = Ret B
    /\ tv = total_var w B F d
    /\ decompose_portfolio_variance np_sqrt weights betas F residual_vars
       = Ret [ ("market_pct", VNum (round2 (bucket_pct w B F d Market)));
               ("smb_pct", VNum (round2 (bucket_pct w B F d Smb)));
               ("hml_pct", VNum (round2 (bucket_pct w B F d Hml)));
               ("idiosyncratic_pct",
                  VNum (round2 (bucket_pct w B F d Idiosyncratic)));
               ("cross_factor_pct",
                  VNum (round2 (cross_residual w B F / tv * 100)));
               ("total_annual_vol", VNum (round2 (np_sqrt (tv * 252) * 100)));
               ("total_daily_var", VNum tv);
               ("stock_contributions",
                  VStocks (_compute_stock_contributions (dict_keys weights)
                             w B F (np_diag d) tv)) ]%string.
Proof.
  unfold portfolio_variance, decompose_portfolio_variance.
  rewrite weight_vector_ok; simpl.
  destruct (loading_matrix betas (dict_keys weights)) as [B|e']; simpl;
    [|discriminate].
  destruct (Nat.eqb _ 0); [discriminate|].
  intros H Hpos. injection H as H.
  exists B. split; [reflexivity|]. split; [symmetry; exact H|].
  rewrite H.
  assert (Hle : Qle_bool tv 0 = false).
  { destruct (Qle_bool tv 0) eqn:E; [|reflexivity].
    apply Qle_bool_iff in E. lra. }
  rewrite Hle.
  assert (Hlt : Qltb 0 tv = true) by (apply Qltb_lt; exact Hpos).
  rewrite Hlt.
  destruct (raw_pcts_closed (weight_vector weights) B F
              (residual_vector weights residual_vars))
    as (a & b & c & e & E & Ha & Hb & Hc & He).
  rewrite E. unfold dict_at, dict_get_default; simpl.
  rewrite (round2_proper _ _ Ha), (round2_proper _ _ Hb),
          (round2_proper _ _ Hc), (round2_proper _ _ He).
  assert (Hx : cross_terms (weight_vector weights) B F / tv * 100
            == cross_residual (weight_vector weights) B F / tv * 100).
  { rewrite cross_terms_eq. reflexivity. }
  rewrite (round2_proper _ _ Hx).
  reflexivity.
Qed.

End Outcomes.

(** ** Degenerate case *)

Lemma zero_result_stocks (weights : dict Q) (t : string) :
  forall sc,
    get_stocks (_zero_result (dict_keys weights) weights) "stock_contributions"
    = Some sc ->
    dict_get t sc = option_map (mkContribution 0 0 0 0) (dict_get t weights).
Proof.
  intros sc H. cbn in H. injection H as <-.
  rewrite (dict_get_comprehension
             (fun t => mkContribution 0 0 0 0 (dict_get_default weights t 0))).
  rewrite existsb_keys. unfold dict_get_default.
  destruct (dict_get t weights); reflexivity.
Qed.

(** C2. Whenever the total portfolio variance is at most 0, the call returns
    the fixed fallback: each of the four buckets is 25, [total_annual_vol]
    and [total_daily_var] are 0, and [stock_contributions] holds, for every
    ticker of [weights] and no other, four zero contributions together with
    the ticker's input weight. *)
Theorem C2_degenerate_fallback (np_sqrt : Q -> Q) (weights : dict Q)
    (betas : dict Loadings) (F : mat3) (residual_vars : dict Q) (tv : Q) :
  portfolio_variance weights betas F residual_vars = Ret tv ->
  tv <= 0 ->
  exists r sc,
    decompose_portfolio_variance np_sqrt weights betas F residual_vars = Ret r
    /\ get_num r "market_pct" = Some 25
    /\ get_num r "smb_pct" = Some 25
    /\ get_num r "hml_pct" = Some 25
    /\ get_num r "idiosyncratic_pct" = Some 25
    /\ get_num r "total_annual_vol" = Some 0
    /\ get_num r "total_daily_var" = Some 0
    /\ get_stocks r "stock_contributions" = Some sc
    /\ forall t,
         dict_get t sc
         = option_map (mkContribution 0 0 0 0) (dict_get t weights).
Proof.
  intros Htv Hle.
  exists (_zero_result (dict_keys weights) weights).
  eexists. split; [exact (decompose_degenerate np_sqrt _ _ _ _ tv Htv Hle)|].
  repeat (split; [reflexivity|]).
  intro t. apply zero_result_stocks. reflexivity.
Qed.

Lemma C2_degenerate_fallback_witness :
  exists r sc,
    decompose_portfolio_variance sqrt_rational Examples.weights_zero
      Examples.betas_AB Examples.F_small Examples.resid_AB = Ret r
    /\ get_num r "market_pct" = Some 25
    /\ get_num r "smb_pct" = Some 25
    /\ get_num r "hml_pct" = Some 25
    /\ get_num r "idiosyncratic_pct" = Some 25
    /\ get_num r "total_annual_vol" = Some 0
    /\ get_num r "total_daily_var" = Some 0
    /\ get_stocks r "stock_contributions" = Some sc
    /\ forall t,
         dict_get t sc
         = option_map (mkContribution 0 0 0 0)
             (dict_get t Examples.weights_zero).
Proof.
  eapply C2_degenerate_fallback.
  - vm_compute. reflexivity.
  - vm_compute. discriminate.
Defined.

(** ** The [cross_factor_pct] key *)

Lemma nondegenerate_has_cross_factor_pct (np_sqrt : Q -> Q) (weights : dict Q)
    (betas : dict Loadings) (F : mat3) (residual_vars : dict Q) (tv : Q) :
  portfolio_variance weights betas F residual_vars = Ret tv ->
  0 < tv ->
  exists r B,
    decompose_portfolio_variance np_sqrt weights betas F residual_vars = Ret r
    /\ loading_matrix betas (dict_keys weights) = Ret B
    /\ get_num r "cross_factor_pct"
       = Some (round2 (cross_residual (weight_vector weights) B F / tv * 100)).
Proof.
  intros Htv Hpos.
  destruct (decompose_nondegenerate np_sqrt _ _ _ _ tv Htv Hpos)
    as (B & HB & _ & Hr).
  eexists; exists B. split; [exact Hr|]. split; [exact HB|]. reflexivity.
Qed.

Lemma degenerate_lacks_cross_factor_pct (np_sqrt : Q -> Q) (weights : dict Q)
    (betas : dict Loadings) (F : mat3) (residual_vars : dict Q) (tv : Q) :
  portfolio_variance weights betas F residual_vars = Ret tv ->
  tv <= 0 ->
  exists r,
    decompose_portfolio_variance np_sqrt weights betas F residual_vars = Ret r
    /\ dict_get "cross_factor_pct" r = None.
Proof.
  intros Htv Hle. eexists.
  split; [exact (decompose_degenerate np_sqrt _ _ _ _ tv Htv Hle)|].
  reflexivity.
Qed.

(** C8. With every weight at zero the call returns the fallback dict, and
    that dict has no [cross_factor_pct] key, while the non-degenerate call
    on the same loadings has one. *)
Theorem C8_fallback_omits_cross_factor_pct :
  (exists r,
     decompose_portfolio_variance sqrt_rational Examples.weights_zero
       Examples.betas_AB Examples.F_small Examples.resid_AB = Ret r
     /\ dict_get "cross_factor_pct" r = None)
  /\ (exists r x,
        decompose_portfolio_variance sqrt_rational Examples.weights_AB
          Examples.betas_AB Examples.F_small Examples.resid_AB = Ret r
        /\ dict_get "cross_factor_pct" r = Some (VNum x)).
Proof.
  split.
  - eexists. split; vm_compute; reflexivity.
  - do 2 eexists. split; vm_compute; reflexivity.
Qed.

(** ** Annualised volatility *)

Lemma decompose_ret_inv (np_sqrt : Q -> Q) (weights : dict Q)
    (betas : dict Loadings) (F : mat3) (residual_vars : dict Q)
    (r : dict value) :
  decompose_portfolio_variance np_sqrt weights betas F residual_vars = Ret r ->
  exists tv, portfolio_variance weights betas F residual_vars = Ret tv.
Proof.
  intro H.
  destruct (portfolio_variance weights betas F residual_vars) as [tv|e] eqn:E.
  - exists tv. reflexivity.
  - rewrite (decompose_raises np_sqrt _ _ _ _ e E) in H. discriminate.
Qed.

(** C9 (amended). In every non-degenerate decomposition (the returned
    [total_daily_var] is positive) the returned [total_annual_vol] is
    [sqrt(total_daily_var * 252) * 100] rounded to two decimals, hence within
    0.005 of it. *)
Theorem C9_annual_vol_rounded (np_sqrt : Q -> Q) (weights : dict Q)
    (betas : dict Loadings) (F : mat3) (residual_vars : dict Q)
    (r : dict value) (tdv : Q) :
  decompose_portfolio_variance np_sqrt weights betas F residual_vars = Ret r ->
  get_num r "total_daily_var" = Some tdv ->
  0 < tdv ->
  exists vol,
    get_num r "total_annual_vol" = Some vol
    /\ vol = round2 (np_sqrt (tdv * 252) * 100)
    /\ np_sqrt (tdv * 252) * 100 - (1 # 200) <= vol
    /\ vol <= np_sqrt (tdv * 252) * 100 + (1 # 200).
Proof.
  intros Hr Htdv Hpos.
  destruct (decompose_ret_inv _ _ _ _ _ _ Hr) as [tv Htv].
  destruct (Qlt_le_dec 0 tv) as [Hlt|Hle].
  - destruct (decompose_nondegenerate np_sqrt _ _ _ _ tv Htv Hlt)
      as (B & _ & _ & Hd).
    rewrite Hd in Hr. injection Hr as <-.
    cbn in Htdv. injection Htdv as <-.
    eexists. split; [reflexivity|]. split; [reflexivity|].
    apply round2_bounds.
  - rewrite (decompose_degenerate np_sqrt _ _ _ _ tv Htv Hle) in Hr.
    injection Hr as <-. cbn in Htdv. injection Htdv as <-.
    exfalso. revert Hpos. apply Qlt_irrefl.
Qed.

Lemma C9_annual_vol_rounded_witness :
  exists r tdv,
    decompose_portfolio_variance sqrt_rational Examples.weights_one
      Examples.betas_flat Examples.F_small Examples.resid_2268 = Ret r
    /\ get_num r "total_daily_var" = Some tdv
    /\ 0 < tdv
    /\ exists vol,
         get_num r "total_annual_vol" = Some vol
         /\ vol = round2 (sqrt_rational (tdv * 252) * 100)
         /\ sqrt_rational (tdv * 252) * 100 - (1 # 200) <= vol
         /\ vol <= sqrt_rational (tdv * 252) * 100 + (1 # 200).
Proof.
  do 2 eexists.
  split; [vm_compute; reflexivity|].
  split; [vm_compute; reflexivity|].
  split; [vm_compute; reflexivity|].
  eapply (C9_annual_vol_rounded sqrt_rational Examples.weights_one
            Examples.betas_flat Examples.F_small Examples.resid_2268);
    vm_compute; reflexivity.
Defined.

(** With residual variance 1/2268 and weight 1 the daily variance is 1/2268,
    [sqrt(total_daily_var * 252) * 100] is 100/3, and the call returns 33.33. *)
Lemma C9_counterexample :
  exists r tdv vol,
    decompose_portfolio_variance sqrt_rational Examples.weights_one
      Examples.betas_flat Examples.F_small Examples.resid_2268 = Ret r
    /\ get_num r "total_daily_var" = Some tdv
    /\ 0 < tdv
    /\ tdv == 1 # 2268
    /\ sqrt_rational (tdv * 252) == 1 # 3
    /\ get_num r "total_annual_vol" = Some vol
    /\ vol == 3333 # 100
    /\ ~ vol == sqrt_rational (tdv * 252) * 100.
Proof.
  do 3 eexists.
  split; [vm_compute; reflexivity|].
  split; [vm_compute; reflexivity|].
  split; [vm_compute; reflexivity|].
  split; [vm_compute; reflexivity|].
  split; [vm_compute; reflexivity|].
  split; [vm_compute; reflexivity|].
  split; [vm_compute; reflexivity|].
  vm_compute. discriminate.
Qed.

(** ** Apportionment of the cross-factor term *)

Lemma apportioned_value (w : list Q) (B : list vec3) (F : mat3)
    (k : nat) (name : string) :
  In (k, name) (enumerate factor_names) ->
  dict_at (apportioned w B F) name == bucket_variance w B F k.
Proof.
  intro Hin.
  destruct (apportioned_closed w B F) as (m & s & h & E & Hm & Hs & Hh).
  rewrite E. simpl in Hin.
  destruct Hin as [H|[H|[H|[]]]]; injection H as <- <-; assumption.
Qed.

Lemma bucket_variance_apportioned (w : list Q) (B : list vec3) (F : mat3)
    (k : nat) :
  0 < pure_sum w B F ->
  bucket_variance w B F k
  == pure_contribution w B F k
     + cross_residual w B F * pure_contribution w B F k / pure_sum w B F.
Proof.
  intro H. unfold bucket_variance.
  apply Qltb_lt in H. rewrite H. reflexivity.
Qed.

Lemma pure_contribution_zero (w : list Q) (B : list vec3) (F : mat3)
    (k : nat) :
  (k < 3)%nat -> pure_sum w B F == 0 -> pure_contribution w B F k == 0.
Proof.
  intros Hk HS. unfold pure_sum in HS.
  pose proof (pure_contribution_nonneg w B F 0).
  pose proof (pure_contribution_nonneg w B F 1).
  pose proof (pure_contribution_nonneg w B F 2).
  destruct k as [|[|[|k]]]; try lra. lia.
Qed.

Lemma bucket_variance_unapportioned (w : list Q) (B : list vec3) (F : mat3)
    (k : nat) :
  (k < 3)%nat -> pure_sum w B F == 0 -> bucket_variance w B F k == 0.
Proof.
  intros Hk HS. unfold bucket_variance.
  assert (E : Qltb 0 (pure_sum w B F) = false) by (apply Qltb_ge; lra).
  rewrite E. apply pure_contribution_zero; assumption.
Qed.

Lemma bucket_variance_total (w : list Q) (B : list vec3) (F : mat3) :
  0 < pure_sum w B F ->
  bucket_variance w B F 0 + bucket_variance w B F 1 + bucket_variance w B F 2
  == total_systematic w B F.
Proof.
  intro H. rewrite !bucket_variance_apportioned by assumption.
  unfold cross_residual.
  set (S := pure_sum w B F) in *.
  assert (HS : S == pure_contribution w B F 0 + pure_contribution w B F 1
                    + pure_contribution w B F 2) by reflexivity.
  set (p0 := pure_contribution w B F 0) in *.
  set (p1 := pure_contribution w B F 1) in *.
  set (p2 := pure_contribution w B F 2) in *.
  set (ts := total_systematic w B F).
  transitivity ((p0 + p1 + p2) + (ts - S) * ((p0 + p1 + p2) / S)).
  - field. lra.
  - rewrite <- HS. field. lra.
Qed.

Lemma clamped_pct_zero (x tv : Q) : x == 0 -> clamped_pct x tv == 0.
Proof.
  intro H. unfold clamped_pct. rewrite H.
  apply py_max_nonpos. unfold Qdiv. rewrite Qmult_0_l, Qmult_0_l. lra.
Qed.

Lemma bucket_pct_zero (w : list Q) (B : list vec3) (F : mat3) (d : list Q)
    (b : bucket) :
  bucket_clamped w B F d b == 0 -> bucket_pct w B F d b == 0.
Proof.
  intro H. unfold bucket_pct.
  destruct (Qltb 0 (clamped_total w B F d)); rewrite H.
  - unfold Qdiv. rewrite !Qmult_0_l. reflexivity.
  - reflexivity.
Qed.

Lemma round2_zero (x : Q) : x == 0 -> round2 x == 0.
Proof.
  intro H. rewrite (round2_proper _ _ H). reflexivity.
Qed.

(** C4. In the non-degenerate case the second loop of the code leaves in
    [raw_contributions], for each factor [k], the pure contribution plus
    [cross * pure_k / pure_sum] when the pure sum is positive (the three
    then add up to the total systematic variance), and the untouched pure
    contribution, which is 0, when the pure sum is zero.  The returned
    factor percentages are computed from these bucket variances, so with a
    zero pure sum the three factor buckets are 0 and the cross term shows
    only in [cross_factor_pct]. *)
Theorem C4_cross_term_apportionment (np_sqrt : Q -> Q) (weights : dict Q)
    (betas : dict Loadings) (F : mat3) (residual_vars : dict Q) (tv : Q) :
  portfolio_variance weights betas F residual_vars = Ret tv ->
  0 < tv ->
  exists r B,
    decompose_portfolio_variance np_sqrt weights betas F residual_vars = Ret r
    /\ loading_matrix betas (dict_keys weights) = Ret B
    /\ let w := weight_vector weights in
       let d := residual_vector weights residual_vars in
       let S := pure_sum w B F in
       let x := cross_residual w B F in
       let a := apportioned w B F in
       (forall k name, In (k, name) (enumerate factor_names) ->
          dict_at a name == bucket_variance w B F k
          /\ (0 < S ->
              dict_at a name
              == pure_contribution w B F k
                 + x * pure_contribution w B F k / S)
          /\ (S == 0 -> dict_at a name == 0))
       /\ (0 < S ->
           dict_at a "market" + dict_at a "smb" + dict_at a "hml"
           == total_systematic w B F)
       /\ get_num r "market_pct" = Some (round2 (bucket_pct w B F d Market))
       /\ get_num r "smb_pct" = Some (round2 (bucket_pct w B F d Smb))
       /\ get_num r "hml_pct" = Some (round2 (bucket_pct w B F d Hml))
       /\ (S == 0 ->
           round2 (bucket_pct w B F d Market) == 0
           /\ round2 (bucket_pct w B F d Smb) == 0
           /\ round2 (bucket_pct w B F d Hml) == 0)
       /\ get_num r "cross_factor_pct" = Some (round2 (x / tv * 100)).
Proof.
  intros Htv Hpos.
  destruct (decompose_nondegenerate np_sqrt _ _ _ _ tv Htv Hpos)
    as (B & HB & Etv & Hr).
  eexists; exists B. split; [exact Hr|]. split; [exact HB|].
  cbv zeta.
  set (w := weight_vector weights).
  set (d := residual_vector weights residual_vars).
  split; [|split; [|repeat (split; [reflexivity|]); split; [|reflexivity]]].
  - intros k name Hin.
    pose proof (apportioned_value w B F k name Hin) as Hv.
    assert (Hk : (k < 3)%nat).
    { simpl in Hin. destruct Hin as [H|[H|[H|[]]]]; injection H as <- _; lia. }
    split; [exact Hv|]. split; intro HS; rewrite Hv.
    + apply bucket_variance_apportioned; exact HS.
    + apply bucket_variance_unapportioned; assumption.
  - intro HS.
    rewrite (apportioned_value w B F 0%nat "market"),
            (apportioned_value w B F 1%nat "smb"),
            (apportioned_value w B F 2%nat "hml");
      [apply bucket_variance_total; exact HS | simpl; tauto ..].
  - intro HS.
    repeat split; apply round2_zero, bucket_pct_zero;
      unfold bucket_clamped; apply clamped_pct_zero;
      apply bucket_variance_unapportioned; (lia || exact HS).
Qed.

Lemma C4_cross_term_apportionment_witness :
  exists tv,
    portfolio_variance Examples.weights_AB Examples.betas_AB Examples.F_small
      Examples.resid_AB = Ret tv
    /\ 0 < tv
    /\ exists r B,
    decompose_portfolio_variance sqrt_rational Examples.weights_AB
      Examples.betas_AB Examples.F_small Examples.resid_AB = Ret r
    /\ loading_matrix Examples.betas_AB (dict_keys Examples.weights_AB) = Ret B
    /\ let w := weight_vector Examples.weights_AB in
       let d := residual_vector Examples.weights_AB Examples.resid_AB in
       let F := Examples.F_small in
       let S := pure_sum w B F in
       let x := cross_residual w B F in
       let a := apportioned w B F in
       (forall k name, In (k, name) (enumerate factor_names) ->
          dict_at a name == bucket_variance w B F k
          /\ (0 < S ->
              dict_at a name
              == pure_contribution w B F k
                 + x * pure_contribution w B F k / S)
          /\ (S == 0 -> dict_at a name == 0))
       /\ (0 < S ->
           dict_at a "market" + dict_at a "smb" + dict_at a "hml"
           == total_systematic w B F)
       /\ get_num r "market_pct" = Some (round2 (bucket_pct w B F d Market))
       /\ get_num r "smb_pct" = Some (round2 (bucket_pct w B F d Smb))
       /\ get_num r "hml_pct" = Some (round2 (bucket_pct w B F d Hml))
       /\ (S == 0 ->
           round2 (bucket_pct w B F d Market) == 0
           /\ round2 (bucket_pct w B F d Smb) == 0
           /\ round2 (bucket_pct w B F d Hml) == 0)
       /\ get_num r "cross_factor_pct" = Some (round2 (x / tv * 100)).
Proof.
  eexists.
  split; [vm_compute; reflexivity|].
  split; [vm_compute; reflexivity|].
  apply (C4_cross_term_apportionment sqrt_rational Examples.weights_AB
           Examples.betas_AB Examples.F_small Examples.resid_AB);
    vm_compute; reflexivity.
Defined.

(** ** Total variance = systematic + idiosyncratic *)

Lemma systematic_cov_length (B : list vec3) (F : mat3) :
  List.length (systematic_cov B F) = List.length B.
Proof.
  unfold systematic_cov, matmul_T, matmul_F. rewrite !length_map. reflexivity.
Qed.

Lemma systematic_cov_rows (B : list vec3) (F : mat3) :
  Forall (fun r => List.length r = List.length B) (systematic_cov B F).
Proof.
  unfold systematic_cov, matmul_T. apply Forall_forall.
  intros r Hr. apply in_map_iff in Hr. destruct Hr as (a & <- & _).
  apply length_map.
Qed.

Lemma np_diag_length (d : list Q) : List.length (np_diag d) = List.length d.
Proof. unfold np_diag. rewrite length_map, length_seq. reflexivity. Qed.

Lemma np_diag_rows (d : list Q) :
  Forall (fun r => List.length r = List.length d) (np_diag d).
Proof.
  unfold np_diag. apply Forall_forall.
  intros r Hr. apply in_map_iff in Hr. destruct Hr as (i & <- & _).
  rewrite length_map, length_seq. reflexivity.
Qed.

Lemma total_var_split (w : list Q) (B : list vec3) (F : mat3) (d : list Q) :
  List.length B = List.length w ->
  List.length d = List.length w ->
  total_var w B F d == total_systematic w B F + idio_var w d.
Proof.
  intros HB Hd. unfold total_var, sigma, total_systematic, idio_var.
  apply quad_madd.
  - rewrite systematic_cov_length, np_diag_length. congruence.
  - rewrite <- HB. apply systematic_cov_rows.
  - rewrite <- Hd. apply np_diag_rows.
Qed.

Lemma weight_vector_length (weights : dict Q) :
  List.length (weight_vector weights) = List.length (dict_keys weights).
Proof. apply length_map. Qed.

Lemma residual_vector_length (weights residual_vars : dict Q) :
  List.length (residual_vector weights residual_vars)
  = List.length (dict_keys weights).
Proof. apply length_map. Qed.

Lemma loading_matrix_length (betas : dict Loadings) (tickers : list string)
    (B : list vec3) :
  loading_matrix betas tickers = Ret B -> List.length B = List.length tickers.
Proof. apply mapM_length. Qed.

Lemma portfolio_variance_ret (weights : dict Q) (betas : dict Loadings)
    (F : mat3) (residual_vars : dict Q) (B : list vec3) :
  loading_matrix betas (dict_keys weights) = Ret B ->
  0 < total_var (weight_vector weights) B F
        (residual_vector weights residual_vars) ->
  portfolio_variance weights betas F residual_vars
  = Ret (total_var (weight_vector weights) B F
           (residual_vector weights residual_vars)).
Proof.
  intros HB Hpos. unfold portfolio_variance. rewrite HB; simpl.
  destruct (Nat.eqb (List.length (dict_keys weights)) 0) eqn:E;
    [|reflexivity].
  exfalso. apply Nat.eqb_eq in E.
  unfold weight_vector in Hpos.
  destruct (dict_keys weights); [|discriminate].
  simpl in Hpos. revert Hpos. apply Qlt_irrefl.
Qed.

(** ** The four buckets add up to 100 *)

Lemma clamped_pct_nonneg (x tv : Q) : 0 <= clamped_pct x tv.
Proof. apply py_max_nonneg. Qed.








(** ** Scaling the weights *)

Lemma scale_weights_keys (c : Q) (weights : dict Q) :
  dict_keys (scale_weights c weights) = dict_keys weights.
Proof.
  unfold dict_keys, scale_weights. rewrite map_map.
  apply map_ext. intros [t x]. reflexivity.
Qed.

Lemma scale_weights_get (c : Q) (weights : dict Q) (t : string) :
  dict_get t (scale_weights c weights)
  = option_map (Qmult c) (dict_get t weights).
Proof.
  induction weights as [|[k x] ws IH]; simpl; [reflexivity|].
  destruct (String.eqb t k); [reflexivity | exact IH].
Qed.

Lemma weight_vector_scale (c : Q) (weights : dict Q) :
  weight_vector (scale_weights c weights) = vscale c (weight_vector weights).
Proof.
  unfold weight_vector, vscale. rewrite scale_weights_keys, map_map.
  apply map_ext_in. intros t Ht.
  apply dict_get_keys in Ht. destruct Ht as [x Hx].
  unfold dict_get_default. rewrite scale_weights_get, Hx. reflexivity.
Qed.

Lemma residual_vector_scale (c : Q) (weights residual_vars : dict Q) :
  residual_vector (scale_weights c weights) residual_vars
  = residual_vector weights residual_vars.
Proof. unfold residual_vector. rewrite scale_weights_keys. reflexivity. Qed.

Section Scaling.

Variables (c : Q) (w : list Q) (B : list vec3) (F : mat3) (d : list Q).
Hypothesis c_pos : 0 < c.

Let cc_pos : 0 < c * c.
Proof. nra. Qed.

Lemma total_var_scale :
  total_var (vscale c w) B F d == c * c * total_var w B F d.
Proof. apply quad_vscale. Qed.

Lemma total_systematic_scale :
  total_systematic (vscale c w) B F == c * c * total_systematic w B F.
Proof. apply quad_vscale. Qed.

Lemma idio_var_scale : idio_var (vscale c w) d == c * c * idio_var w d.
Proof. apply quad_vscale. Qed.

Lemma pure_contribution_scale (k : nat) :
  pure_contribution (vscale c w) B F k == c * c * pure_contribution w B F k.
Proof.
  unfold pure_contribution. cbv zeta.
  rewrite <- (py_max_scale (c * c)) by exact cc_pos.
  apply py_max_proper; [|reflexivity].
  rewrite (vmul_vscale_l c w (column B k)).
  rewrite dot_vscale_l, dot_vscale_r. ring.
Qed.

Lemma pure_sum_scale : pure_sum (vscale c w) B F == c * c * pure_sum w B F.
Proof. unfold pure_sum. rewrite !pure_contribution_scale. ring. Qed.

Lemma cross_residual_scale :
  cross_residual (vscale c w) B F == c * c * cross_residual w B F.
Proof.
  unfold cross_residual. rewrite total_systematic_scale, pure_sum_scale. ring.
Qed.

Lemma bucket_variance_scale (k : nat) :
  bucket_variance (vscale c w) B F k == c * c * bucket_variance w B F k.
Proof.
  unfold bucket_variance.
  assert (E : Qltb 0 (pure_sum (vscale c w) B F) = Qltb 0 (pure_sum w B F)).
  { pose proof pure_sum_scale as HS.
    case_ltb 0 (pure_sum w B F).
    - apply Qltb_lt. rewrite HS. nra.
    - apply Qltb_ge. rewrite HS. nra. }
  rewrite E. case_ltb 0 (pure_sum w B F).
  - rewrite cross_residual_scale, pure_contribution_scale, pure_sum_scale.
    field. split; lra.
  - apply pure_contribution_scale.
Qed.

Lemma clamped_pct_scale (x x' tv tv' : Q) :
  0 < tv -> x' == c * c * x -> tv' == c * c * tv ->
  clamped_pct x' tv' == clamped_pct x tv.
Proof.
  intros Htv Hx Ht. unfold clamped_pct.
  apply py_max_proper; [|reflexivity].
  rewrite Hx, Ht. field. split; lra.
Qed.

Lemma bucket_clamped_scale (b : bucket) :
  0 < total_var w B F d ->
  bucket_clamped (vscale c w) B F d b == bucket_clamped w B F d b.
Proof.
  intro Htv. unfold bucket_clamped.
  destruct b; apply clamped_pct_scale;
    auto using bucket_variance_scale, idio_var_scale, total_var_scale.
Qed.

Lemma clamped_total_scale :
  0 < total_var w B F d ->
  clamped_total (vscale c w) B F d == clamped_total w B F d.
Proof.
  intro Htv. unfold clamped_total.
  rewrite !bucket_clamped_scale by exact Htv. reflexivity.
Qed.

Lemma bucket_pct_scale (b : bucket) :
  0 < total_var w B F d ->
  bucket_pct (vscale c w) B F d b == bucket_pct w B F d b.
Proof.
  intro Htv. unfold bucket_pct.
  rewrite (Qltb_proper 0 0 (Qeq_refl 0) _ _ (clamped_total_scale Htv)).
  destruct (Qltb 0 (clamped_total w B F d)).
  - rewrite (bucket_clamped_scale b Htv), (clamped_total_scale Htv).
    reflexivity.
  - apply bucket_clamped_scale, Htv.
Qed.

End Scaling.

Lemma portfolio_variance_scale (c : Q) (weights : dict Q)
    (betas : dict Loadings) (F : mat3) (residual_vars : dict Q) (tv : Q) :
  portfolio_variance weights betas F residual_vars = Ret tv ->
  exists tv',
    portfolio_variance (scale_weights c weights) betas F residual_vars
    = Ret tv'
    /\ tv' == c * c * tv.
Proof.
  unfold portfolio_variance.
  rewrite scale_weights_keys, weight_vector_scale, residual_vector_scale.
  destruct (loading_matrix betas (dict_keys weights)) as [B|e]; simpl;
    [|discriminate].
  destruct (Nat.eqb _ 0); [discriminate|].
  intro H. injection H as <-.
  eexists. split; [reflexivity|]. apply quad_vscale.
Qed.

(** In exact arithmetic, for every positive [c], the call on the weights
    scaled by [c] returns the same four bucket percentages as the call on
    the original weights, and a [total_daily_var] that is [c * c] times the
    original.  The code computes in binary64, where the scaled products are
    rounded differently: this is a fact about the model only. *)
Lemma scale_invariance_exact (np_sqrt : Q -> Q) (c : Q) (weights : dict Q)
    (betas : dict Loadings) (F : mat3) (residual_vars : dict Q)
    (r : dict value) :
  0 < c ->
  decompose_portfolio_variance np_sqrt weights betas F residual_vars = Ret r ->
  exists r' v v',
    decompose_portfolio_variance np_sqrt (scale_weights c weights) betas F
      residual_vars = Ret r'
    /\ get_num r' "market_pct" = get_num r "market_pct"
    /\ get_num r' "smb_pct" = get_num r "smb_pct"
    /\ get_num r' "hml_pct" = get_num r "hml_pct"
    /\ get_num r' "idiosyncratic_pct" = get_num r "idiosyncratic_pct"
    /\ get_num r "total_daily_var" = Some v
    /\ get_num r' "total_daily_var" = Some v'
    /\ v' == c * c * v.
Proof.
  intros Hc Hr.
  destruct (decompose_ret_inv _ _ _ _ _ _ Hr) as [tv Htv].
  destruct (portfolio_variance_scale c _ _ _ _ _ Htv) as (tv' & Htv' & Heq).
  assert (Hcc : 0 < c * c) by nra.
  destruct (Qlt_le_dec 0 tv) as [Hlt|Hle].
  - assert (Hlt' : 0 < tv') by (rewrite Heq; nra).
    destruct (decompose_nondegenerate np_sqrt _ _ _ _ tv Htv Hlt)
      as (B & HB & Etv & Hd).
    destruct (decompose_nondegenerate np_sqrt _ _ _ _ tv' Htv' Hlt')
      as (B' & HB' & _ & Hd').
    rewrite scale_weights_keys in HB'.
    assert (B' = B) by congruence. subst B'.
    rewrite weight_vector_scale, residual_vector_scale in Hd'.
    rewrite Hd in Hr. injection Hr as <-.
    rewrite Etv in Hlt.
    do 3 eexists. split; [exact Hd'|].
    cbn.
    repeat split;
      try (f_equal; apply round2_proper; apply bucket_pct_scale; assumption).
    exact Heq.
  - assert (Hle' : tv' <= 0) by (rewrite Heq; nra).
    rewrite (decompose_degenerate np_sqrt _ _ _ _ tv Htv Hle) in Hr.
    injection Hr as <-.
    do 3 eexists.
    split; [exact (decompose_degenerate np_sqrt _ _ _ _ tv' Htv' Hle')|].
    cbn. repeat split. ring.
Qed.

(** ** Positive semi-definite factor covariance *)

Lemma dot_comm (u v : list Q) : dot u v == dot v u.
Proof.
  revert v; induction u as [|x u IH]; intros [|y v]; simpl; try reflexivity.
  rewrite IH. ring.
Qed.

Lemma dot_map_dot3 (v : vec3) (B : list vec3) (w : list Q) :
  dot (map (dot3 v) B) w == dot3 v (exposure w B).
Proof.
  unfold exposure, dot3; simpl.
  revert w; induction B as [|b B IH]; intros [|x w]; simpl; try ring.
  rewrite IH. unfold column; simpl. ring.
Qed.

Lemma zeros_map_dot3 (B : list vec3) (e : vec3) :
  vget e 0 == 0 -> vget e 1 == 0 -> vget e 2 == 0 ->
  veq (repeat 0 (List.length B)) (map (dot3 e) B).
Proof.
  intros H0 H1 H2.
  induction B as [|b B IHB]; simpl; constructor; [|exact IHB].
  unfold dot3. rewrite H0, H1, H2. ring.
Qed.

Lemma vadd_map_dot3 (x : Q) (a e e' : vec3) (B : list vec3) :
  vget e' 0 == x * vget a 0 + vget e 0 ->
  vget e' 1 == x * vget a 1 + vget e 1 ->
  vget e' 2 == x * vget a 2 + vget e 2 ->
  veq (vadd (vscale x (map (dot3 a) B)) (map (dot3 e) B)) (map (dot3 e') B).
Proof.
  intros H0 H1 H2.
  induction B as [|b B IHB]; simpl; constructor; [|exact IHB].
  unfold dot3. rewrite H0, H1, H2. ring.
Qed.

Lemma vecmat_matmul_T (w : list Q) (A B : list vec3) :
  veq (vecmat (List.length B) w (matmul_T A B))
      (map (dot3 (exposure w A)) B).
Proof.
  revert A; induction w as [|x w IH]; intros A.
  - simpl. apply zeros_map_dot3; reflexivity.
  - destruct A as [|a A].
    + simpl. apply zeros_map_dot3; reflexivity.
    + simpl. rewrite (IH A).
      apply vadd_map_dot3; unfold exposure, column; simpl; reflexivity.
Qed.

Lemma exposure_matmul_F (w : list Q) (B : list vec3) (F : mat3) (k : nat) :
  (k < 3)%nat ->
  dot w (column (matmul_F B F) k) == dot3 (exposure w B) (mcol F k).
Proof.
  intro Hk. unfold exposure, column, matmul_F. rewrite map_map.
  destruct k as [|[|[|k]]]; [| | |lia];
    (revert w; induction B as [|b B IH]; intros [|x w];
     try (unfold dot3; simpl; ring);
     simpl map; simpl dot; rewrite IH;
     unfold dot3; simpl vget; ring).
Qed.

Lemma total_systematic_quad3 (w : list Q) (B : list vec3) (F : mat3) :
  List.length B = List.length w ->
  total_systematic w B F == quad3 F (exposure w B).
Proof.
  intro HL. unfold total_systematic, quad, systematic_cov.
  rewrite <- HL.
  rewrite (vecmat_matmul_T w (matmul_F B F) B).
  rewrite dot_map_dot3.
  unfold quad3, dot3 at 1 3. simpl vget.
  unfold exposure at 1 2 3. simpl vget.
  rewrite !exposure_matmul_F by lia. reflexivity.
Qed.

Lemma dot_self_nonneg (u : list Q) : 0 <= dot u u.
Proof.
  induction u as [|x u IH]; simpl; [lra | nra].
Qed.







(** Without positive semi-definiteness the hypothesis of the sum theorem can
    fail: zero variances and a non-zero covariance give a positive total
    variance, no pure contribution and four buckets of 0. *)
Example buckets_all_zero_example :
  ~ positive_semidefinite CornerExamples.F_offdiag
  /\ exists r tv m s h i x,
       decompose_portfolio_variance sqrt_rational Examples.weights_one
         CornerExamples.betas_110 CornerExamples.F_offdiag Examples.resid_none
       = Ret r
       /\ get_num r "total_daily_var" = Some tv /\ tv == 2
       /\ get_num r "market_pct" = Some m /\ m == 0
       /\ get_num r "smb_pct" = Some s /\ s == 0
       /\ get_num r "hml_pct" = Some h /\ h == 0
       /\ get_num r "idiosyncratic_pct" = Some i /\ i == 0
       /\ get_num r "cross_factor_pct" = Some x /\ x == 100.
Proof.
  split.
  - intro H. specialize (H (1, -1 # 1, 0)). vm_compute in H. apply H.
    reflexivity.
  - do 7 eexists. repeat split; vm_compute; reflexivity.
Qed.

(** ** Examples of the degenerate case *)

Lemma dot_zero_r (u w : list Q) : Forall (fun x => x == 0) w -> dot u w == 0.
Proof.
  intro H; revert u; induction H as [|x w Hx _ IH]; intros [|y u]; simpl;
    try reflexivity.
  rewrite Hx, IH. ring.
Qed.

Lemma dot_zero_l (u w : list Q) : Forall (fun x => x == 0) u -> dot u w == 0.
Proof. intro H. rewrite dot_comm. apply dot_zero_r, H. Qed.

Lemma weight_vector_zero (weights : dict Q) :
  Forall (fun item => snd item == 0) weights ->
  Forall (fun x => x == 0) (weight_vector weights).
Proof.
  intro H. unfold weight_vector. apply Forall_forall.
  intros x Hx. apply in_map_iff in Hx. destruct Hx as (t & <- & _).
  unfold dict_get_default.
  induction H as [|[k v] ws Hv _ IH]; simpl; [reflexivity|].
  destruct (String.eqb t k); [exact Hv | exact IH].
Qed.

(** All weights zero: the fallback. *)
Lemma zero_weights_fallback (np_sqrt : Q -> Q) (weights : dict Q)
    (betas : dict Loadings) (F : mat3) (residual_vars : dict Q)
    (B : list vec3) :
  weights <> [] ->
  loading_matrix betas (dict_keys weights) = Ret B ->
  Forall (fun item => snd item == 0) weights ->
  decompose_portfolio_variance np_sqrt weights betas F residual_vars
  = Ret (_zero_result (dict_keys weights) weights).
Proof.
  intros Hne HB Hz.
  apply (decompose_degenerate np_sqrt weights betas F residual_vars
           (total_var (weight_vector weights) B F
              (residual_vector weights residual_vars))).
  - unfold portfolio_variance. rewrite HB; simpl.
    destruct weights; [contradiction | reflexivity].
  - unfold total_var, quad.
    rewrite (dot_zero_r _ _ (weight_vector_zero weights Hz)). lra.
Qed.

Lemma vadd_zero (u v : list Q) :
  Forall (fun x => x == 0) u -> Forall (fun x => x == 0) v ->
  Forall (fun x => x == 0) (vadd u v).
Proof.
  intro Hu; revert v; induction Hu as [|x u Hx _ IH]; intros v Hv; simpl;
    [constructor|].
  destruct Hv as [|y v Hy Hv]; constructor.
  - rewrite Hx, Hy. ring.
  - apply IH, Hv.
Qed.

Lemma vscale_zero (c : Q) (u : list Q) :
  Forall (fun x => x == 0) u -> Forall (fun x => x == 0) (vscale c u).
Proof.
  induction 1 as [|x u Hx _ IH]; simpl; constructor; [|exact IH].
  rewrite Hx. ring.
Qed.

Lemma vecmat_zero (n : nat) (w : list Q) (M : list (list Q)) :
  Forall (Forall (fun x => x == 0)) M ->
  Forall (fun x => x == 0) (vecmat n w M).
Proof.
  assert (Hz : Forall (fun x => x == 0) (repeat 0 n)).
  { induction n; simpl; constructor; [reflexivity | assumption]. }
  intro H; revert w; induction H as [|r M Hr _ IH]; intros [|x w]; simpl;
    try exact Hz.
  apply vadd_zero; [apply vscale_zero, Hr | apply IH].
Qed.

Lemma madd_zero (M N : list (list Q)) :
  Forall (Forall (fun x => x == 0)) M ->
  Forall (Forall (fun x => x == 0)) N ->
  Forall (Forall (fun x => x == 0)) (madd M N).
Proof.
  intro HM; revert N; induction HM as [|r M Hr _ IH]; intros N HN; simpl;
    [constructor|].
  destruct HN as [|s N Hs HN]; constructor.
  - apply vadd_zero; assumption.
  - apply IH, HN.
Qed.

Lemma systematic_cov_zero (B : list vec3) (F : mat3) :
  Forall zero_loading B ->
  Forall (Forall (fun x => x == 0)) (systematic_cov B F).
Proof.
  intro H. unfold systematic_cov, matmul_T.
  apply Forall_forall. intros r Hr.
  apply in_map_iff in Hr. destruct Hr as (a & <- & _).
  apply Forall_forall. intros x Hx.
  apply in_map_iff in Hx. destruct Hx as (b & <- & Hb).
  rewrite Forall_forall in H. destruct (H b Hb) as (H0 & H1 & H2).
  unfold dot3. rewrite H0, H1, H2. ring.
Qed.

Lemma nth_zero (d : list Q) (i : nat) :
  Forall (fun x => x == 0) d -> nth i d 0 == 0.
Proof.
  intro H; revert i; induction H as [|x d Hx _ IH]; intros [|i]; simpl;
    try reflexivity; auto.
Qed.

Lemma np_diag_zero (d : list Q) :
  Forall (fun x => x == 0) d ->
  Forall (Forall (fun x => x == 0)) (np_diag d).
Proof.
  intro H. unfold np_diag.
  apply Forall_forall. intros r Hr.
  apply in_map_iff in Hr. destruct Hr as (i & <- & _).
  apply Forall_forall. intros x Hx.
  apply in_map_iff in Hx. destruct Hx as (j & <- & _).
  destruct (Nat.eqb i j); [apply nth_zero, H | reflexivity].
Qed.

(** All loadings and all residual variances zero: the fallback. *)
Lemma zero_loadings_fallback (np_sqrt : Q -> Q) (weights : dict Q)
    (betas : dict Loadings) (F : mat3) (residual_vars : dict Q)
    (B : list vec3) :
  weights <> [] ->
  loading_matrix betas (dict_keys weights) = Ret B ->
  Forall zero_loading B ->
  Forall (fun x => x == 0) (residual_vector weights residual_vars) ->
  decompose_portfolio_variance np_sqrt weights betas F residual_vars
  = Ret (_zero_result (dict_keys weights) weights).
Proof.
  intros Hne HB HzB Hzd.
  apply (decompose_degenerate np_sqrt weights betas F residual_vars
           (total_var (weight_vector weights) B F
              (residual_vector weights residual_vars))).
  - unfold portfolio_variance. rewrite HB; simpl.
    destruct weights; [contradiction | reflexivity].
  - unfold total_var, quad, sigma.
    rewrite dot_zero_l; [lra|].
    apply vecmat_zero, madd_zero;
      [apply systematic_cov_zero, HzB | apply np_diag_zero, Hzd].
Qed.

(** ** The attribution tree *)

Import Flamegraph.

Lemma insert_desc_perm (x : Leaf) (l : list Leaf) :
  Permutation (x :: l) (insert_desc x l).
Proof.
  induction l as [|y l IH]; simpl.
  - apply Permutation_refl.
  - destruct (Qltb (leaf_value y) (leaf_value x)).
    + apply Permutation_refl.
    + eapply perm_trans; [apply perm_swap|]. apply perm_skip, IH.
Qed.

Lemma desc_trans (x y z : Leaf) : desc x y -> desc y z -> desc x z.
Proof. unfold desc. intros. lra. Qed.

Lemma insert_desc_sorted (x : Leaf) (l : list Leaf) :
  StronglySorted desc l -> StronglySorted desc (insert_desc x l).
Proof.
  induction 1 as [|y l Hs IH Hall]; simpl.
  - constructor; constructor.
  - case_ltb (leaf_value y) (leaf_value x).
    + constructor; [constructor; assumption|].
      constructor; [unfold desc; lra|].
      eapply Forall_impl; [|exact Hall].
      intros z Hz. unfold desc in *. lra.
    + constructor; [exact IH|].
      eapply Permutation_Forall; [apply insert_desc_perm|].
      constructor; [exact E | exact Hall].
Qed.

Lemma sorted_desc_acc_perm (l acc : list Leaf) :
  Permutation (acc ++ l) (fold_left (fun acc x => insert_desc x acc) l acc).
Proof.
  revert acc; induction l as [|x l IH]; intro acc; simpl.
  - rewrite app_nil_r. apply Permutation_refl.
  - eapply perm_trans; [|apply IH].
    eapply perm_trans; [apply Permutation_sym, Permutation_middle|].
    rewrite app_comm_cons. apply Permutation_app_tail, insert_desc_perm.
Qed.

Lemma sorted_desc_perm (l : list Leaf) : Permutation l (sorted_desc l).
Proof. exact (sorted_desc_acc_perm l []). Qed.

Lemma sorted_desc_acc_sorted (l acc : list Leaf) :
  StronglySorted desc acc ->
  StronglySorted desc (fold_left (fun acc x => insert_desc x acc) l acc).
Proof.
  revert acc; induction l as [|x l IH]; intros acc H; simpl.
  - exact H.
  - apply IH, insert_desc_sorted, H.
Qed.

Lemma sorted_desc_sorted (l : list Leaf) : StronglySorted desc (sorted_desc l).
Proof. apply sorted_desc_acc_sorted. constructor. Qed.

Lemma contrib_item_factor (b : bucket) (c : StockContribution) :
  contrib_item c (factor_key b) = Ret (contribution_to b c).
Proof. destruct b; reflexivity. Qed.

(** The loop of [make_factor_children] appends, in dict order, the leaf of
    every visible instrument; it raises on the first visible instrument
    without loadings. *)
Lemma visit_loop (betas : dict Loadings) (b : bucket)
    (sc : dict StockContribution) (acc : list Leaf) :
  foldM (visit betas (factor_key b)) sc acc
  = (leaves <- mapM (fun item =>
                       l <- dict_item betas (fst item) ;;
                       Ret (leaf_of b (fst item) (snd item) l))
                    (visible b sc) ;;
     Ret (acc ++ leaves)).
Proof.
  revert acc; induction sc as [|[t c] sc IH]; intro acc; simpl.
  - rewrite app_nil_r. reflexivity.
  - rewrite contrib_item_factor; simpl.
    destruct (Qltb (1 # 2) (contribution_to b c)); simpl.
    + destruct (dict_item betas t) as [l|e]; simpl; [|reflexivity].
      rewrite IH.
      destruct (mapM _ (visible b sc)) as [leaves|e]; simpl; [|reflexivity].
      rewrite <- app_assoc. reflexivity.
    + apply IH.
Qed.

Lemma mapM_Forall2 {A B} (f : A -> result B) (l : list A) (bs : list B) :
  mapM f l = Ret bs -> Forall2 (fun a b => f a = Ret b) l bs.
Proof.
  revert bs; induction l as [|a l IH]; simpl; intros bs H.
  - injection H as <-. constructor.
  - destruct (f a) as [b|e] eqn:E; simpl in H; [|discriminate].
    destruct (mapM f l) as [bs'|e]; simpl in H; [|discriminate].
    injection H as <-. constructor; [exact E | apply IH; reflexivity].
Qed.

Lemma make_factor_children_spec (betas : dict Loadings) (b : bucket)
    (sc : dict StockContribution) (children : list Leaf) :
  make_factor_children sc betas (factor_key b) = Ret children ->
  (exists leaves,
     Forall2
       (fun item leaf =>
          exists l,
            dict_get (fst item) betas = Some l
            /\ leaf = leaf_of b (fst item) (snd item) l)
       (visible b sc) leaves
     /\ Permutation leaves children)
  /\ StronglySorted desc children.
Proof.
  unfold make_factor_children. rewrite visit_loop.
  destruct (mapM _ (visible b sc)) as [leaves|e] eqn:E; simpl; [|discriminate].
  intro H. injection H as <-.
  split; [|apply sorted_desc_sorted].
  exists leaves. split; [|apply sorted_desc_perm].
  apply mapM_Forall2 in E.
  eapply Forall2_impl; [|exact E].
  intros [t c] leaf Hl. simpl in *. unfold dict_item in Hl.
  destruct (dict_get t betas) as [l|]; simpl in Hl; [|discriminate].
  injection Hl as <-. exists l. split; reflexivity.
Qed.

Lemma num_item_get (d : dict value) (k : string) (q : Q) :
  num_item d k = Ret q -> get_num d k = Some q.
Proof.
  unfold num_item, get_num.
  destruct (dict_get k d) as [[x|sc]|]; intro H; try discriminate.
  injection H as <-. reflexivity.
Qed.

Lemma stocks_item_get (d : dict value) (k : string)
    (sc : dict StockContribution) :
  stocks_item d k = Ret sc -> get_stocks d k = Some sc.
Proof.
  unfold stocks_item, get_stocks.
  destruct (dict_get k d) as [[x|sc']|]; intro H; try discriminate.
  injection H as <-. reflexivity.
Qed.

(** C10. In the tree built by [build_flamegraph_json] the root has four
    bucket nodes, in the order market, size, value, idiosyncratic.  The value
    of each node is that bucket's percentage in the decomposition.  Its
    children are the leaves of exactly those instruments whose contribution
    to that bucket exceeds 0.5, each leaf carrying the instrument's name, its
    contribution rounded to two decimals, its loadings and its weight, and
    they are sorted in descending order of value. *)
Theorem C10_flamegraph_buckets (decomposition : dict value)
    (betas : dict Loadings) (tree : Tree) :
  build_flamegraph_json decomposition betas = Ret tree ->
  exists sc n1 n2 n3 n4,
    get_stocks decomposition "stock_contributions" = Some sc
    /\ tree_children tree = [n1; n2; n3; n4]
    /\ presents decomposition betas sc Market n1
    /\ presents decomposition betas sc Smb n2
    /\ presents decomposition betas sc Hml n3
    /\ presents decomposition betas sc Idiosyncratic n4.
Proof.
  unfold build_flamegraph_json.
  destruct (stocks_item decomposition "stock_contributions") as [sc|e] eqn:Esc;
    simpl; [|discriminate].
  destruct (num_item decomposition "total_annual_vol") as [vol|e];
    simpl; [|discriminate].
  destruct (num_item decomposition "market_pct") as [v1|e] eqn:E1;
    simpl; [|discriminate].
  destruct (make_factor_children sc betas "market_contribution")
    as [c1|e] eqn:C1; simpl; [|discriminate].
  destruct (num_item decomposition "smb_pct") as [v2|e] eqn:E2;
    simpl; [|discriminate].
  destruct (make_factor_children sc betas "smb_contribution")
    as [c2|e] eqn:C2; simpl; [|discriminate].
  destruct (num_item decomposition "hml_pct") as [v3|e] eqn:E3;
    simpl; [|discriminate].
  destruct (make_factor_children sc betas "hml_contribution")
    as [c3|e] eqn:C3; simpl; [|discriminate].
  destruct (num_item decomposition "idiosyncratic_pct") as [v4|e] eqn:E4;
    simpl; [|discriminate].
  destruct (make_factor_children sc betas "idio_contribution")
    as [c4|e] eqn:C4; simpl; [|discriminate].
  intro H. injection H as <-.
  exists sc. do 4 eexists.
  split; [apply stocks_item_get, Esc|].
  split; [reflexivity|].
  unfold presents; simpl.
  repeat split;
    try (apply num_item_get; assumption);
    try (apply (make_factor_children_spec betas Market sc c1 C1));
    try (apply (make_factor_children_spec betas Smb sc c2 C2));
    try (apply (make_factor_children_spec betas Hml sc c3 C3));
    try (apply (make_factor_children_spec betas Idiosyncratic sc c4 C4)).
Qed.

(** The call returns a tree whenever the decomposition has its keys and
    every instrument has loadings. *)
Lemma make_factor_children_total (betas : dict Loadings) (b : bucket)
    (sc : dict StockContribution) :
  (forall t, In t (dict_keys sc) -> In t (dict_keys betas)) ->
  exists children, make_factor_children sc betas (factor_key b) = Ret children.
Proof.
  intro Hsub. unfold make_factor_children. rewrite visit_loop.
  assert (H : exists leaves,
             mapM (fun item =>
                     l <- dict_item betas (fst item) ;;
                     Ret (leaf_of b (fst item) (snd item) l))
                  (visible b sc) = Ret leaves).
  { unfold visible.
    induction sc as [|[t c] sc IH]; simpl; [eexists; reflexivity|].
    destruct IH as [leaves IH].
    { intros t' Ht'. apply Hsub. right. exact Ht'. }
    destruct (Qltb (1 # 2) (contribution_to b c)); [|eexists; exact IH].
    simpl.
    destruct (proj1 (dict_get_keys betas t)) as [l Hl].
    { apply Hsub. left. reflexivity. }
    unfold dict_item at 1. rewrite Hl; simpl. rewrite IH; simpl.
    eexists; reflexivity. }
  destruct H as [leaves H]. rewrite H; simpl. eexists; reflexivity.
Qed.

Lemma build_flamegraph_json_total (decomposition : dict value)
    (betas : dict Loadings) (sc : dict StockContribution)
    (vol v1 v2 v3 v4 : Q) :
  get_stocks decomposition "stock_contributions" = Some sc ->
  get_num decomposition "total_annual_vol" = Some vol ->
  get_num decomposition "market_pct" = Some v1 ->
  get_num decomposition "smb_pct" = Some v2 ->
  get_num decomposition "hml_pct" = Some v3 ->
  get_num decomposition "idiosyncratic_pct" = Some v4 ->
  (forall t, In t (dict_keys sc) -> In t (dict_keys betas)) ->
  exists tree, build_flamegraph_json decomposition betas = Ret tree.
Proof.
  unfold get_stocks, get_num, build_flamegraph_json, stocks_item, num_item.
  intros Hsc Hvol H1 H2 H3 H4 Hsub.
  destruct (dict_get "stock_contributions" decomposition) as [[?|sc']|];
    try discriminate. injection Hsc as ->.
  destruct (dict_get "total_annual_vol" decomposition) as [[?|?]|];
    try discriminate.
  destruct (dict_get "market_pct" decomposition) as [[?|?]|];
    try discriminate.
  destruct (dict_get "smb_pct" decomposition) as [[?|?]|];
    try discriminate.
  destruct (dict_get "hml_pct" decomposition) as [[?|?]|];
    try discriminate.
  destruct (dict_get "idiosyncratic_pct" decomposition) as [[?|?]|];
    try discriminate.
  destruct (make_factor_children_total betas Market sc Hsub) as [c1 C1].
  destruct (make_factor_children_total betas Smb sc Hsub) as [c2 C2].
  destruct (make_factor_children_total betas Hml sc Hsub) as [c3 C3].
  destruct (make_factor_children_total betas Idiosyncratic sc Hsub) as [c4 C4].
  cbn [factor_key] in C1, C2, C3, C4.
  cbn [bind]. rewrite C1. cbn [bind]. rewrite C2. cbn [bind].
  rewrite C3. cbn [bind]. rewrite C4. cbn [bind].
  eexists; reflexivity.
Qed.

Example flamegraph_example :
  exists tree n1 n2 n3 n4,
    build_flamegraph_json FlameExamples.decomposition FlameExamples.betas
    = Ret tree
    /\ tree_name tree = "Your Portfolio — 12.3% Annual Vol"%string
    /\ tree_children tree = [n1; n2; n3; n4]
    /\ map leaf_name (node_children n1) = ["B"; "D"; "A"]%string
    /\ map leaf_name (node_children n2) = []
    /\ map leaf_name (node_children n4) = ["D"; "A"]%string
    /\ node_value n1 = 60.
Proof.
  do 5 eexists. split; [vm_compute; reflexivity|].
  repeat split.
Qed.

Lemma C10_flamegraph_buckets_witness :
  exists tree,
    build_flamegraph_json FlameExamples.decomposition FlameExamples.betas
    = Ret tree
    /\ exists sc n1 n2 n3 n4,
    get_stocks FlameExamples.decomposition "stock_contributions" = Some sc
    /\ tree_children tree = [n1; n2; n3; n4]
    /\ presents FlameExamples.decomposition FlameExamples.betas sc Market n1
    /\ presents FlameExamples.decomposition FlameExamples.betas sc Smb n2
    /\ presents FlameExamples.decomposition FlameExamples.betas sc Hml n3
    /\ presents FlameExamples.decomposition FlameExamples.betas sc
         Idiosyncratic n4.
Proof.
  eexists. split; [vm_compute; reflexivity|].
  apply (C10_flamegraph_buckets FlameExamples.decomposition
           FlameExamples.betas).
  vm_compute; reflexivity.
Defined.

(** ** The regression *)

Import FactorPipeline.

Lemma insert_asc_perm (d : date) (l : list date) :
  Permutation (d :: l) (insert_asc d l).
Proof.
  induction l as [|e l IH]; simpl.
  - apply Permutation_refl.
  - destruct (d <=? e)%Z.
    + apply Permutation_refl.
    + eapply perm_trans; [apply perm_swap|]. apply perm_skip, IH.
Qed.

Lemma sort_values_perm (l : list date) : Permutation l (sort_values l).
Proof.
  induction l as [|d l IH]; simpl.
  - constructor.
  - eapply perm_trans; [apply perm_skip, IH | apply insert_asc_perm].
Qed.

Lemma sort_values_length (l : list date) :
  List.length (sort_values l) = List.length l.
Proof. symmetry. apply Permutation_length, sort_values_perm. Qed.

Lemma insert_asc_sorted (d : date) (l : list date) :
  StronglySorted Z.le l -> StronglySorted Z.le (insert_asc d l).
Proof.
  induction 1 as [|e l Hs IH Hall]; simpl.
  - constructor; constructor.
  - destruct (Z.leb_spec d e) as [Hle|Hgt].
    + constructor; [constructor; assumption|].
      constructor; [exact Hle|].
      eapply Forall_impl; [|exact Hall]. intros z Hz. simpl in Hz. lia.
    + constructor; [exact IH|].
      eapply Permutation_Forall; [apply insert_asc_perm|].
      constructor; [lia | exact Hall].
Qed.

Lemma sort_values_sorted (l : list date) : StronglySorted Z.le (sort_values l).
Proof.
  induction l as [|d l IH]; simpl.
  - constructor.
  - apply insert_asc_sorted, IH.
Qed.

Lemma skipn_incl {A} (n : nat) (l : list A) : incl (skipn n l) l.
Proof.
  intros x Hx. rewrite <- (firstn_skipn n l). apply in_or_app. right. exact Hx.
Qed.

Lemma slice_last_incl {A} (n : Z) (l : list A) : incl (slice_last n l) l.
Proof.
  unfold slice_last. intros x Hx.
  destruct (n <=? 0)%Z; eapply skipn_incl; exact Hx.
Qed.

Lemma slice_last_length {A} (n : Z) (l : list A) :
  (0 < n)%Z ->
  List.length (slice_last n l) = Nat.min (Z.to_nat n) (List.length l).
Proof.
  intro Hn. unfold slice_last.
  destruct (Z.leb_spec n 0) as [H|H]; [lia|].
  rewrite length_skipn. lia.
Qed.

Lemma slice_last_suffix {A} (n : Z) (l : list A) :
  exists older, l = older ++ slice_last n l.
Proof.
  unfold slice_last.
  destruct (n <=? 0)%Z; eexists; symmetry; apply firstn_skipn.
Qed.

Lemma sorted_split (older newer : list date) :
  StronglySorted Z.le (older ++ newer) ->
  forall a b, In a older -> In b newer -> (a <= b)%Z.
Proof.
  induction older as [|o older IH]; intros Hs a b Ha Hb; [destruct Ha|].
  simpl in Hs. inversion Hs as [|? ? Hs' Hall]; subst.
  destruct Ha as [<-|Ha].
  - rewrite Forall_forall in Hall. apply Hall, in_or_app. right. exact Hb.
  - apply IH; assumption.
Qed.

(** The dates [run_factor_regression] runs on: no more than [window] of
    them, and the most recent ones among the common dates. *)
Lemma window_dates_trailing (er : Series) (ff : Frame) (window : Z) :
  (0 < window)%Z ->
  let common := index_intersection (index (series_dropna er)) (index ff) in
  List.length (window_dates er ff window)
  = Nat.min (Z.to_nat window) (List.length common)
  /\ exists older,
       sort_values common = older ++ window_dates er ff window
       /\ forall a b, In a older -> In b (window_dates er ff window) ->
                      (a <= b)%Z.
Proof.
  intros Hw common. unfold window_dates. fold common.
  pose proof (sort_values_sorted common) as Hs.
  pose proof (sort_values_length common) as Hl.
  set (sorted := sort_values common) in *.
  destruct (Z.gtb_spec (Z.of_nat (List.length sorted)) window) as [Hgt|Hle].
  - split; [rewrite slice_last_length by exact Hw; lia|].
    destruct (slice_last_suffix window sorted) as [older E].
    exists older. split; [exact E|]. apply sorted_split.
    rewrite <- E. exact Hs.
  - split; [lia|].
    exists []. split; [reflexivity|]. intros a b [].
Qed.

Lemma loc_in_index {A} (s : list (date * A)) (d : date) :
  In d (index s) -> exists v, loc s d = Some v.
Proof.
  induction s as [|[d' v] s IH]; simpl; [tauto|].
  intros [H|H].
  - subst. rewrite Z.eqb_refl. eauto.
  - destruct (d =? d')%Z; eauto.
Qed.

Lemma loc_values_length {A} (s : list (date * A)) (labels : list date) :
  incl labels (index s) ->
  List.length (loc_values s labels) = List.length labels.
Proof.
  unfold loc_values.
  induction labels as [|d labels IH]; intro H; simpl; [reflexivity|].
  destruct (loc_in_index s d) as [v Hv]; [apply H; left; reflexivity|].
  rewrite Hv; simpl. f_equal. apply IH.
  intros x Hx. apply H. right. exact Hx.
Qed.

Lemma index_intersection_incl (a b : list date) :
  incl (index_intersection a b) a /\ incl (index_intersection a b) b.
Proof.
  unfold index_intersection.
  split; intros x Hx; apply nodup_In, filter_In in Hx; destruct Hx as [Ha Hb].
  - exact Ha.
  - apply existsb_exists in Hb. destruct Hb as (y & Hy & E).
    apply Z.eqb_eq in E. subst. exact Hy.
Qed.

Lemma window_dates_incl (er : Series) (ff : Frame) (window : Z) :
  incl (window_dates er ff window) (index (series_dropna er))
  /\ incl (window_dates er ff window) (index ff).
Proof.
  set (common := index_intersection (index (series_dropna er)) (index ff)).
  assert (H : incl (window_dates er ff window) common).
  { unfold window_dates. fold common.
    intros x Hx.
    apply (Permutation_in x (Permutation_sym (sort_values_perm common))).
    destruct (_ >? _)%Z; [apply (slice_last_incl window), Hx | exact Hx]. }
  destruct (index_intersection_incl (index (series_dropna er)) (index ff)).
  split; eapply incl_tran; eassumption.
Qed.

(** The number of usable observations: the common dates, capped at the
    trailing window. *)
Lemma usable_observations (er : Series) (ff : Frame) (window : Z) :
  (0 < window)%Z ->
  List.length (window_returns er ff window)
  = Nat.min (Z.to_nat window)
      (List.length
         (index_intersection (index (series_dropna er)) (index ff))).
Proof.
  intro Hw. unfold window_returns.
  rewrite loc_values_length by apply window_dates_incl.
  apply (window_dates_trailing er ff window Hw).
Qed.

Lemma window_dates_empty (er : Series) (ff : Frame) (window : Z) :
  index_intersection (index (series_dropna er)) (index ff) = [] ->
  window_dates er ff window = [].
Proof.
  intro H. unfold window_dates. rewrite H. simpl.
  destruct (0 >? window)%Z; [|reflexivity].
  unfold slice_last. destruct (window <=? 0)%Z; apply skipn_nil.
Qed.

Lemma fold_left_Qplus_shift (l : list Q) (a : Q) :
  fold_left Qplus l a == a + fold_left Qplus l 0.
Proof.
  revert a; induction l as [|x l IH]; intro a; simpl; [ring|].
  rewrite (IH (a + x)), (IH (0 + x)). ring.
Qed.

Lemma py_sum_cons (x : Q) (l : list Q) : py_sum (x :: l) == x + py_sum l.
Proof.
  unfold py_sum. simpl. rewrite fold_left_Qplus_shift. ring.
Qed.

(** Below [min_obs] observations the call returns [degenerate_result]. *)
Lemma run_factor_regression_insufficient
    (OLS_fit : list Q -> list (list (option Q)) -> result OLSResults)
    (t : string) (er : Series) (ff : Frame) (window min_obs : Z) :
  (Z.of_nat (List.length (window_returns er ff window)) < min_obs)%Z ->
  run_factor_regression OLS_fit t er ff window min_obs
  = Ret (degenerate_result t (window_returns er ff window)).
Proof.
  intro Hlt. unfold run_factor_regression, degenerate_result.
  destruct (Nat.eqb _ 0) eqn:E.
  - apply Nat.eqb_eq, length_zero_iff_nil in E.
    unfold window_returns. rewrite (window_dates_empty er ff window E).
    reflexivity.
  - fold (window_dates er ff window). fold (window_returns er ff window).
    apply Z.ltb_lt in Hlt. rewrite Hlt.
    destruct (window_returns er ff window); reflexivity.
Qed.

(** [np.var] is the population variance: the divisor is [N]. *)
Lemma np_var_population (y : list Q) : np_var y == population_variance y.
Proof.
  unfold np_var, np_mean, population_variance, variance_over.
  rewrite length_map. reflexivity.
Qed.

(** C5 (amended). For a positive window, whenever the number of usable
    observations (the dates with a valid excess return that are also dates
    of the factor table, capped at the [window] most recent of them) is
    below [min_obs], the result has zero betas and alpha, a zero R-squared
    and [sufficient_data = false], whatever the returns and whatever the OLS
    fit would do; its residual variance is the population variance (divisor
    N) of the returns at those dates, 0 when there are none, and it counts
    those returns. *)
Theorem C5_insufficient_observations
    (OLS_fit : list Q -> list (list (option Q)) -> result OLSResults)
    (t : string) (er : Series) (ff : Frame) (window min_obs : Z) :
  (0 < window)%Z ->
  let common := index_intersection (index (series_dropna er)) (index ff) in
  (Z.min (Z.of_nat (List.length common)) window < min_obs)%Z ->
  exists l older dates,
    run_factor_regression OLS_fit t er ff window min_obs = Ret l
    /\ sort_values common = older ++ dates
    /\ Z.of_nat (List.length dates)
       = Z.min (Z.of_nat (List.length common)) window
    /\ (forall a b, In a older -> In b dates -> (a <= b)%Z)
    /\ let y := loc_values (series_dropna er) dates in
       List.length y = List.length dates
       /\ ticker l = t
       /\ beta_mkt l = 0 /\ beta_smb l = 0 /\ beta_hml l = 0
       /\ alpha l = 0 /\ r_squared l = 0
       /\ sufficient_data l = false
       /\ n_observations l = List.length y
       /\ (y = [] -> residual_variance l = 0)
       /\ (y <> [] -> residual_variance l == population_variance y).
Proof.
  intros Hw common Hmin.
  pose proof (usable_observations er ff window Hw) as Hlen.
  fold common in Hlen.
  destruct (window_dates_trailing er ff window Hw) as [Hd (older & Hsplit & Hrecent)].
  fold common in Hd, Hsplit.
  assert (Hcount : Z.of_nat (List.length (window_dates er ff window))
                   = Z.min (Z.of_nat (List.length common)) window).
  { rewrite Hd. lia. }
  assert (Hlt : (Z.of_nat (List.length (window_returns er ff window))
                 < min_obs)%Z).
  { rewrite Hlen. lia. }
  exists (degenerate_result t (window_returns er ff window)), older,
         (window_dates er ff window).
  split; [exact (run_factor_regression_insufficient OLS_fit t er ff window
                   min_obs Hlt)|].
  split; [exact Hsplit|]. split; [exact Hcount|]. split; [exact Hrecent|].
  cbv zeta. fold (window_returns er ff window).
  split; [rewrite Hlen, Hd; reflexivity|].
  do 8 (split; [reflexivity|]).
  unfold degenerate_result; simpl.
  split.
  - intros ->. reflexivity.
  - destruct (window_returns er ff window) as [|v y] eqn:E;
      [intro H; contradiction|].
    intros _. apply np_var_population.
Qed.

Lemma C5_insufficient_observations_witness :
  (0 < 252)%Z
  /\ (Z.min
        (Z.of_nat
           (List.length
              (index_intersection
                 (index (series_dropna RegExamples.returns_short))
                 (index RegExamples.factors_short)))) 252 < 60)%Z
  /\ exists l older dates,
    run_factor_regression RegExamples.failing_fit "A"
      RegExamples.returns_short RegExamples.factors_short 252 60 = Ret l
    /\ sort_values
         (index_intersection
            (index (series_dropna RegExamples.returns_short))
            (index RegExamples.factors_short)) = older ++ dates
    /\ Z.of_nat (List.length dates)
       = Z.min
           (Z.of_nat
              (List.length
                 (index_intersection
                    (index (series_dropna RegExamples.returns_short))
                    (index RegExamples.factors_short)))) 252
    /\ (forall a b, In a older -> In b dates -> (a <= b)%Z)
    /\ let y := loc_values (series_dropna RegExamples.returns_short) dates in
       List.length y = List.length dates
       /\ ticker l = "A"%string
       /\ beta_mkt l = 0 /\ beta_smb l = 0 /\ beta_hml l = 0
       /\ alpha l = 0 /\ r_squared l = 0
       /\ sufficient_data l = false
       /\ n_observations l = List.length y
       /\ (y = [] -> residual_variance l = 0)
       /\ (y <> [] -> residual_variance l == population_variance y).
Proof.
  split; [reflexivity|].
  split; [vm_compute; reflexivity|].
  apply (C5_insufficient_observations RegExamples.failing_fit "A"
           RegExamples.returns_short RegExamples.factors_short 252 60).
  - reflexivity.
  - vm_compute; reflexivity.
Defined.

(** Two usable observations, 0 and 2: the reported residual variance is 1,
    their population variance; their sample variance (divisor N - 1) is
    2. *)
Lemma C5_counterexample :
  exists l,
    run_factor_regression RegExamples.failing_fit "A"
      RegExamples.returns_short RegExamples.factors_short 252 60 = Ret l
    /\ window_returns RegExamples.returns_short RegExamples.factors_short 252
       = [0; 2]
    /\ sufficient_data l = false
    /\ residual_variance l == 1
    /\ sample_variance [0; 2] == 2
    /\ ~ residual_variance l == sample_variance [0; 2].
Proof.
  eexists.
  split; [vm_compute; reflexivity|].
  split; [vm_compute; reflexivity|].
  split; [reflexivity|].
  split; [vm_compute; reflexivity|].
  split; [vm_compute; reflexivity|].
  vm_compute. discriminate.
Qed.

Example regression_short_example :
  window_returns RegExamples.returns_short RegExamples.factors_short 252
  = [0; 2]
  /\ np_var [0; 2] == 1.
Proof. split; vm_compute; reflexivity. Qed.

(** ** A failing OLS fit *)

(** C3 (amended). If the OLS fit raises after the minimum-observation check
    has passed, the call does not raise and returns [_empty_result]: the
    betas, alpha and R-squared are 0 and [sufficient_data] is false, and the
    residual variance and the number of observations are both reported
    as 0. *)
Theorem C3_fit_failure_empty_result
    (OLS_fit : list Q -> list (list (option Q)) -> result OLSResults)
    (t : string) (er : Series) (ff : Frame) (window min_obs : Z) (e : exn) :
  (min_obs <= Z.of_nat (List.length (window_returns er ff window)))%Z ->
  OLS_fit (window_returns er ff window)
          (add_constant (window_factors er ff window)) = Raise e ->
  run_factor_regression OLS_fit t er ff window min_obs
  = Ret {| ticker := t;
           beta_mkt := 0; beta_smb := 0; beta_hml := 0;
           alpha := 0; r_squared := 0;
           residual_variance := 0;
           n_observations := 0;
           sufficient_data := false |}.
Proof.
  intros Hge Hfit. unfold run_factor_regression.
  destruct (Nat.eqb _ 0); [reflexivity|].
  fold (window_dates er ff window).
  fold (window_returns er ff window). fold (window_factors er ff window).
  assert (E : (Z.of_nat (List.length (window_returns er ff window))
               <? min_obs)%Z = false) by (apply Z.ltb_ge; exact Hge).
  rewrite E, Hfit. reflexivity.
Qed.

Lemma C3_fit_failure_empty_result_witness :
  (60 <= Z.of_nat (List.length
           (window_returns RegExamples.returns_60 RegExamples.factors_60 252)))%Z
  /\ RegExamples.failing_fit
       (window_returns RegExamples.returns_60 RegExamples.factors_60 252)
       (add_constant
          (window_factors RegExamples.returns_60 RegExamples.factors_60 252))
     = Raise (ValueError "SVD did not converge")
  /\ run_factor_regression RegExamples.failing_fit "A" RegExamples.returns_60
       RegExamples.factors_60 252 60
     = Ret {| ticker := "A";
              beta_mkt := 0; beta_smb := 0; beta_hml := 0;
              alpha := 0; r_squared := 0;
              residual_variance := 0;
              n_observations := 0;
              sufficient_data := false |}.
Proof.
  split; [vm_compute; discriminate|].
  split; [reflexivity|].
  apply (C3_fit_failure_empty_result RegExamples.failing_fit "A"
           RegExamples.returns_60 RegExamples.factors_60 252 60
           (ValueError "SVD did not converge")).
  - vm_compute; discriminate.
  - reflexivity.
Defined.

(** Sixty usable observations alternating between 1 and 0 (variance 1/4)
    and a fit that raises: the claimed degenerate result would report the
    variance 1/4 and 60 observations; the call reports 0 and 0. *)
Lemma C3_counterexample :
  exists l,
    let y := window_returns RegExamples.returns_60 RegExamples.factors_60 252 in
    (60 <= Z.of_nat (List.length y))%Z
    /\ RegExamples.failing_fit y
         (add_constant
            (window_factors RegExamples.returns_60 RegExamples.factors_60 252))
       = Raise (ValueError "SVD did not converge")
    /\ run_factor_regression RegExamples.failing_fit "A"
         RegExamples.returns_60 RegExamples.factors_60 252 60 = Ret l
    /\ List.length y = 60%nat
    /\ np_var y == 1 # 4
    /\ n_observations l = 0%nat
    /\ residual_variance l == 0
    /\ ~ residual_variance l
         == residual_variance (degenerate_result "A" y)
    /\ n_observations l <> n_observations (degenerate_result "A" y).
Proof.
  eexists. cbv zeta.
  split; [vm_compute; discriminate|].
  split; [reflexivity|].
  split; [vm_compute; reflexivity|].
  split; [vm_compute; reflexivity|].
  split; [vm_compute; reflexivity|].
  split; [vm_compute; reflexivity|].
  split; [vm_compute; reflexivity|].
  split; vm_compute; discriminate.
Qed.

(** With enough observations and a fit that succeeds, the loadings are the
    fitted coefficients and the residual variance is the variance of the
    residuals with divisor N. *)
Lemma run_factor_regression_fitted
    (OLS_fit : list Q -> list (list (option Q)) -> result OLSResults)
    (t : string) (er : Series) (ff : Frame) (window min_obs : Z)
    (p0 p1 p2 p3 r2 : Q) (res : list Q) :
  (min_obs <= Z.of_nat (List.length (window_returns er ff window)))%Z ->
  window_returns er ff window <> [] ->
  OLS_fit (window_returns er ff window)
          (add_constant (window_factors er ff window))
  = Ret (mkOLS [p0; p1; p2; p3] r2 res) ->
  run_factor_regression OLS_fit t er ff window min_obs
  = Ret {| ticker := t;
           beta_mkt := p1; beta_smb := p2; beta_hml := p3;
           alpha := p0; r_squared := r2;
           residual_variance := np_var res;
           n_observations := List.length (window_returns er ff window);
           sufficient_data := true |}.
Proof.
  intros Hge Hne Hfit. unfold run_factor_regression.
  destruct (Nat.eqb _ 0) eqn:E.
  - exfalso. apply Hne.
    apply Nat.eqb_eq, length_zero_iff_nil in E.
    unfold window_returns. rewrite (window_dates_empty er ff window E).
    reflexivity.
  - fold (window_dates er ff window).
    fold (window_returns er ff window). fold (window_factors er ff window).
    assert (El : (Z.of_nat (List.length (window_returns er ff window))
                  <? min_obs)%Z = false) by (apply Z.ltb_ge; exact Hge).
    rewrite El, Hfit. reflexivity.
Qed.

(** ** The factor covariance *)

Import FactorCovariance.

Lemma jointly_valid_spec (ff : Frame) (d : date) (a b c : Q) :
  In (d, (a, b, c)) (jointly_valid ff)
  <-> exists rf, In (d, mkFF (Some a) (Some b) (Some c) rf) ff.
Proof.
  unfold jointly_valid. rewrite in_flat_map. split.
  - intros ([d' [m s h rf]] & Hin & H). simpl in H.
    destruct m, s, h; simpl in H; try contradiction.
    destruct H as [H|[]]. injection H as -> -> -> ->.
    exists rf. exact Hin.
  - intros (rf & Hin). eexists. split; [exact Hin|]. simpl. left. reflexivity.
Qed.

Lemma recent_trailing (ff : Frame) (window : Z) :
  (0 <= window)%Z ->
  recent ff window = lastn (Z.to_nat window) (jointly_valid ff).
Proof.
  intro Hw. unfold recent, df_tail, lastn.
  destruct (Z.eqb_spec window 0) as [->|Hne].
  - simpl. rewrite Nat.sub_0_r. symmetry. apply skipn_all.
  - unfold slice_last.
    destruct (Z.leb_spec window 0) as [H|H]; [lia | reflexivity].
Qed.

Lemma cov_sym (xs ys : list Q) :
  List.length xs = List.length ys -> cov xs ys == cov ys xs.
Proof.
  intro H. unfold cov. rewrite H.
  assert (E : forall u v : list Q, dot u v == dot v u).
  { induction u as [|x u IH]; intros [|y v]; simpl; try reflexivity.
    rewrite IH. ring. }
  rewrite E. reflexivity.
Qed.

Lemma df_cov_entries (rows : list vec3) (i j : nat) :
  (i < 3)%nat -> (j < 3)%nat ->
  mget (df_cov rows) i j = cov (column rows i) (column rows j).
Proof.
  intros Hi Hj.
  destruct i as [|[|[|i]]]; [| | |lia];
    (destruct j as [|[|[|j]]]; [| | |lia]); reflexivity.
Qed.

Lemma df_cov_symmetric (rows : list vec3) (i j : nat) :
  (i < 3)%nat -> (j < 3)%nat ->
  mget (df_cov rows) i j == mget (df_cov rows) j i.
Proof.
  intros Hi Hj. rewrite !df_cov_entries by assumption.
  apply cov_sym. unfold column. rewrite !length_map. reflexivity.
Qed.

(** *** The jointly valid rows *)

Lemma jointly_valid_rows (ff : Frame) :
  jointly_valid ff
  = map (fun item => (fst item, vec_of_row (snd item))) (valid_rows ff).
Proof.
  unfold jointly_valid, valid_rows, all_present, vec_of_row.
  induction ff as [|[d r] ff IH]; [reflexivity|].
  cbn [flat_map filter fst snd].
  destruct (ff_mkt_rf r) as [a|] eqn:E0, (ff_smb r) as [b|] eqn:E1,
           (ff_hml r) as [c|] eqn:E2;
    cbn [app map fst snd]; rewrite ?E0, ?E1, ?E2; rewrite IH; reflexivity.
Qed.

Lemma lastn_map {A B} (f : A -> B) (n : nat) (l : list A) :
  lastn n (map f l) = map f (lastn n l).
Proof. unfold lastn. rewrite length_map, skipn_map. reflexivity. Qed.

Lemma lastn_suffix {A} (n : nat) (l : list A) :
  exists older, l = older ++ lastn n l.
Proof.
  exists (firstn (List.length l - n) l). unfold lastn.
  symmetry. apply firstn_skipn.
Qed.

Lemma lastn_length {A} (n : nat) (l : list A) :
  List.length (lastn n l) = Nat.min n (List.length l).
Proof. unfold lastn. rewrite length_skipn. lia. Qed.

Lemma valid_rows_present (ff : Frame) :
  Forall (fun item => all_present (snd item) = true) (valid_rows ff).
Proof.
  apply Forall_forall. intros item H. apply filter_In in H. apply H.
Qed.

Lemma Forall_lastn {A} (P : A -> Prop) (n : nat) (l : list A) :
  Forall P l -> Forall P (lastn n l).
Proof.
  intro H. apply Forall_forall. intros x Hx.
  rewrite Forall_forall in H. apply H.
  unfold lastn in Hx. exact (skipn_incl _ _ x Hx).
Qed.

(** The column of factor [k] over rows that have their three factors. *)
Lemma column_of_rows (k : nat) (rows : Frame) :
  (k < 3)%nat ->
  Forall (fun item => all_present (snd item) = true) rows ->
  column (map (fun item => vec_of_row (snd item)) rows) k
  = factor_column k rows.
Proof.
  intros Hk H. unfold column, factor_column.
  induction H as [|[d r] rows Hr _ IH]; simpl; [reflexivity|].
  rewrite IH. unfold all_present, vec_of_row in *. simpl in Hr.
  destruct (ff_mkt_rf r) eqn:E0, (ff_smb r) eqn:E1, (ff_hml r) eqn:E2;
    try discriminate.
  destruct k as [|[|[|k]]]; [| | |lia]; simpl; rewrite ?E0, ?E1, ?E2;
    reflexivity.
Qed.

Lemma factor_column_length (k : nat) (rows : Frame) :
  (k < 3)%nat ->
  Forall (fun item => all_present (snd item) = true) rows ->
  List.length (factor_column k rows) = List.length rows.
Proof.
  intros Hk H. rewrite <- (column_of_rows k rows Hk H).
  unfold column. rewrite !length_map. reflexivity.
Qed.

(** *** The sample covariance *)

Lemma dot_deviations (a b : Q) (xs ys : list Q) :
  List.length xs = List.length ys ->
  dot (map (fun x => x - a) xs) (map (fun y => y - b) ys)
  == sum_of_products xs ys - a * py_sum ys - b * py_sum xs
     + inject_Z (Z.of_nat (List.length xs)) * (a * b).
Proof.
  unfold sum_of_products.
  revert ys; induction xs as [|x xs IH]; intros [|y ys] H; try discriminate.
  - unfold py_sum; simpl. ring.
  - simpl map. simpl combine. simpl dot. simpl List.length.
    rewrite !py_sum_cons, IH by (simpl in H; congruence).
    rewrite Nat2Z.inj_succ, <- Z.add_1_r, inject_Z_plus.
    simpl fst; simpl snd. change (inject_Z 1) with 1. ring.
Qed.

(** [DataFrame.cov] on two columns of the same length, not empty: the sum
    of the products of the deviations over [N - 1] is the sample covariance
    in its computational form. *)
Lemma cov_sample_covariance (xs ys : list Q) :
  List.length xs = List.length ys ->
  (0 < List.length xs)%nat ->
  cov xs ys == sample_covariance xs ys.
Proof.
  intros Hlen Hpos. unfold cov, sample_covariance, np_mean.
  rewrite (dot_deviations _ _ xs ys Hlen). rewrite <- Hlen.
  set (n := inject_Z (Z.of_nat (List.length xs))).
  assert (Hn : ~ n == 0).
  { unfold n. intro H0. unfold Qeq in H0. simpl in H0. lia. }
  unfold Qdiv.
  apply Qmult_comp; [|reflexivity].
  field. exact Hn.
Qed.

Lemma valid_rows_sorted (ff : Frame) :
  StronglySorted Z.le (index ff) ->
  StronglySorted Z.le (index (valid_rows ff)).
Proof.
  unfold valid_rows, index.
  induction ff as [|[d r] ff IH]; simpl; intro H; [constructor|].
  inversion H as [|? ? Hs Hall]; subst. specialize (IH Hs).
  destruct (all_present r); simpl; [|exact IH].
  constructor; [exact IH|].
  rewrite Forall_forall in *. intros x Hx. apply Hall.
  apply in_map_iff in Hx. destruct Hx as (item & <- & Hin).
  apply filter_In in Hin. apply in_map. apply Hin.
Qed.

(** C6. With a window that is not negative, [compute_factor_covariance]
    works on the last [window] rows, in table order, of the rows that have
    all three factors (the most recent ones when the table is in date
    order).  It raises, with a [ValueError], if and only if these are fewer
    than 60; otherwise it returns the 3x3 matrix whose entry (i, j) is the
    sample covariance (divisor N - 1) of factors i and j over these
    rows. *)
Theorem C6_factor_covariance (ff : Frame) (window : Z) :
  (0 <= window)%Z ->
  let kept := lastn (Z.to_nat window) (valid_rows ff) in
  let n := List.length kept in
  n = Nat.min (Z.to_nat window) (List.length (valid_rows ff))
  /\ Forall (fun item => all_present (snd item) = true) kept
  /\ (exists older,
        valid_rows ff = older ++ kept
        /\ (StronglySorted Z.le (index ff) ->
            forall a b, In a older -> In b kept -> (fst a <= fst b)%Z))
  /\ ((exists e, compute_factor_covariance ff window = Raise e)
      <-> (n < 60)%nat)
  /\ ((n < 60)%nat ->
      exists msg, compute_factor_covariance ff window = Raise (ValueError msg))
  /\ ((60 <= n)%nat ->
      exists M,
        compute_factor_covariance ff window = Ret M
        /\ forall i j, (i < 3)%nat -> (j < 3)%nat ->
             mget M i j
             == sample_covariance (factor_column i kept)
                                  (factor_column j kept)).
Proof.
  intros Hw kept n.
  assert (Hkept : Forall (fun item => all_present (snd item) = true) kept)
    by apply Forall_lastn, valid_rows_present.
  assert (Hrows : recent ff window
                  = map (fun item => (fst item, vec_of_row (snd item))) kept).
  { rewrite (recent_trailing ff window Hw), jointly_valid_rows.
    apply lastn_map. }
  assert (Hlen : List.length (recent ff window) = n).
  { rewrite Hrows. apply length_map. }
  split; [apply lastn_length|].
  split; [exact Hkept|].
  split.
  { destruct (lastn_suffix (Z.to_nat window) (valid_rows ff)) as [older E].
    fold kept in E. exists older. split; [exact E|].
    intros Hs a b Ha Hb. apply valid_rows_sorted in Hs.
    rewrite E in Hs. unfold index in Hs. rewrite map_app in Hs.
    apply (sorted_split _ _ Hs); apply in_map; assumption. }
  unfold compute_factor_covariance. rewrite Hlen.
  destruct (Nat.ltb_spec n 60) as [Hlt|Hge].
  - split; [split; [intros _; exact Hlt | intros _; eexists; reflexivity]|].
    split; [intros _; eexists; reflexivity|].
    intro H; lia.
  - split; [split; [intros [e H]; discriminate | intro H; lia]|].
    split; [intro H; lia|].
    intros _. eexists. split; [reflexivity|].
    intros i j Hi Hj. rewrite (df_cov_entries _ i j Hi Hj).
    rewrite Hrows, map_map. simpl snd.
    rewrite (column_of_rows i kept Hi Hkept), (column_of_rows j kept Hj Hkept).
    apply cov_sample_covariance.
    + rewrite !factor_column_length by assumption. reflexivity.
    + rewrite factor_column_length by assumption. fold n. lia.
Qed.

Lemma seq_dates_sorted (a n : nat) :
  StronglySorted Z.le (map Z.of_nat (seq a n)).
Proof.
  revert a; induction n as [|n IH]; intro a; simpl; constructor.
  - apply IH.
  - apply Forall_forall. intros x Hx.
    apply in_map_iff in Hx. destruct Hx as (i & <- & Hi).
    apply in_seq in Hi. lia.
Qed.

Lemma C6_factor_covariance_witness :
  (0 <= 252)%Z
  /\ StronglySorted Z.le (index CovExamples.factors_61)
  /\ let kept := lastn (Z.to_nat 252) (valid_rows CovExamples.factors_61) in
     let n := List.length kept in
     n = Nat.min (Z.to_nat 252)
           (List.length (valid_rows CovExamples.factors_61))
     /\ Forall (fun item => all_present (snd item) = true) kept
     /\ (exists older,
           valid_rows CovExamples.factors_61 = older ++ kept
           /\ (StronglySorted Z.le (index CovExamples.factors_61) ->
               forall a b, In a older -> In b kept -> (fst a <= fst b)%Z))
     /\ ((exists e,
            compute_factor_covariance CovExamples.factors_61 252 = Raise e)
         <-> (n < 60)%nat)
     /\ ((n < 60)%nat ->
         exists msg,
           compute_factor_covariance CovExamples.factors_61 252
           = Raise (ValueError msg))
     /\ ((60 <= n)%nat ->
         exists M,
           compute_factor_covariance CovExamples.factors_61 252 = Ret M
           /\ forall i j, (i < 3)%nat -> (j < 3)%nat ->
                mget M i j
                == sample_covariance (factor_column i kept)
                                     (factor_column j kept)).
Proof.
  split; [lia|].
  split.
  - unfold CovExamples.factors_61, index. rewrite map_map. simpl fst.
    apply seq_dates_sorted.
  - apply (C6_factor_covariance CovExamples.factors_61 252). lia.
Defined.

Example factor_covariance_example :
  List.length (recent CovExamples.factors_61 252) = 60%nat
  /\ (exists M, compute_factor_covariance CovExamples.factors_61 252 = Ret M
                /\ mget M 1 1 == 15 # 59 /\ mget M 2 2 == 0)
  /\ compute_factor_covariance CovExamples.factors_61 59
     = Raise (ValueError "Insufficient factor data: only 59 days available")
  /\ compute_factor_covariance CovExamples.factors_61 0
     = Raise (ValueError "Insufficient factor data: only 0 days available").
Proof.
  split; [vm_compute; reflexivity|].
  split; [eexists; repeat split; vm_compute; reflexivity|].
  split; vm_compute; reflexivity.
Qed.

(** In a frame sorted by date the trailing rows are the most recent ones. *)
Lemma jointly_valid_index_incl (ff : Frame) :
  incl (index (jointly_valid ff)) (index ff).
Proof.
  intros x Hx. unfold index in *.
  apply in_map_iff in Hx. destruct Hx as ([d [[a b] c]] & <- & Hin).
  apply jointly_valid_spec in Hin. destruct Hin as (rf & Hin).
  apply in_map_iff. eexists. split; [|exact Hin]. reflexivity.
Qed.

Lemma jointly_valid_sorted (ff : Frame) :
  StronglySorted Z.le (index ff) ->
  StronglySorted Z.le (index (jointly_valid ff)).
Proof.
  induction ff as [|[d r] ff IH]; simpl; intro H; [constructor|].
  inversion H as [|? ? Hs Hall]; subst.
  specialize (IH Hs).
  destruct (ff_mkt_rf r), (ff_smb r), (ff_hml r); simpl; try exact IH.
  constructor; [exact IH|].
  rewrite Forall_forall in *. intros x Hx.
  apply Hall, jointly_valid_index_incl, Hx.
Qed.

Lemma recent_most_recent (ff : Frame) (window : Z) :
  StronglySorted Z.le (index ff) ->
  exists older,
    (window <> 0%Z -> jointly_valid ff = older ++ recent ff window)
    /\ forall a b, In a older -> In b (recent ff window) ->
                   (fst a <= fst b)%Z.
Proof.
  intro Hs. apply jointly_valid_sorted in Hs.
  unfold recent, df_tail.
  destruct (Z.eqb_spec window 0) as [->|Hne].
  - exists []. split; [intro H; contradiction | intros a b []].
  - destruct (slice_last_suffix window (jointly_valid ff)) as [older E].
    exists older. split; [intros _; exact E|].
    intros a b Ha Hb. rewrite E in Hs. unfold index in Hs.
    rewrite map_app in Hs.
    apply (sorted_split _ _ Hs); apply in_map; assumption.
Qed.

(** * Further properties of the decomposition *)

(** ** Range of the returned percentages *)

Lemma bucket_clamped_nonneg (w : list Q) (B : list vec3) (F : mat3)
    (d : list Q) (b : bucket) :
  0 <= bucket_clamped w B F d b.
Proof. destruct b; apply clamped_pct_nonneg. Qed.

Lemma bucket_clamped_le_total (w : list Q) (B : list vec3) (F : mat3)
    (d : list Q) (b : bucket) :
  bucket_clamped w B F d b <= clamped_total w B F d.
Proof.
  unfold clamped_total.
  pose proof (bucket_clamped_nonneg w B F d Market).
  pose proof (bucket_clamped_nonneg w B F d Smb).
  pose proof (bucket_clamped_nonneg w B F d Hml).
  pose proof (bucket_clamped_nonneg w B F d Idiosyncratic).
  destruct b; lra.
Qed.

Lemma bucket_pct_range (w : list Q) (B : list vec3) (F : mat3) (d : list Q)
    (b : bucket) :
  0 <= bucket_pct w B F d b /\ bucket_pct w B F d b <= 100.
Proof.
  unfold bucket_pct.
  pose proof (bucket_clamped_nonneg w B F d b) as Hn.
  pose proof (bucket_clamped_le_total w B F d b) as Hle.
  case_ltb 0 (clamped_total w B F d).
  - split.
    + apply Qmult_le_0_compat; [|lra].
      apply Qle_shift_div_l; [exact E | lra].
    + assert (H1 : bucket_clamped w B F d b / clamped_total w B F d <= 1).
      { apply Qle_shift_div_r; [exact E | lra]. }
      lra.
  - lra.
Qed.

Lemma round2_range (x : Q) : 0 <= x -> x <= 100 -> 0 <= round2 x <= 100.
Proof.
  intros Hlo Hhi. unfold round2.
  pose proof (round_half_even_bounds (x * 100)) as [Hl Hh].
  set (z := round_half_even (x * 100)) in *.
  assert (Hz0 : (0 <= z)%Z).
  { assert (H : (-1 < z)%Z); [|lia].
    rewrite Zlt_Qlt. change (inject_Z (-1)) with (-1 # 1). lra. }
  assert (Hz1 : (z <= 10000)%Z).
  { assert (H : (z < 10001)%Z); [|lia].
    rewrite Zlt_Qlt. change (inject_Z 10001) with (10001 # 1). lra. }
  rewrite Zle_Qle in Hz0, Hz1.
  change (inject_Z 0) with 0 in Hz0.
  change (inject_Z 10000) with (10000 # 1) in Hz1.
  assert (E : inject_Z z / 100 == inject_Z z * (1 # 100)) by field.
  rewrite E. lra.
Qed.

(** X1. For inputs of ordinary size, each of the four returned bucket
    percentages lies between 0 and 100, on the fallback path too. *)
Theorem X1_buckets_in_range (np_sqrt : Q -> Q) (weights : dict Q)
    (betas : dict Loadings) (F : mat3) (residual_vars : dict Q)
    (r : dict value) (b : bucket) :
  ordinary_inputs weights betas F residual_vars = true ->
  decompose_portfolio_variance np_sqrt weights betas F residual_vars = Ret r ->
  exists v, get_num r (Flamegraph.pct_key b) = Some v /\ 0 <= v /\ v <= 100.
Proof.
  intros _ Hr.
  destruct (decompose_ret_inv _ _ _ _ _ _ Hr) as [tv Htv].
  destruct (Qlt_le_dec 0 tv) as [Hlt|Hle].
  - destruct (decompose_nondegenerate np_sqrt _ _ _ _ tv Htv Hlt)
      as (B & _ & _ & Hd).
    rewrite Hd in Hr. injection Hr as <-.
    destruct b; eexists; (split; [reflexivity|]);
      apply round2_range; apply bucket_pct_range.
  - rewrite (decompose_degenerate np_sqrt _ _ _ _ tv Htv Hle) in Hr.
    injection Hr as <-.
    destruct b; exists 25; (split; [reflexivity|]); split; lra.
Qed.

Lemma X1_buckets_in_range_witness :
  exists r,
    ordinary_inputs ExtraExamples.weights_A_only Examples.betas_AB
      Examples.F_identity Examples.resid_AB = true
    /\ decompose_portfolio_variance sqrt_rational ExtraExamples.weights_A_only
         Examples.betas_AB Examples.F_identity Examples.resid_AB = Ret r
    /\ exists v,
         get_num r (Flamegraph.pct_key Market) = Some v /\ 0 <= v /\ v <= 100.
Proof.
  eexists. split; [vm_compute; reflexivity|].
  split; [vm_compute; reflexivity|].
  apply (X1_buckets_in_range sqrt_rational ExtraExamples.weights_A_only
           Examples.betas_AB Examples.F_identity Examples.resid_AB).
  - vm_compute; reflexivity.
  - vm_compute; reflexivity.
Defined.

(** ** When the decomposition raises *)

Lemma loading_matrix_cons (betas : dict Loadings) (t : string)
    (ts : list string) :
  loading_matrix betas (t :: ts)
  = match dict_get t betas with
    | None => Raise (KeyError t)
    | Some l =>
        match loading_matrix betas ts with
        | Ret B => Ret ((beta_mkt l, beta_smb l, beta_hml l) :: B)
        | Raise e => Raise e
        end
    end.
Proof.
  unfold loading_matrix; simpl. unfold dict_item.
  destruct (dict_get t betas); reflexivity.
Qed.

Lemma loading_matrix_outcome (betas : dict Loadings) (tickers : list string) :
  match first_missing betas tickers with
  | Some t => loading_matrix betas tickers = Raise (KeyError t)
  | None => exists B, loading_matrix betas tickers = Ret B
  end.
Proof.
  induction tickers as [|t ts IH].
  - eexists; reflexivity.
  - rewrite loading_matrix_cons. unfold first_missing in *. simpl.
    destruct (dict_get t betas) as [l|]; [|reflexivity].
    destruct (find _ ts) as [t'|].
    + rewrite IH. reflexivity.
    + destruct IH as [B ->]. eexists; reflexivity.
Qed.

Lemma loading_matrix_covers (betas : dict Loadings) (tickers : list string)
    (B : list vec3) :
  loading_matrix betas tickers = Ret B ->
  forall t, In t tickers -> In t (dict_keys betas).
Proof.
  revert B; induction tickers as [|t ts IH]; intros B H x Hx; [destruct Hx|].
  rewrite loading_matrix_cons in H.
  destruct (dict_get t betas) as [l|] eqn:E; [|discriminate].
  destruct (loading_matrix betas ts) as [B'|e] eqn:E'; [|discriminate].
  destruct Hx as [<-|Hx].
  - apply dict_get_keys. eauto.
  - apply (IH B' eq_refl x Hx).
Qed.

(** X2. The decomposition raises [KeyError] for the first ticker of
    [weights] that has no entry in [betas]; with loadings for every ticker
    it raises [ValueError] when [weights] is empty and returns a result
    otherwise. *)
Theorem X2_decompose_outcome (np_sqrt : Q -> Q) (weights : dict Q)
    (betas : dict Loadings) (F : mat3) (residual_vars : dict Q) :
  match first_missing betas (dict_keys weights) with
  | Some t =>
      decompose_portfolio_variance np_sqrt weights betas F residual_vars
      = Raise (KeyError t)
  | None =>
      match weights with
      | [] =>
          decompose_portfolio_variance np_sqrt weights betas F residual_vars
          = Raise (ValueError "matmul: mismatch in core dimension")
      | _ :: _ =>
          exists r,
            decompose_portfolio_variance np_sqrt weights betas F residual_vars
            = Ret r
      end
  end.
Proof.
  pose proof (loading_matrix_outcome betas (dict_keys weights)) as H.
  destruct (first_missing betas (dict_keys weights)) as [t|].
  - apply decompose_raises. unfold portfolio_variance. rewrite H. reflexivity.
  - destruct H as [B HB]. destruct weights as [|[t x] ws].
    + reflexivity.
    + set (weights := (t, x) :: ws) in *.
      assert (Hpv : portfolio_variance weights betas F residual_vars
                    = Ret (total_var (weight_vector weights) B F
                             (residual_vector weights residual_vars))).
      { unfold portfolio_variance. rewrite HB. reflexivity. }
      destruct (Qlt_le_dec 0 (total_var (weight_vector weights) B F
                                (residual_vector weights residual_vars)))
        as [Hlt|Hle].
      * destruct (decompose_nondegenerate np_sqrt _ _ _ _ _ Hpv Hlt)
          as (B' & _ & _ & Hd).
        eexists; exact Hd.
      * eexists. exact (decompose_degenerate np_sqrt _ _ _ _ _ Hpv Hle).
Qed.

(** ** The per-instrument contributions *)

Lemma find_app {A} (p : A -> bool) (l1 l2 : list A) :
  find p (l1 ++ l2)
  = match find p l1 with Some x => Some x | None => find p l2 end.
Proof.
  induction l1 as [|a l1 IH]; simpl; [reflexivity|].
  destruct (p a); [reflexivity | exact IH].
Qed.

(** A loop [for i, t in items: d[t] = f(i)] leaves under each key the value
    of its last occurrence. *)
Lemma dict_get_indexed_loop {V} (f : nat -> V) (l : list (nat * string))
    (acc : dict V) (k : string) :
  dict_get k (fold_left (fun acc p => dict_set acc (snd p) (f (fst p))) l acc)
  = match find (fun p => String.eqb k (snd p)) (rev l) with
    | Some p => Some (f (fst p))
    | None => dict_get k acc
    end.
Proof.
  revert acc; induction l as [|[i t] l IH]; intro acc; simpl; [reflexivity|].
  rewrite IH, find_app. simpl.
  destruct (find _ (rev l)); [reflexivity|].
  destruct (String.eqb k t) eqn:E.
  - apply String.eqb_eq in E; subst. apply dict_get_set_same.
  - apply String.eqb_neq in E. apply dict_get_set_other. exact E.
Qed.

Lemma in_enumerate {A} (l : list A) (i : nat) (a : A) :
  In (i, a) (enumerate l) <-> nth_error l i = Some a.
Proof.
  unfold enumerate.
  assert (H : forall s, In (i, a) (combine (seq s (List.length l)) l)
                        <-> (s <= i)%nat /\ nth_error l (i - s) = Some a).
  { induction l as [|b l IH]; intro s; simpl.
    - split; [tauto|]. intros [_ H]. destruct (i - s)%nat; discriminate.
    - rewrite IH. split.
      + intros [H|[Hle H]].
        * injection H as -> ->. rewrite Nat.sub_diag. split; [lia|reflexivity].
        * split; [lia|]. replace (i - s)%nat with (S (i - S s)) by lia.
          exact H.
      + intros [Hle H]. destruct (Nat.eq_dec s i) as [->|Hne].
        * rewrite Nat.sub_diag in H. injection H as ->. left; reflexivity.
        * right. split; [lia|].
          replace (i - s)%nat with (S (i - S s)) in H by lia. exact H. }
  rewrite H, Nat.sub_0_r. split; [tauto | intro; split; [lia | assumption]].
Qed.

Lemma compute_stock_contributions_get (tickers : list string) (w : list Q)
    (B : list vec3) (F : mat3) (D : list (list Q)) (tv : Q) (t : string) :
  let entry i :=
    let w_i := nth i w 0 in
    let B_i := nth i B (0, 0, 0) in
    {| market_contribution :=
         contribution_pct tv
           (w_i * vget B_i 0 * dot w (column B 0) * mget F 0 0);
       smb_contribution :=
         contribution_pct tv
           (w_i * vget B_i 1 * dot w (column B 1) * mget F 1 1);
       hml_contribution :=
         contribution_pct tv
           (w_i * vget B_i 2 * dot w (column B 2) * mget F 2 2);
       idio_contribution :=
         contribution_pct tv (w_i * w_i * nth i (nth i D []) 0);
       weight := w_i |} in
  (~ In t tickers ->
   dict_get t (_compute_stock_contributions tickers w B F D tv) = None)
  /\ (In t tickers ->
      exists i,
        nth_error tickers i = Some t
        /\ dict_get t (_compute_stock_contributions tickers w B F D tv)
           = Some (entry i)).
Proof.
  intro entry.
  assert (E : _compute_stock_contributions tickers w B F D tv
              = fold_left (fun acc p => dict_set acc (snd p) (entry (fst p)))
                          (enumerate tickers) []).
  { unfold _compute_stock_contributions.
    generalize (@nil (string * StockContribution)).
    induction (enumerate tickers) as [|[i x] l IH]; intro acc; simpl;
      [reflexivity | apply IH]. }
  rewrite E, dict_get_indexed_loop.
  destruct (find _ (rev (enumerate tickers))) as [[i x]|] eqn:Ef.
  - apply find_some in Ef. destruct Ef as [Hin Heq]. simpl in Heq.
    apply String.eqb_eq in Heq. subst x.
    apply in_rev, in_enumerate in Hin.
    split.
    + intro Hn. exfalso. apply Hn. eapply nth_error_In. exact Hin.
    + intros _. exists i. split; [exact Hin | reflexivity].
  - split; [reflexivity|].
    intro Hin. exfalso.
    apply In_nth_error in Hin. destruct Hin as [i Hi].
    apply in_enumerate, in_rev in Hi.
    pose proof (find_none _ _ Ef _ Hi) as Hf. simpl in Hf.
    rewrite String.eqb_refl in Hf. discriminate.
Qed.

Lemma nth_map_key {A} (g : string -> A) (keys : list string) (i : nat)
    (t : string) (default : A) :
  nth_error keys i = Some t -> nth i (map g keys) default = g t.
Proof.
  revert i; induction keys as [|k keys IH]; intros [|i] H; simpl in *;
    try discriminate.
  - injection H as ->. reflexivity.
  - apply IH, H.
Qed.

Lemma nth_loading (betas : dict Loadings) (tickers : list string)
    (B : list vec3) (i : nat) (t : string) :
  loading_matrix betas tickers = Ret B ->
  nth_error tickers i = Some t ->
  exists l,
    dict_get t betas = Some l
    /\ nth i B (0, 0, 0) = (beta_mkt l, beta_smb l, beta_hml l).
Proof.
  revert B i; induction tickers as [|k ts IH]; intros B i HB Hi.
  - destruct i; discriminate.
  - rewrite loading_matrix_cons in HB.
    destruct (dict_get k betas) as [l|] eqn:E; [|discriminate].
    destruct (loading_matrix betas ts) as [B'|e] eqn:E'; [|discriminate].
    injection HB as <-.
    destruct i as [|i]; simpl in *.
    + injection Hi as <-. exists l. split; [exact E | reflexivity].
    + apply (IH B' i eq_refl Hi).
Qed.

Lemma nth_np_diag (d : list Q) (i : nat) :
  (i < List.length d)%nat -> nth i (nth i (np_diag d) []) 0 = nth i d 0.
Proof.
  intro Hi. unfold np_diag.
  set (row := fun i0 : nat =>
                map (fun j => if Nat.eqb i0 j then nth i0 d 0 else 0)
                    (seq 0 (List.length d))).
  rewrite (nth_indep _ [] (row 0%nat))
    by (rewrite length_map, length_seq; exact Hi).
  rewrite (map_nth row), seq_nth by exact Hi. simpl. unfold row.
  set (cell := fun j : nat => if Nat.eqb i j then nth i d 0 else 0).
  rewrite (nth_indep _ 0 (cell 0%nat))
    by (rewrite length_map, length_seq; exact Hi).
  rewrite (map_nth cell), seq_nth by exact Hi. simpl. unfold cell.
  rewrite Nat.eqb_refl. reflexivity.
Qed.

(** In the non-degenerate case the entry of a ticker is computed from its
    own weight, loadings and residual variance. *)
Lemma nondegenerate_stock_entries (np_sqrt : Q -> Q) (weights : dict Q)
    (betas : dict Loadings) (F : mat3) (residual_vars : dict Q) (tv : Q) :
  portfolio_variance weights betas F residual_vars = Ret tv ->
  0 < tv ->
  exists r B sc,
    decompose_portfolio_variance np_sqrt weights betas F residual_vars = Ret r
    /\ loading_matrix betas (dict_keys weights) = Ret B
    /\ get_stocks r "stock_contributions" = Some sc
    /\ forall t,
         match dict_get t weights with
         | None => dict_get t sc = None
         | Some x =>
             exists l,
               dict_get t betas = Some l
               /\ dict_get t sc
                  = Some (ticker_contribution (weight_vector weights) B F tv
                            x l (dict_get_default residual_vars t 0))
         end.
Proof.
  intros Htv Hpos.
  destruct (decompose_nondegenerate np_sqrt _ _ _ _ tv Htv Hpos)
    as (B & HB & _ & Hd).
  do 3 eexists. split; [exact Hd|]. split; [exact HB|].
  split; [reflexivity|].
  intro t.
  destruct (compute_stock_contributions_get (dict_keys weights)
              (weight_vector weights) B F
              (np_diag (residual_vector weights residual_vars)) tv t)
    as [Hnone Hsome].
  destruct (dict_get t weights) as [x|] eqn:Ex.
  - destruct Hsome as (i & Hi & Hget).
    { apply dict_get_keys. eauto. }
    destruct (nth_loading betas _ B i t HB Hi) as (l & Hl & HBi).
    exists l. split; [exact Hl|].
    rewrite Hget. unfold ticker_contribution.
    assert (Hw : nth i (weight_vector weights) 0 = x).
    { unfold weight_vector.
      rewrite (nth_map_key _ _ i t 0 Hi).
      unfold dict_get_default. rewrite Ex. reflexivity. }
    assert (Hlen : (i < List.length (residual_vector weights residual_vars))%nat).
    { rewrite residual_vector_length. apply nth_error_Some. congruence. }
    rewrite (nth_np_diag _ i Hlen).
    unfold residual_vector at 1. rewrite (nth_map_key _ _ i t 0 Hi).
    rewrite Hw, HBi. reflexivity.
  - apply Hnone. intro Hin. apply dict_get_keys in Hin.
    destruct Hin as [v Hv]. congruence.
Qed.

Lemma contribution_pct_nonneg (tv x : Q) : 0 <= contribution_pct tv x.
Proof.
  unfold contribution_pct. destruct (Qltb 0 tv); [apply py_max_nonneg | lra].
Qed.

Lemma contribution_pct_zero (tv x : Q) : x == 0 -> contribution_pct tv x == 0.
Proof.
  intro H. unfold contribution_pct.
  destruct (Qltb 0 tv); [|reflexivity].
  apply py_max_nonpos. rewrite H. unfold Qdiv. rewrite !Qmult_0_l. lra.
Qed.

Lemma ticker_contribution_facts (w : list Q) (B : list vec3) (F : mat3)
    (tv x : Q) (l : Loadings) (rv : Q) :
  entry_facts x (ticker_contribution w B F tv x l rv).
Proof.
  unfold entry_facts, ticker_contribution; simpl.
  split; [reflexivity|].
  do 4 (split; [apply contribution_pct_nonneg|]).
  intro Hx.
  repeat split; apply contribution_pct_zero; rewrite Hx; ring.
Qed.

Lemma stock_entries (np_sqrt : Q -> Q) (weights : dict Q)
    (betas : dict Loadings) (F : mat3) (residual_vars : dict Q)
    (r : dict value) :
  decompose_portfolio_variance np_sqrt weights betas F residual_vars = Ret r ->
  exists sc,
    get_stocks r "stock_contributions" = Some sc
    /\ forall t,
         match dict_get t weights with
         | None => dict_get t sc = None
         | Some x => exists c, dict_get t sc = Some c /\ entry_facts x c
         end.
Proof.
  intro Hr.
  destruct (decompose_ret_inv _ _ _ _ _ _ Hr) as [tv Htv].
  destruct (Qlt_le_dec 0 tv) as [Hlt|Hle].
  - destruct (nondegenerate_stock_entries np_sqrt _ _ _ _ tv Htv Hlt)
      as (r' & B & sc & Hr' & _ & Hsc & Hall).
    assert (r' = r) by congruence. subst r'.
    exists sc. split; [exact Hsc|].
    intro t. specialize (Hall t).
    destruct (dict_get t weights) as [x|]; [|exact Hall].
    destruct Hall as (l & _ & Hget).
    eexists. split; [exact Hget | apply ticker_contribution_facts].
  - rewrite (decompose_degenerate np_sqrt _ _ _ _ tv Htv Hle) in Hr.
    injection Hr as <-.
    eexists. split; [reflexivity|].
    intro t.
    rewrite (zero_result_stocks weights t _ eq_refl).
    destruct (dict_get t weights) as [x|]; simpl; [|reflexivity].
    eexists. split; [reflexivity|].
    unfold entry_facts; simpl.
    split; [reflexivity|].
    split; [lra|]. split; [lra|]. split; [lra|]. split; [lra|].
    intros _. repeat split; reflexivity.
Qed.

(** X3. In a non-degenerate decomposition the entry of each ticker of
    [weights] holds, for each factor, the percentage
    [w_t * beta_t * (w @ b_k) * F[k,k] / total_var * 100] clamped at 0, for the
    idiosyncratic bucket [w_t * w_t * resid_t / total_var * 100] clamped at 0
    (a missing residual variance counting as 0), and the ticker's weight;
    there is no entry for any other ticker. *)
Theorem X3_stock_contribution_formula (np_sqrt : Q -> Q) (weights : dict Q)
    (betas : dict Loadings) (F : mat3) (residual_vars : dict Q) (tv : Q) :
  portfolio_variance weights betas F residual_vars = Ret tv ->
  0 < tv ->
  exists r B sc,
    decompose_portfolio_variance np_sqrt weights betas F residual_vars = Ret r
    /\ loading_matrix betas (dict_keys weights) = Ret B
    /\ get_stocks r "stock_contributions" = Some sc
    /\ forall t,
         match dict_get t weights with
         | None => dict_get t sc = None
         | Some x =>
             exists l,
               dict_get t betas = Some l
               /\ dict_get t sc
                  = Some (ticker_contribution (weight_vector weights) B F tv
                            x l (dict_get_default residual_vars t 0))
         end.
Proof.
  intros Htv Hpos.
  exact (nondegenerate_stock_entries np_sqrt weights betas F residual_vars tv
           Htv Hpos).
Qed.

Lemma X3_stock_contribution_formula_witness :
  exists tv,
    portfolio_variance Examples.weights_AB Examples.betas_AB Examples.F_small
      Examples.resid_AB = Ret tv
    /\ 0 < tv
    /\ exists r B sc,
    decompose_portfolio_variance sqrt_rational Examples.weights_AB
      Examples.betas_AB Examples.F_small Examples.resid_AB = Ret r
    /\ loading_matrix Examples.betas_AB (dict_keys Examples.weights_AB) = Ret B
    /\ get_stocks r "stock_contributions" = Some sc
    /\ forall t,
         match dict_get t Examples.weights_AB with
         | None => dict_get t sc = None
         | Some x =>
             exists l,
               dict_get t Examples.betas_AB = Some l
               /\ dict_get t sc
                  = Some (ticker_contribution
                            (weight_vector Examples.weights_AB) B
                            Examples.F_small tv x l
                            (dict_get_default Examples.resid_AB t 0))
         end.
Proof.
  eexists.
  split; [vm_compute; reflexivity|].
  split; [vm_compute; reflexivity|].
  apply (X3_stock_contribution_formula sqrt_rational Examples.weights_AB
           Examples.betas_AB Examples.F_small Examples.resid_AB);
    vm_compute; reflexivity.
Defined.

(** X4. An instrument with weight 0 has all four contributions equal to 0,
    whatever its loadings and residual variance. *)
Theorem X4_zero_weight_zero_contributions (np_sqrt : Q -> Q)
    (weights : dict Q) (betas : dict Loadings) (F : mat3)
    (residual_vars : dict Q) (r : dict value) (t : string) (x : Q) :
  decompose_portfolio_variance np_sqrt weights betas F residual_vars = Ret r ->
  dict_get t weights = Some x ->
  x == 0 ->
  exists sc c,
    get_stocks r "stock_contributions" = Some sc
    /\ dict_get t sc = Some c
    /\ weight c = x
    /\ market_contribution c == 0
    /\ smb_contribution c == 0
    /\ hml_contribution c == 0
    /\ idio_contribution c == 0.
Proof.
  intros Hr Ht Hx.
  destruct (stock_entries np_sqrt _ _ _ _ _ Hr) as (sc & Hsc & Hall).
  specialize (Hall t). rewrite Ht in Hall.
  destruct Hall as (c & Hc & Hw & _ & _ & _ & _ & Hz).
  exists sc, c. split; [exact Hsc|]. split; [exact Hc|]. split; [exact Hw|].
  exact (Hz Hx).
Qed.

Lemma X4_zero_weight_zero_contributions_witness :
  exists r,
    decompose_portfolio_variance sqrt_rational ExtraExamples.weights_A_only
      Examples.betas_AB Examples.F_identity Examples.resid_AB = Ret r
    /\ dict_get "B" ExtraExamples.weights_A_only = Some 0
    /\ 0 == 0
    /\ exists sc c,
    get_stocks r "stock_contributions" = Some sc
    /\ dict_get "B" sc = Some c
    /\ weight c = 0
    /\ market_contribution c == 0
    /\ smb_contribution c == 0
    /\ hml_contribution c == 0
    /\ idio_contribution c == 0.
Proof.
  eexists.
  split; [vm_compute; reflexivity|].
  split; [reflexivity|].
  split; [reflexivity|].
  apply (X4_zero_weight_zero_contributions sqrt_rational
           ExtraExamples.weights_A_only Examples.betas_AB Examples.F_identity
           Examples.resid_AB _ "B" 0).
  - vm_compute; reflexivity.
  - reflexivity.
  - reflexivity.
Defined.

(** X5. Every returned decomposition has an entry in [stock_contributions]
    for every ticker of [weights] and for no other; the entry reports the
    ticker's input weight and none of its four contributions is negative. *)
Theorem X5_stock_contributions_cover (np_sqrt : Q -> Q) (weights : dict Q)
    (betas : dict Loadings) (F : mat3) (residual_vars : dict Q)
    (r : dict value) :
  decompose_portfolio_variance np_sqrt weights betas F residual_vars = Ret r ->
  exists sc,
    get_stocks r "stock_contributions" = Some sc
    /\ forall t,
         match dict_get t weights with
         | None => dict_get t sc = None
         | Some x =>
             exists c,
               dict_get t sc = Some c
               /\ weight c = x
               /\ 0 <= market_contribution c
               /\ 0 <= smb_contribution c
               /\ 0 <= hml_contribution c
               /\ 0 <= idio_contribution c
         end.
Proof.
  intro Hr.
  destruct (stock_entries np_sqrt _ _ _ _ _ Hr) as (sc & Hsc & Hall).
  exists sc. split; [exact Hsc|].
  intro t. specialize (Hall t).
  destruct (dict_get t weights) as [x|]; [|exact Hall].
  destruct Hall as (c & Hc & Hw & H1 & H2 & H3 & H4 & _).
  exists c. repeat split; assumption.
Qed.

Lemma X5_stock_contributions_cover_witness :
  exists r,
    decompose_portfolio_variance sqrt_rational ExtraExamples.weights_A_only
      Examples.betas_AB Examples.F_identity Examples.resid_AB = Ret r
    /\ exists sc,
    get_stocks r "stock_contributions" = Some sc
    /\ forall t,
         match dict_get t ExtraExamples.weights_A_only with
         | None => dict_get t sc = None
         | Some x =>
             exists c,
               dict_get t sc = Some c
               /\ weight c = x
               /\ 0 <= market_contribution c
               /\ 0 <= smb_contribution c
               /\ 0 <= hml_contribution c
               /\ 0 <= idio_contribution c
         end.
Proof.
  eexists. split; [vm_compute; reflexivity|].
  apply (X5_stock_contributions_cover sqrt_rational ExtraExamples.weights_A_only
           Examples.betas_AB Examples.F_identity Examples.resid_AB).
  vm_compute; reflexivity.
Defined.

(** ** Portfolios without factor exposure or without residual variance *)

Lemma vmul_zero_r (w b : list Q) :
  Forall (fun x => x == 0) b -> Forall (fun x => x == 0) (vmul w b).
Proof.
  intro H; revert w; induction H as [|y b Hy _ IH]; intros [|x w]; simpl;
    constructor.
  - rewrite Hy. ring.
  - apply IH.
Qed.

Lemma column_zero (B : list vec3) (k : nat) :
  (k < 3)%nat -> Forall zero_loading B ->
  Forall (fun x => x == 0) (column B k).
Proof.
  intros Hk H. unfold column. apply Forall_forall. intros x Hx.
  apply in_map_iff in Hx. destruct Hx as (b & <- & Hb).
  rewrite Forall_forall in H. destruct (H b Hb) as (H0 & H1 & H2).
  destruct k as [|[|[|k]]]; [assumption | assumption | assumption | lia].
Qed.

Lemma pure_contribution_zero_loadings (w : list Q) (B : list vec3) (F : mat3)
    (k : nat) :
  (k < 3)%nat -> Forall zero_loading B -> pure_contribution w B F k == 0.
Proof.
  intros Hk H. unfold pure_contribution. cbv zeta.
  rewrite (dot_zero_l _ _ (vmul_zero_r w _ (column_zero B k Hk H))).
  apply py_max_nonpos. lra.
Qed.

Lemma total_systematic_zero_loadings (w : list Q) (B : list vec3) (F : mat3) :
  Forall zero_loading B -> total_systematic w B F == 0.
Proof.
  intro H. unfold total_systematic, quad.
  apply dot_zero_l, vecmat_zero, systematic_cov_zero, H.
Qed.

Lemma idio_var_zero (w d : list Q) :
  Forall (fun x => x == 0) d -> idio_var w d == 0.
Proof.
  intro H. unfold idio_var, quad.
  apply dot_zero_l, vecmat_zero, np_diag_zero, H.
Qed.

Lemma round2_100 (x : Q) : x == 100 -> round2 x == 100.
Proof. intro H. rewrite (round2_proper _ _ H). reflexivity. Qed.

Lemma decompose_lengths (weights : dict Q) (betas : dict Loadings)
    (residual_vars : dict Q) (B : list vec3) :
  loading_matrix betas (dict_keys weights) = Ret B ->
  List.length B = List.length (weight_vector weights)
  /\ List.length (residual_vector weights residual_vars)
     = List.length (weight_vector weights).
Proof.
  intro HB.
  rewrite (loading_matrix_length _ _ _ HB), residual_vector_length,
          weight_vector_length.
  split; reflexivity.
Qed.

(** X6. When no instrument has any factor loading and the total variance is
    positive, the decomposition returns 0 for the three factor buckets and
    100 for the idiosyncratic bucket. *)
Theorem X6_zero_loadings_all_idiosyncratic (np_sqrt : Q -> Q)
    (weights : dict Q) (betas : dict Loadings) (F : mat3)
    (residual_vars : dict Q) (B : list vec3) :
  let w := weight_vector weights in
  let d := residual_vector weights residual_vars in
  loading_matrix betas (dict_keys weights) = Ret B ->
  Forall zero_loading B ->
  0 < total_var w B F d ->
  exists r m s h i,
    decompose_portfolio_variance np_sqrt weights betas F residual_vars = Ret r
    /\ get_num r "market_pct" = Some m /\ m == 0
    /\ get_num r "smb_pct" = Some s /\ s == 0
    /\ get_num r "hml_pct" = Some h /\ h == 0
    /\ get_num r "idiosyncratic_pct" = Some i /\ i == 100.
Proof.
  intros w d HB Hz Htv.
  pose proof (portfolio_variance_ret weights betas F residual_vars B HB Htv)
    as Hpv.
  destruct (decompose_nondegenerate np_sqrt _ _ _ _ _ Hpv Htv)
    as (B' & HB' & _ & Hr).
  assert (B' = B) by congruence. subst B'. fold w d in Hr.
  destruct (decompose_lengths weights betas residual_vars B HB) as [LB Ld].
  fold w d in LB, Ld.
  assert (HS : pure_sum w B F == 0).
  { unfold pure_sum.
    rewrite !pure_contribution_zero_loadings by (lia || exact Hz). ring. }
  assert (Hbv : forall k, (k < 3)%nat -> bucket_variance w B F k == 0).
  { intros k Hk. apply bucket_variance_unapportioned; assumption. }
  assert (Hidio : idio_var w d == total_var w B F d).
  { rewrite (total_var_split w B F d LB Ld),
            (total_systematic_zero_loadings w B F Hz). ring. }
  assert (Hc : forall k, (k < 3)%nat ->
                 clamped_pct (bucket_variance w B F k) (total_var w B F d) == 0).
  { intros k Hk. apply clamped_pct_zero, Hbv, Hk. }
  assert (Hci : clamped_pct (idio_var w d) (total_var w B F d) == 100).
  { unfold clamped_pct. rewrite Hidio.
    assert (E : total_var w B F d / total_var w B F d * 100 == 100)
      by (field; lra).
    rewrite E. apply py_max_pos. lra. }
  assert (HT : clamped_total w B F d == 100).
  { unfold clamped_total, bucket_clamped.
    rewrite !Hc by lia. rewrite Hci. ring. }
  do 5 eexists. split; [exact Hr|]. cbn.
  split; [reflexivity|].
  split; [apply round2_zero, bucket_pct_zero; unfold bucket_clamped;
          apply Hc; lia|].
  split; [reflexivity|].
  split; [apply round2_zero, bucket_pct_zero; unfold bucket_clamped;
          apply Hc; lia|].
  split; [reflexivity|].
  split; [apply round2_zero, bucket_pct_zero; unfold bucket_clamped;
          apply Hc; lia|].
  split; [reflexivity|].
  apply round2_100. unfold bucket_pct.
  assert (E : Qltb 0 (clamped_total w B F d) = true)
    by (apply Qltb_lt; rewrite HT; lra).
  rewrite E, HT. unfold bucket_clamped. rewrite Hci. reflexivity.
Qed.

Lemma X6_zero_loadings_all_idiosyncratic_witness :
  exists B,
    let w := weight_vector Examples.weights_one in
    let d := residual_vector Examples.weights_one Examples.resid_2268 in
    loading_matrix Examples.betas_flat (dict_keys Examples.weights_one) = Ret B
    /\ Forall zero_loading B
    /\ 0 < total_var w B Examples.F_small d
    /\ exists r m s h i,
    decompose_portfolio_variance sqrt_rational Examples.weights_one
      Examples.betas_flat Examples.F_small Examples.resid_2268 = Ret r
    /\ get_num r "market_pct" = Some m /\ m == 0
    /\ get_num r "smb_pct" = Some s /\ s == 0
    /\ get_num r "hml_pct" = Some h /\ h == 0
    /\ get_num r "idiosyncratic_pct" = Some i /\ i == 100.
Proof.
  exists [(0, 0, 0)]. cbv zeta.
  split; [reflexivity|].
  split; [repeat constructor|].
  split; [vm_compute; reflexivity|].
  apply (X6_zero_loadings_all_idiosyncratic sqrt_rational Examples.weights_one
           Examples.betas_flat Examples.F_small Examples.resid_2268
           [(0, 0, 0)]).
  - reflexivity.
  - repeat constructor.
  - vm_compute; reflexivity.
Defined.

(** X7. When every residual variance is 0 and the total variance is
    positive, the returned idiosyncratic bucket is 0. *)
Theorem X7_zero_residuals_no_idiosyncratic (np_sqrt : Q -> Q)
    (weights : dict Q) (betas : dict Loadings) (F : mat3)
    (residual_vars : dict Q) (tv : Q) :
  portfolio_variance weights betas F residual_vars = Ret tv ->
  0 < tv ->
  Forall (fun x => x == 0) (residual_vector weights residual_vars) ->
  exists r i,
    decompose_portfolio_variance np_sqrt weights betas F residual_vars = Ret r
    /\ get_num r "idiosyncratic_pct" = Some i /\ i == 0.
Proof.
  intros Htv Hpos Hz.
  destruct (decompose_nondegenerate np_sqrt _ _ _ _ tv Htv Hpos)
    as (B & _ & _ & Hr).
  do 2 eexists. split; [exact Hr|]. split; [reflexivity|].
  apply round2_zero, bucket_pct_zero. unfold bucket_clamped.
  apply clamped_pct_zero, idio_var_zero, Hz.
Qed.

Lemma X7_zero_residuals_no_idiosyncratic_witness :
  exists tv,
    portfolio_variance Examples.weights_one Examples.betas_unit
      Examples.F_identity Examples.resid_none = Ret tv
    /\ 0 < tv
    /\ Forall (fun x => x == 0)
         (residual_vector Examples.weights_one Examples.resid_none)
    /\ exists r i,
    decompose_portfolio_variance sqrt_rational Examples.weights_one
      Examples.betas_unit Examples.F_identity Examples.resid_none = Ret r
    /\ get_num r "idiosyncratic_pct" = Some i /\ i == 0.
Proof.
  eexists.
  split; [vm_compute; reflexivity|].
  split; [vm_compute; reflexivity|].
  split; [repeat constructor|].
  eapply (X7_zero_residuals_no_idiosyncratic sqrt_rational
            Examples.weights_one Examples.betas_unit Examples.F_identity
            Examples.resid_none).
  - vm_compute; reflexivity.
  - vm_compute; reflexivity.
  - repeat constructor.
Defined.

(** ** The total variance as a factor-model variance *)

Lemma map_const_repeat {A B} (b : B) (l : list A) :
  map (fun _ => b) l = repeat b (List.length l).
Proof. induction l; simpl; congruence. Qed.

Lemma np_diag_cons (x : Q) (d : list Q) :
  np_diag (x :: d)
  = (x :: repeat 0 (List.length d)) :: map (cons 0) (np_diag d).
Proof.
  unfold np_diag. simpl List.length. simpl seq. simpl map.
  rewrite <- !seq_shift, !map_map.
  f_equal.
  - f_equal. rewrite <- (length_seq (List.length d) 0) at 2.
    apply map_const_repeat.
  - apply map_ext. intro i. rewrite map_map. reflexivity.
Qed.

Lemma vecmat_cons (n : nat) (x : Q) (w r : list Q) (M : list (list Q)) :
  vecmat n (x :: w) (r :: M) = vadd (vscale x r) (vecmat n w M).
Proof. reflexivity. Qed.

Lemma vadd_veq (u u' v v' : list Q) :
  veq u u' -> veq v v' -> veq (vadd u v) (vadd u' v').
Proof. intros Hu Hv. apply vadd_proper; assumption. Qed.

Lemma vecmat_cons_zero (n : nat) (w : list Q) (M : list (list Q)) :
  veq (vecmat (S n) w (map (cons 0) M)) (0 :: vecmat n w M).
Proof.
  revert M; induction w as [|a w IH]; intros [|r M];
    try (simpl; constructor; [reflexivity | apply veq_refl]).
  simpl map. rewrite vecmat_cons.
  eapply veq_trans; [apply vadd_veq; [apply veq_refl | apply IH]|].
  simpl. constructor; [ring | apply veq_refl].
Qed.

Lemma vadd_zeros_l (n : nat) (v : list Q) :
  List.length v = n -> veq (vadd (repeat 0 n) v) v.
Proof.
  revert v; induction n; intros [|y v] H; simpl in *; try discriminate;
    constructor.
  - ring.
  - apply IHn. injection H as H. exact H.
Qed.

Lemma vecmat_np_diag (w d : list Q) :
  List.length w = List.length d ->
  veq (vecmat (List.length d) w (np_diag d)) (vmul w d).
Proof.
  revert d; induction w as [|a w IH]; intros [|x d] H; simpl in H;
    try discriminate.
  - constructor.
  - injection H as H. rewrite np_diag_cons.
    simpl List.length. rewrite vecmat_cons.
    eapply veq_trans;
      [apply vadd_veq; [apply veq_refl | apply vecmat_cons_zero]|].
    simpl. constructor; [ring|].
    eapply veq_trans;
      [apply vadd_veq; [apply vscale_zeros | apply (IH d H)]|].
    apply vadd_zeros_l.
    clear IH; revert d H; induction w as [|b w IHw]; intros [|y d] H;
      simpl in *; try discriminate; [reflexivity|].
    f_equal. apply IHw. injection H as H. exact H.
Qed.

Lemma dot_vmul_swap (w d : list Q) : dot (vmul w d) w == dot (vmul w w) d.
Proof.
  revert d; induction w as [|a w IH]; intros [|x d]; simpl; try reflexivity.
  rewrite IH. ring.
Qed.

Lemma idio_var_weighted_sum (w d : list Q) :
  List.length w = List.length d -> idio_var w d == dot (vmul w w) d.
Proof.
  intro H. unfold idio_var, quad. rewrite H.
  rewrite (vecmat_np_diag w d H). apply dot_vmul_swap.
Qed.

(** X8. The [total_daily_var] of a non-degenerate decomposition is the
    factor-model variance [e @ F @ e + sum_i w_i^2 * resid_i], where
    [e = w @ B] is the portfolio's exposure to the three factors. *)
Theorem X8_total_daily_var_formula (np_sqrt : Q -> Q) (weights : dict Q)
    (betas : dict Loadings) (F : mat3) (residual_vars : dict Q)
    (r : dict value) (v : Q) :
  decompose_portfolio_variance np_sqrt weights betas F residual_vars = Ret r ->
  get_num r "total_daily_var" = Some v ->
  0 < v ->
  exists B,
    let w := weight_vector weights in
    let d := residual_vector weights residual_vars in
    loading_matrix betas (dict_keys weights) = Ret B
    /\ v == quad3 F (exposure w B) + dot (vmul w w) d.
Proof.
  intros Hr Hv Hpos.
  destruct (decompose_ret_inv _ _ _ _ _ _ Hr) as [tv Htv].
  destruct (Qlt_le_dec 0 tv) as [Hlt|Hle].
  - destruct (decompose_nondegenerate np_sqrt _ _ _ _ tv Htv Hlt)
      as (B & HB & Etv & Hd).
    rewrite Hd in Hr. injection Hr as <-.
    cbn in Hv. injection Hv as <-.
    exists B. cbv zeta. split; [exact HB|].
    destruct (decompose_lengths weights betas residual_vars B HB) as [LB Ld].
    rewrite Etv, (total_var_split _ _ _ _ LB Ld),
            (total_systematic_quad3 _ _ _ LB),
            (idio_var_weighted_sum _ _ (eq_sym Ld)).
    reflexivity.
  - rewrite (decompose_degenerate np_sqrt _ _ _ _ tv Htv Hle) in Hr.
    injection Hr as <-. cbn in Hv. injection Hv as <-.
    exfalso. revert Hpos. apply Qlt_irrefl.
Qed.

Lemma X8_total_daily_var_formula_witness :
  exists r v,
    decompose_portfolio_variance sqrt_rational ExtraExamples.weights_A_only
      Examples.betas_AB Examples.F_identity Examples.resid_AB = Ret r
    /\ get_num r "total_daily_var" = Some v
    /\ 0 < v
    /\ exists B,
    let w := weight_vector ExtraExamples.weights_A_only in
    let d := residual_vector ExtraExamples.weights_A_only Examples.resid_AB in
    loading_matrix Examples.betas_AB (dict_keys ExtraExamples.weights_A_only) = Ret B
    /\ v == quad3 Examples.F_identity (exposure w B) + dot (vmul w w) d.
Proof.
  do 2 eexists.
  split; [vm_compute; reflexivity|].
  split; [vm_compute; reflexivity|].
  split; [vm_compute; reflexivity|].
  eapply (X8_total_daily_var_formula sqrt_rational ExtraExamples.weights_A_only
            Examples.betas_AB Examples.F_identity Examples.resid_AB);
    vm_compute; reflexivity.
Defined.

(** * Further properties of the factor covariance *)

Lemma dot_combination (y0 y1 y2 : Q) (a0 a1 a2 t : list Q) :
  List.length a0 = List.length a1 -> List.length a1 = List.length a2 ->
  dot (vadd (vscale y0 a0) (vadd (vscale y1 a1) (vscale y2 a2))) t
  == y0 * dot a0 t + y1 * dot a1 t + y2 * dot a2 t.
Proof.
  intros H01 H12.
  rewrite dot_vadd_l.
  - rewrite dot_vadd_l by (rewrite !vscale_length; exact H12).
    rewrite !dot_vscale_l. ring.
  - rewrite vadd_length, !vscale_length. rewrite <- H12, H01.
    symmetry. apply Nat.min_id.
Qed.

(** A Gram matrix is positive semi-definite. *)
Lemma gram_nonneg (y0 y1 y2 : Q) (a0 a1 a2 : list Q) :
  List.length a0 = List.length a1 -> List.length a1 = List.length a2 ->
  0 <= y0 * (y0 * dot a0 a0 + y1 * dot a1 a0 + y2 * dot a2 a0)
       + y1 * (y0 * dot a0 a1 + y1 * dot a1 a1 + y2 * dot a2 a1)
       + y2 * (y0 * dot a0 a2 + y1 * dot a1 a2 + y2 * dot a2 a2).
Proof.
  intros H01 H12.
  set (z := vadd (vscale y0 a0) (vadd (vscale y1 a1) (vscale y2 a2))).
  pose proof (dot_self_nonneg z) as Hz.
  assert (E0 : dot z a0 == y0 * dot a0 a0 + y1 * dot a1 a0 + y2 * dot a2 a0)
    by (apply dot_combination; assumption).
  assert (E1 : dot z a1 == y0 * dot a0 a1 + y1 * dot a1 a1 + y2 * dot a2 a1)
    by (apply dot_combination; assumption).
  assert (E2 : dot z a2 == y0 * dot a0 a2 + y1 * dot a1 a2 + y2 * dot a2 a2)
    by (apply dot_combination; assumption).
  assert (E : dot z z == y0 * dot a0 z + y1 * dot a1 z + y2 * dot a2 z)
    by (apply dot_combination; assumption).
  rewrite (dot_comm a0 z), (dot_comm a1 z), (dot_comm a2 z) in E.
  rewrite <- E0, <- E1, <- E2, <- E. exact Hz.
Qed.

Import FactorCovariance.

Lemma df_cov_psd (rows : list vec3) :
  (2 <= List.length rows)%nat -> positive_semidefinite (df_cov rows).
Proof.
  intros Hn [[y0 y1] y2].
  unfold quad3, dot3, mcol, mget, df_cov. simpl.
  unfold cov. unfold column. rewrite !length_map.
  set (c := inject_Z (Z.of_nat (List.length rows)) - 1).
  assert (Hc : 0 < c).
  { unfold c. assert (H : 2 <= inject_Z (Z.of_nat (List.length rows))).
    { change 2 with (inject_Z 2). rewrite <- Zle_Qle. lia. }
    lra. }
  set (a0 := map (fun x => x - np_mean (map (fun r => vget r 0) rows))
                 (map (fun r => vget r 0) rows)).
  set (a1 := map (fun x => x - np_mean (map (fun r => vget r 1) rows))
                 (map (fun r => vget r 1) rows)).
  set (a2 := map (fun x => x - np_mean (map (fun r => vget r 2) rows))
                 (map (fun r => vget r 2) rows)).
  assert (H01 : List.length a0 = List.length a1)
    by (unfold a0, a1; rewrite !length_map; reflexivity).
  assert (H12 : List.length a1 = List.length a2)
    by (unfold a1, a2; rewrite !length_map; reflexivity).
  pose proof (gram_nonneg y0 y1 y2 a0 a1 a2 H01 H12) as Hg.
  set (g := y0 * (y0 * dot a0 a0 + y1 * dot a1 a0 + y2 * dot a2 a0)
            + y1 * (y0 * dot a0 a1 + y1 * dot a1 a1 + y2 * dot a2 a1)
            + y2 * (y0 * dot a0 a2 + y1 * dot a1 a2 + y2 * dot a2 a2)) in *.
  assert (E : (y0 * (dot a0 a0 / c) + y1 * (dot a1 a0 / c)
               + y2 * (dot a2 a0 / c)) * y0
              + (y0 * (dot a0 a1 / c) + y1 * (dot a1 a1 / c)
                 + y2 * (dot a2 a1 / c)) * y1
              + (y0 * (dot a0 a2 / c) + y1 * (dot a1 a2 / c)
                 + y2 * (dot a2 a2 / c)) * y2
              == g / c).
  { unfold g. field. lra. }
  rewrite E.
  apply Qle_shift_div_l; [exact Hc | lra].
Qed.


(** X9. The matrix returned by [compute_factor_covariance] is a covariance
    matrix: symmetric and positive semi-definite. *)
Theorem X9_factor_covariance_psd (ff : Frame) (window : Z) (M : mat3) :
  compute_factor_covariance ff window = Ret M ->
  positive_semidefinite M
  /\ forall i j, (i < 3)%nat -> (j < 3)%nat -> mget M i j == mget M j i.
Proof.
  unfold compute_factor_covariance.
  destruct (Nat.ltb_spec (List.length (recent ff window)) 60) as [Hlt|Hge];
    [discriminate|].
  intro H. injection H as <-.
  split.
  - apply df_cov_psd. rewrite length_map. lia.
  - intros i j Hi Hj. apply df_cov_symmetric; assumption.
Qed.

Lemma X9_factor_covariance_psd_witness :
  exists M,
    compute_factor_covariance CovExamples.factors_61 252 = Ret M
    /\ positive_semidefinite M
    /\ forall i j, (i < 3)%nat -> (j < 3)%nat -> mget M i j == mget M j i.
Proof.
  eexists. split; [vm_compute; reflexivity|].
  apply (X9_factor_covariance_psd CovExamples.factors_61 252).
  vm_compute; reflexivity.
Defined.



(** * Further properties of the attribution tree *)

Import Flamegraph.

Lemma portfolio_variance_loading (weights : dict Q) (betas : dict Loadings)
    (F : mat3) (residual_vars : dict Q) (tv : Q) :
  portfolio_variance weights betas F residual_vars = Ret tv ->
  exists B, loading_matrix betas (dict_keys weights) = Ret B.
Proof.
  unfold portfolio_variance.
  destruct (loading_matrix betas (dict_keys weights)) as [B|e]; simpl;
    [|discriminate].
  intros _. exists B. reflexivity.
Qed.

Lemma decompose_number_keys (np_sqrt : Q -> Q) (weights : dict Q)
    (betas : dict Loadings) (F : mat3) (residual_vars : dict Q)
    (r : dict value) :
  decompose_portfolio_variance np_sqrt weights betas F residual_vars = Ret r ->
  exists vol v1 v2 v3 v4,
    get_num r "total_annual_vol" = Some vol
    /\ get_num r "market_pct" = Some v1
    /\ get_num r "smb_pct" = Some v2
    /\ get_num r "hml_pct" = Some v3
    /\ get_num r "idiosyncratic_pct" = Some v4.
Proof.
  intro Hr.
  destruct (decompose_ret_inv _ _ _ _ _ _ Hr) as [tv Htv].
  destruct (Qlt_le_dec 0 tv) as [Hlt|Hle].
  - destruct (decompose_nondegenerate np_sqrt _ _ _ _ tv Htv Hlt)
      as (B & _ & _ & Hd).
    rewrite Hd in Hr. injection Hr as <-.
    do 5 eexists. repeat split; reflexivity.
  - rewrite (decompose_degenerate np_sqrt _ _ _ _ tv Htv Hle) in Hr.
    injection Hr as <-.
    do 5 eexists. repeat split; reflexivity.
Qed.

Lemma round2_above_half (x : Q) : 1 # 2 < x -> 1 # 2 <= round2 x.
Proof.
  intro H. unfold round2.
  pose proof (round_half_even_bounds (x * 100)) as [Hl _].
  set (z := round_half_even (x * 100)) in *.
  assert (Hz : (50 <= z)%Z).
  { assert (Hz' : (49 < z)%Z); [|lia].
    rewrite Zlt_Qlt. change (inject_Z 49) with (49 # 1). lra. }
  rewrite Zle_Qle in Hz. change (inject_Z 50) with (50 # 1) in Hz.
  assert (E : inject_Z z / 100 == inject_Z z * (1 # 100)) by field.
  rewrite E. lra.
Qed.

Lemma Forall2_in_right {A B} (R : A -> B -> Prop) (l : list A) (l' : list B)
    (y : B) :
  Forall2 R l l' -> In y l' -> exists x, In x l /\ R x y.
Proof.
  induction 1 as [|a b l l' Hab _ IH]; intro Hin; [destruct Hin|].
  destruct Hin as [<-|Hin].
  - exists a. split; [left; reflexivity | exact Hab].
  - destruct (IH Hin) as (x & Hx & HR). exists x. split; [right|]; assumption.
Qed.

Lemma leaves_of_visible (betas : dict Loadings) (b : bucket)
    (sc : dict StockContribution) (children : list Leaf) :
  make_factor_children sc betas (factor_key b) = Ret children ->
  (List.length children <= List.length sc)%nat
  /\ forall leaf, In leaf children ->
       1 # 2 <= leaf_value leaf
       /\ exists c,
            In (leaf_name leaf, c) sc
            /\ 1 # 2 < contribution_to b c
            /\ leaf_value leaf = round2 (contribution_to b c)
            /\ meta_weight (leaf_meta leaf) = weight c.
Proof.
  intro H.
  destruct (make_factor_children_spec betas b sc children H)
    as [(leaves & HF & Hperm) _].
  split.
  - rewrite <- (Permutation_length Hperm).
    rewrite <- (Forall2_length HF). unfold visible. apply filter_length_le.
  - intros leaf Hin.
    apply (Permutation_in leaf (Permutation_sym Hperm)) in Hin.
    destruct (Forall2_in_right _ _ _ leaf HF Hin)
      as ([t c] & Hvis & l & Hl & ->).
    simpl in *. unfold visible in Hvis. apply filter_In in Hvis.
    destruct Hvis as [Hsc Hgt]. simpl in Hgt. apply Qltb_lt in Hgt.
    split; [apply round2_above_half; exact Hgt|].
    exists c. repeat split; assumption.
Qed.

(** X12. In the attribution tree the root has value 100 and four bucket
    nodes; a bucket node has no more leaves than there are instruments, and
    every leaf
    belongs to an instrument whose contribution to that bucket exceeds 0.5,
    shows that contribution rounded to two decimals (so at least 0.5) and
    carries the instrument's weight. *)
Theorem X12_tree_leaves (decomposition : dict value) (betas : dict Loadings)
    (tree : Tree) :
  build_flamegraph_json decomposition betas = Ret tree ->
  exists sc n1 n2 n3 n4,
    get_stocks decomposition "stock_contributions" = Some sc
    /\ tree_value tree = 100
    /\ tree_children tree = [n1; n2; n3; n4]
    /\ forall b n,
         In (b, n) [(Market, n1); (Smb, n2); (Hml, n3); (Idiosyncratic, n4)] ->
         (List.length (node_children n) <= List.length sc)%nat
         /\ forall leaf, In leaf (node_children n) ->
              1 # 2 <= leaf_value leaf
              /\ exists c,
                   In (leaf_name leaf, c) sc
                   /\ 1 # 2 < contribution_to b c
                   /\ leaf_value leaf = round2 (contribution_to b c)
                   /\ meta_weight (leaf_meta leaf) = weight c.
Proof.
  unfold build_flamegraph_json.
  destruct (stocks_item decomposition "stock_contributions") as [sc|e] eqn:Esc;
    simpl; [|discriminate].
  destruct (num_item decomposition "total_annual_vol") as [vol|e];
    simpl; [|discriminate].
  destruct (num_item decomposition "market_pct") as [v1|e];
    simpl; [|discriminate].
  destruct (make_factor_children sc betas "market_contribution")
    as [c1|e] eqn:C1; simpl; [|discriminate].
  destruct (num_item decomposition "smb_pct") as [v2|e];
    simpl; [|discriminate].
  destruct (make_factor_children sc betas "smb_contribution")
    as [c2|e] eqn:C2; simpl; [|discriminate].
  destruct (num_item decomposition "hml_pct") as [v3|e];
    simpl; [|discriminate].
  destruct (make_factor_children sc betas "hml_contribution")
    as [c3|e] eqn:C3; simpl; [|discriminate].
  destruct (num_item decomposition "idiosyncratic_pct") as [v4|e];
    simpl; [|discriminate].
  destruct (make_factor_children sc betas "idio_contribution")
    as [c4|e] eqn:C4; simpl; [|discriminate].
  intro H. injection H as <-.
  exists sc. do 4 eexists.
  split; [apply stocks_item_get, Esc|].
  split; [reflexivity|]. split; [reflexivity|].
  intros b n Hin. simpl in Hin.
  destruct Hin as [H|[H|[H|[H|[]]]]]; injection H as <- <-; simpl.
  - apply (leaves_of_visible betas Market sc c1 C1).
  - apply (leaves_of_visible betas Smb sc c2 C2).
  - apply (leaves_of_visible betas Hml sc c3 C3).
  - apply (leaves_of_visible betas Idiosyncratic sc c4 C4).
Qed.

Lemma X12_tree_leaves_witness :
  exists tree,
    build_flamegraph_json FlameExamples.decomposition FlameExamples.betas
    = Ret tree
    /\ exists sc n1 n2 n3 n4,
    get_stocks FlameExamples.decomposition "stock_contributions" = Some sc
    /\ tree_value tree = 100
    /\ tree_children tree = [n1; n2; n3; n4]
    /\ forall b n,
         In (b, n) [(Market, n1); (Smb, n2); (Hml, n3); (Idiosyncratic, n4)] ->
         (List.length (node_children n) <= List.length sc)%nat
         /\ forall leaf, In leaf (node_children n) ->
              1 # 2 <= leaf_value leaf
              /\ exists c,
                   In (leaf_name leaf, c) sc
                   /\ 1 # 2 < contribution_to b c
                   /\ leaf_value leaf = round2 (contribution_to b c)
                   /\ meta_weight (leaf_meta leaf) = weight c.
Proof.
  eexists. split; [vm_compute; reflexivity|].
  apply (X12_tree_leaves FlameExamples.decomposition FlameExamples.betas).
  vm_compute; reflexivity.
Defined.

(** ** Ties and missing loadings *)

Lemma same_value_below (v : Q) (x : Leaf) (l : list Leaf) :
  same_value v x = true ->
  Forall (fun y => leaf_value y < leaf_value x) l ->
  filter (same_value v) l = [].
Proof.
  intros Hx H. induction H as [|y l Hy _ IH]; simpl; [reflexivity|].
  rewrite IH.
  destruct (same_value v y) eqn:E; [|reflexivity].
  unfold same_value in *. apply Qeq_bool_eq in Hx, E. lra.
Qed.

Lemma filter_insert_desc (v : Q) (x : Leaf) (acc : list Leaf) :
  StronglySorted desc acc ->
  filter (same_value v) (insert_desc x acc)
  = filter (same_value v) acc ++ (if same_value v x then [x] else []).
Proof.
  induction 1 as [|y l Hs IH Hall].
  - simpl. destruct (same_value v x); reflexivity.
  - cbn [insert_desc]. case_ltb (leaf_value y) (leaf_value x).
    + destruct (same_value v x) eqn:Ex.
      * assert (Hb : Forall (fun z => leaf_value z < leaf_value x) (y :: l)).
        { constructor; [exact E|].
          eapply Forall_impl; [|exact Hall].
          intros z Hz. unfold desc in Hz. lra. }
        cbn [filter]. rewrite Ex.
        change (if same_value v y then y :: filter (same_value v) l
                else filter (same_value v) l)
          with (filter (same_value v) (y :: l)).
        rewrite (same_value_below v x (y :: l) Ex Hb). reflexivity.
      * cbn [filter]. rewrite Ex, app_nil_r. reflexivity.
    + cbn [filter]. rewrite IH.
      destruct (same_value v y); reflexivity.
Qed.

Lemma filter_sorted_desc_acc (v : Q) (l acc : list Leaf) :
  StronglySorted desc acc ->
  filter (same_value v) (fold_left (fun acc x => insert_desc x acc) l acc)
  = filter (same_value v) acc ++ filter (same_value v) l.
Proof.
  revert acc; induction l as [|x l IH]; intros acc Hs; simpl.
  - rewrite app_nil_r. reflexivity.
  - rewrite (IH _ (insert_desc_sorted x acc Hs)), filter_insert_desc by exact Hs.
    rewrite <- app_assoc.
    destruct (same_value v x); reflexivity.
Qed.

(** The sort is stable: leaves of equal value keep their order. *)
Lemma filter_sorted_desc (v : Q) (l : list Leaf) :
  filter (same_value v) (sorted_desc l) = filter (same_value v) l.
Proof.
  unfold sorted_desc. rewrite filter_sorted_desc_acc by constructor.
  reflexivity.
Qed.

Lemma make_factor_children_sorted (betas : dict Loadings) (b : bucket)
    (sc : dict StockContribution) (children : list Leaf) :
  make_factor_children sc betas (factor_key b) = Ret children ->
  exists leaves,
    Forall2
      (fun item leaf =>
         exists l,
           dict_get (fst item) betas = Some l
           /\ leaf = leaf_of b (fst item) (snd item) l)
      (visible b sc) leaves
    /\ children = sorted_desc leaves.
Proof.
  unfold make_factor_children. rewrite visit_loop.
  destruct (mapM _ (visible b sc)) as [leaves|e] eqn:E; simpl; [|discriminate].
  intro H. injection H as <-.
  exists leaves. split; [|reflexivity].
  apply mapM_Forall2 in E.
  eapply Forall2_impl; [|exact E].
  intros [t c] leaf Hl. simpl in *. unfold dict_item in Hl.
  destruct (dict_get t betas) as [l|]; simpl in Hl; [|discriminate].
  injection Hl as <-. exists l. split; reflexivity.
Qed.

Lemma tied_leaves_in_dict_order (betas : dict Loadings) (b : bucket)
    (sc : dict StockContribution) (children : list Leaf) (v : Q) :
  make_factor_children sc betas (factor_key b) = Ret children ->
  map leaf_name (filter (same_value v) children)
  = map fst (filter (shown_as b v) sc).
Proof.
  intro H.
  destruct (make_factor_children_sorted betas b sc children H)
    as (leaves & HF & ->).
  rewrite filter_sorted_desc.
  assert (E : filter (shown_as b v) sc
              = filter (fun item =>
                          Qeq_bool (round2 (contribution_to b (snd item))) v)
                       (visible b sc)).
  { unfold visible, shown_as. clear.
    induction sc as [|item sc IH]; simpl; [reflexivity|].
    destruct (Qltb (1 # 2) (contribution_to b (snd item))); simpl;
      rewrite IH; reflexivity. }
  rewrite E. clear E H.
  induction HF as [|item leaf items leaves (l & Hl & ->) _ IH]; simpl;
    [reflexivity|].
  unfold same_value at 1. simpl.
  destruct (Qeq_bool (round2 (contribution_to b (snd item))) v); simpl;
    rewrite IH; reflexivity.
Qed.

(** X13. Within a bucket node the leaves shown with the same value keep the
    order their instruments have in [stock_contributions]: the sort by
    descending value is stable. *)
Theorem X13_ties_keep_dict_order (decomposition : dict value)
    (betas : dict Loadings) (tree : Tree) (v : Q) :
  build_flamegraph_json decomposition betas = Ret tree ->
  exists sc n1 n2 n3 n4,
    get_stocks decomposition "stock_contributions" = Some sc
    /\ tree_children tree = [n1; n2; n3; n4]
    /\ forall b n,
         In (b, n) [(Market, n1); (Smb, n2); (Hml, n3); (Idiosyncratic, n4)] ->
         map leaf_name (filter (same_value v) (node_children n))
         = map fst (filter (shown_as b v) sc).
Proof.
  unfold build_flamegraph_json.
  destruct (stocks_item decomposition "stock_contributions") as [sc|e] eqn:Esc;
    simpl; [|discriminate].
  destruct (num_item decomposition "total_annual_vol") as [vol|e];
    simpl; [|discriminate].
  destruct (num_item decomposition "market_pct") as [v1|e];
    simpl; [|discriminate].
  destruct (make_factor_children sc betas "market_contribution")
    as [c1|e] eqn:C1; simpl; [|discriminate].
  destruct (num_item decomposition "smb_pct") as [v2|e];
    simpl; [|discriminate].
  destruct (make_factor_children sc betas "smb_contribution")
    as [c2|e] eqn:C2; simpl; [|discriminate].
  destruct (num_item decomposition "hml_pct") as [v3|e];
    simpl; [|discriminate].
  destruct (make_factor_children sc betas "hml_contribution")
    as [c3|e] eqn:C3; simpl; [|discriminate].
  destruct (num_item decomposition "idiosyncratic_pct") as [v4|e];
    simpl; [|discriminate].
  destruct (make_factor_children sc betas "idio_contribution")
    as [c4|e] eqn:C4; simpl; [|discriminate].
  intro H. injection H as <-.
  exists sc. do 4 eexists.
  split; [apply stocks_item_get, Esc|].
  split; [reflexivity|].
  intros b n Hin. simpl in Hin.
  destruct Hin as [H|[H|[H|[H|[]]]]]; injection H as <- <-; simpl.
  - apply (tied_leaves_in_dict_order betas Market sc c1 v C1).
  - apply (tied_leaves_in_dict_order betas Smb sc c2 v C2).
  - apply (tied_leaves_in_dict_order betas Hml sc c3 v C3).
  - apply (tied_leaves_in_dict_order betas Idiosyncratic sc c4 v C4).
Qed.

Lemma X13_ties_keep_dict_order_witness :
  exists tree,
    build_flamegraph_json FlameExamples.decomposition FlameExamples.betas
    = Ret tree
    /\ exists sc n1 n2 n3 n4,
    get_stocks FlameExamples.decomposition "stock_contributions" = Some sc
    /\ tree_children tree = [n1; n2; n3; n4]
    /\ forall b n,
         In (b, n) [(Market, n1); (Smb, n2); (Hml, n3); (Idiosyncratic, n4)] ->
         map leaf_name (filter (same_value 10) (node_children n))
         = map fst (filter (shown_as b 10) sc).
Proof.
  eexists. split; [vm_compute; reflexivity|].
  apply (X13_ties_keep_dict_order FlameExamples.decomposition
           FlameExamples.betas).
  vm_compute; reflexivity.
Defined.

Lemma mapM_returns_iff {A B} (f : A -> result B) (l : list A) :
  (exists bs, mapM f l = Ret bs) <-> forall a, In a l -> exists b, f a = Ret b.
Proof.
  induction l as [|a l IH]; simpl.
  - split; [intros _ a [] | intros _; eexists; reflexivity].
  - split.
    + intros [bs H] x Hx.
      destruct (f a) as [b|e] eqn:E; simpl in H; [|discriminate].
      destruct (mapM f l) as [bs'|e] eqn:E'; simpl in H; [|discriminate].
      destruct Hx as [<-|Hx]; [eauto|].
      apply (proj1 IH); [eauto | exact Hx].
    + intro H.
      destruct (H a (or_introl eq_refl)) as [b ->]. simpl.
      destruct (proj2 IH) as [bs ->]; [intros x Hx; apply H; right; exact Hx|].
      simpl. eexists; reflexivity.
Qed.

(** ** Open entries of [betas] *)

Lemma open_visit_loop (open : dict OpenBetas.Entry) (b : bucket)
    (sc : dict StockContribution) (acc : list Leaf) :
  foldM (OpenBetas.visit open (factor_key b)) sc acc
  = (leaves <- mapM (fun item =>
                       m <- OpenBetas.read_meta open (fst item) ;;
                       Ret (OpenBetas.leaf_with (fst item)
                              (contribution_to b (snd item))
                              (weight (snd item)) m))
                    (visible b sc) ;;
     Ret (acc ++ leaves)).
Proof.
  revert acc; induction sc as [|[t c] sc IH]; intro acc.
  - simpl. rewrite app_nil_r. reflexivity.
  - cbn [foldM OpenBetas.visit]. rewrite contrib_item_factor. cbn [bind].
    unfold visible. cbn [filter snd]. fold (visible b sc).
    destruct (Qltb (1 # 2) (contribution_to b c)).
    + cbn [mapM fst snd].
      destruct (OpenBetas.read_meta open t) as [m|e]; cbn [bind];
        [|reflexivity].
      change (contrib_item c "weight") with (Ret (weight c)). cbn [bind].
      rewrite IH.
      destruct (mapM _ (visible b sc)) as [leaves|e]; cbn [bind];
        [|reflexivity].
      rewrite <- app_assoc. reflexivity.
    + apply IH.
Qed.

(** The four reads of a leaf succeed exactly on an entry that is there and
    complete. *)
Lemma read_meta_returns_iff (open : dict OpenBetas.Entry) (t : string) :
  (exists m, OpenBetas.read_meta open t = Ret m)
  <-> exists entry,
        dict_get t open = Some entry /\ OpenBetas.complete entry = true.
Proof.
  unfold OpenBetas.read_meta, dict_item.
  destruct (dict_get t open) as [entry|]; cbn [bind];
    [|split; [intros [m H]; discriminate | intros (e & H & _); discriminate]].
  assert (Hc : forall e, Some entry = Some e ->
                         OpenBetas.complete e = OpenBetas.complete entry)
    by (intros e H; injection H as <-; reflexivity).
  unfold OpenBetas.complete in *.
  destruct (dict_get "beta_mkt" entry); cbn [bind];
    [|split; [intros [m H]; discriminate
             | intros (e & H & He); rewrite (Hc e H) in He; discriminate]].
  destruct (dict_get "beta_smb" entry); cbn [bind];
    [|split; [intros [m H]; discriminate
             | intros (e & H & He); rewrite (Hc e H) in He; discriminate]].
  destruct (dict_get "beta_hml" entry); cbn [bind];
    [|split; [intros [m H]; discriminate
             | intros (e & H & He); rewrite (Hc e H) in He; discriminate]].
  destruct (dict_get "r_squared" entry); cbn [bind];
    [|split; [intros [m H]; discriminate
             | intros (e & H & He); rewrite (Hc e H) in He; discriminate]].
  split; [intros _; exists entry; split;
                    [reflexivity | exact (Hc entry eq_refl)]
         | intros _; eexists; reflexivity].
Qed.

Lemma open_children_returns_iff (open : dict OpenBetas.Entry) (b : bucket)
    (sc : dict StockContribution) :
  (exists children,
     OpenBetas.make_factor_children sc open (factor_key b) = Ret children)
  <-> forall t c,
        In (t, c) (visible b sc) ->
        exists entry,
          dict_get t open = Some entry /\ OpenBetas.complete entry = true.
Proof.
  unfold OpenBetas.make_factor_children. rewrite open_visit_loop.
  set (f := fun item : string * StockContribution =>
              m <- OpenBetas.read_meta open (fst item) ;;
              Ret (OpenBetas.leaf_with (fst item)
                     (contribution_to b (snd item)) (weight (snd item)) m)).
  assert (Hf : forall item,
             (exists leaf, f item = Ret leaf)
             <-> exists entry,
                   dict_get (fst item) open = Some entry
                   /\ OpenBetas.complete entry = true).
  { intros [t c]. rewrite <- read_meta_returns_iff. unfold f. simpl.
    destruct (OpenBetas.read_meta open t) as [m|e]; simpl; split.
    - intros _. eauto.
    - intros _. eexists; reflexivity.
    - intros [leaf H]. discriminate.
    - intros [m H]. discriminate. }
  split.
  - intros [children H] t c Hin.
    destruct (mapM f (visible b sc)) as [leaves|e] eqn:E; simpl in H;
      [|discriminate].
    apply (Hf (t, c)).
    apply (proj1 (mapM_returns_iff f (visible b sc))); [eauto | exact Hin].
  - intro H.
    destruct (proj2 (mapM_returns_iff f (visible b sc))) as [leaves ->].
    + intros [t c] Hin. apply Hf. simpl. apply (H t c Hin).
    + simpl. eexists; reflexivity.
Qed.

Lemma open_tree_returns_iff (decomposition : dict value)
    (open : dict OpenBetas.Entry) (sc : dict StockContribution)
    (vol v1 v2 v3 v4 : Q) :
  get_stocks decomposition "stock_contributions" = Some sc ->
  get_num decomposition "total_annual_vol" = Some vol ->
  get_num decomposition "market_pct" = Some v1 ->
  get_num decomposition "smb_pct" = Some v2 ->
  get_num decomposition "hml_pct" = Some v3 ->
  get_num decomposition "idiosyncratic_pct" = Some v4 ->
  (exists tree, OpenBetas.build_flamegraph_json decomposition open = Ret tree)
  <-> forall b t c,
        In (t, c) (visible b sc) ->
        exists entry,
          dict_get t open = Some entry /\ OpenBetas.complete entry = true.
Proof.
  unfold get_stocks, get_num, OpenBetas.build_flamegraph_json, stocks_item,
    num_item.
  intros Hsc Hvol H1 H2 H3 H4.
  destruct (dict_get "stock_contributions" decomposition) as [[?|sc']|];
    try discriminate. injection Hsc as ->.
  destruct (dict_get "total_annual_vol" decomposition) as [[?|?]|];
    try discriminate.
  destruct (dict_get "market_pct" decomposition) as [[?|?]|];
    try discriminate.
  destruct (dict_get "smb_pct" decomposition) as [[?|?]|];
    try discriminate.
  destruct (dict_get "hml_pct" decomposition) as [[?|?]|];
    try discriminate.
  destruct (dict_get "idiosyncratic_pct" decomposition) as [[?|?]|];
    try discriminate.
  cbn [bind].
  pose proof (open_children_returns_iff open Market sc) as R1.
  pose proof (open_children_returns_iff open Smb sc) as R2.
  pose proof (open_children_returns_iff open Hml sc) as R3.
  pose proof (open_children_returns_iff open Idiosyncratic sc) as R4.
  cbn [factor_key] in R1, R2, R3, R4.
  split.
  - intros [tree H] b.
    destruct (OpenBetas.make_factor_children sc open "market_contribution")
      as [c1|e]; cbn [bind] in H; [|discriminate].
    destruct (OpenBetas.make_factor_children sc open "smb_contribution")
      as [c2|e]; cbn [bind] in H; [|discriminate].
    destruct (OpenBetas.make_factor_children sc open "hml_contribution")
      as [c3|e]; cbn [bind] in H; [|discriminate].
    destruct (OpenBetas.make_factor_children sc open "idio_contribution")
      as [c4|e]; cbn [bind] in H; [|discriminate].
    destruct b; [apply R1 | apply R2 | apply R3 | apply R4]; eauto.
  - intro H.
    destruct (proj2 R1 (H Market)) as [c1 ->]. cbn [bind].
    destruct (proj2 R2 (H Smb)) as [c2 ->]. cbn [bind].
    destruct (proj2 R3 (H Hml)) as [c3 ->]. cbn [bind].
    destruct (proj2 R4 (H Idiosyncratic)) as [c4 ->]. cbn [bind].
    eexists; reflexivity.
Qed.

(** X14. For a decomposition that has its keys, [build_flamegraph_json]
    returns a tree if and only if every instrument that is visible in some
    bucket has an entry in [betas] with the keys [beta_mkt], [beta_smb],
    [beta_hml] and [r_squared]; instruments below the threshold need no
    entry, and no key of one. *)
Theorem X14_tree_needs_visible_loadings (decomposition : dict value)
    (open : dict OpenBetas.Entry) (sc : dict StockContribution)
    (vol v1 v2 v3 v4 : Q) :
  get_stocks decomposition "stock_contributions" = Some sc ->
  get_num decomposition "total_annual_vol" = Some vol ->
  get_num decomposition "market_pct" = Some v1 ->
  get_num decomposition "smb_pct" = Some v2 ->
  get_num decomposition "hml_pct" = Some v3 ->
  get_num decomposition "idiosyncratic_pct" = Some v4 ->
  (exists tree, OpenBetas.build_flamegraph_json decomposition open = Ret tree)
  <-> forall b t c,
        In (t, c) (visible b sc) ->
        exists entry,
          dict_get t open = Some entry /\ OpenBetas.complete entry = true.
Proof. apply open_tree_returns_iff. Qed.

Lemma X14_tree_needs_visible_loadings_witness :
  (exists tree,
     OpenBetas.build_flamegraph_json FlameExamples.decomposition
       OpenExamples.open_flame = Ret tree)
  <-> forall b t c,
        In (t, c) (visible b FlameExamples.contribs) ->
        exists entry,
          dict_get t OpenExamples.open_flame = Some entry
          /\ OpenBetas.complete entry = true.
Proof.
  apply (X14_tree_needs_visible_loadings FlameExamples.decomposition
           OpenExamples.open_flame FlameExamples.contribs
           (1234 # 100) 60 0 0 40); reflexivity.
Defined.

(** The entry of [C] lacks [r_squared], and [C] is visible in no bucket:
    the tree is returned. *)
Example open_flame_tree :
  OpenBetas.complete
    (dict_get_default OpenExamples.open_flame "C" []) = false
  /\ exists tree,
       OpenBetas.build_flamegraph_json FlameExamples.decomposition
         OpenExamples.open_flame = Ret tree.
Proof. split; [reflexivity | eexists; vm_compute; reflexivity]. Qed.

(** X11. The attribution tree can always be built from a decomposition and
    the entries of [betas] it was computed from, provided the entries of
    the portfolio's tickers also have the key [r_squared], which the
    decomposition does not read: [build_flamegraph_json] then raises no
    [KeyError]. *)
Theorem X11_flamegraph_of_decomposition (np_sqrt : Q -> Q) (weights : dict Q)
    (betas : dict Loadings) (F : mat3) (residual_vars : dict Q)
    (r : dict value) (open : dict OpenBetas.Entry) :
  decompose_portfolio_variance np_sqrt weights betas F residual_vars = Ret r ->
  OpenBetas.loadings_from open betas ->
  (forall t entry,
     In t (dict_keys weights) -> dict_get t open = Some entry ->
     exists r2, dict_get "r_squared" entry = Some r2) ->
  exists tree, OpenBetas.build_flamegraph_json r open = Ret tree.
Proof.
  intros Hr Hfrom Hr2.
  destruct (decompose_number_keys _ _ _ _ _ _ Hr)
    as (vol & v1 & v2 & v3 & v4 & Hvol & H1 & H2 & H3 & H4).
  destruct (stock_entries _ _ _ _ _ _ Hr) as (sc & Hsc & Hall).
  destruct (decompose_ret_inv _ _ _ _ _ _ Hr) as [tv Htv].
  destruct (portfolio_variance_loading _ _ _ _ _ Htv) as [B HB].
  apply (open_tree_returns_iff r open sc vol v1 v2 v3 v4); try assumption.
  intros b t c Hin.
  assert (Ht : In t (dict_keys weights)).
  { apply filter_In in Hin. destruct Hin as [Hin _].
    assert (Hk : In t (dict_keys sc)) by (apply (in_map fst _ _ Hin)).
    apply dict_get_keys in Hk. destruct Hk as [c' Hc'].
    specialize (Hall t).
    destruct (dict_get t weights) as [x|] eqn:Ex; [|congruence].
    apply dict_get_keys. eauto. }
  pose proof (loading_matrix_covers betas _ B HB t Ht) as Hb.
  apply dict_get_keys in Hb. destruct Hb as [l Hl].
  destruct (Hfrom t l Hl) as (entry & He & Hm & Hs & Hh).
  destruct (Hr2 t entry Ht He) as [r2 Hr2'].
  exists entry. split; [exact He|].
  unfold OpenBetas.complete. rewrite Hm, Hs, Hh, Hr2'. reflexivity.
Qed.

Lemma X11_flamegraph_of_decomposition_witness :
  exists r,
    decompose_portfolio_variance sqrt_rational ExtraExamples.weights_A_only
      Examples.betas_AB Examples.F_identity Examples.resid_AB = Ret r
    /\ OpenBetas.loadings_from OpenExamples.open_AB Examples.betas_AB
    /\ (forall t entry,
          In t (dict_keys ExtraExamples.weights_A_only) ->
          dict_get t OpenExamples.open_AB = Some entry ->
          exists r2, dict_get "r_squared" entry = Some r2)
    /\ exists tree, OpenBetas.build_flamegraph_json r OpenExamples.open_AB
                    = Ret tree.
Proof.
  assert (Hfrom : OpenBetas.loadings_from OpenExamples.open_AB
                    Examples.betas_AB).
  { intros t l H. unfold Examples.betas_AB in H. cbn [dict_get] in H.
    destruct (String.eqb_spec t "A") as [->|_].
    - injection H as <-. eexists. repeat split; reflexivity.
    - destruct (String.eqb_spec t "B") as [->|_]; [|discriminate].
      injection H as <-. eexists. repeat split; reflexivity. }
  assert (Hr2 : forall t entry,
             In t (dict_keys ExtraExamples.weights_A_only) ->
             dict_get t OpenExamples.open_AB = Some entry ->
             exists r2, dict_get "r_squared" entry = Some r2).
  { intros t entry Ht H. vm_compute in Ht.
    destruct Ht as [<-|[<-|[]]]; vm_compute in H; injection H as <-;
      eexists; reflexivity. }
  eexists. split; [vm_compute; reflexivity|].
  split; [exact Hfrom|]. split; [exact Hr2|].
  apply (X11_flamegraph_of_decomposition sqrt_rational
           ExtraExamples.weights_A_only Examples.betas_AB Examples.F_identity
           Examples.resid_AB _ OpenExamples.open_AB).
  - vm_compute; reflexivity.
  - exact Hfrom.
  - exact Hr2.
Defined.

(** * Further properties of the regression *)

(** X15. Whatever [run_factor_regression] returns carries the ticker it was
    called with and counts no more observations than the window holds.  When
    it is flagged [sufficient_data = true], at least [min_obs] observations
    were used; when it is flagged [false], all three betas, alpha and
    R-squared are 0. *)
Theorem X15_sufficient_data_flag
    (OLS_fit : list Q -> list (list (option Q)) -> result OLSResults)
    (t : string) (er : Series) (ff : Frame) (window min_obs : Z)
    (l : Loadings) :
  run_factor_regression OLS_fit t er ff window min_obs = Ret l ->
  ticker l = t
  /\ ((0 < window)%Z -> (Z.of_nat (n_observations l) <= window)%Z)
  /\ (sufficient_data l = true ->
      (min_obs <= Z.of_nat (n_observations l))%Z
      /\ n_observations l = List.length (window_returns er ff window))
  /\ (sufficient_data l = false ->
      beta_mkt l = 0 /\ beta_smb l = 0 /\ beta_hml l = 0
      /\ alpha l = 0 /\ r_squared l = 0).
Proof.
  unfold run_factor_regression.
  destruct (Nat.eqb _ 0) eqn:E0.
  - intro H. injection H as <-. simpl.
    repeat split; try reflexivity; try discriminate. intro; lia.
  - fold (window_dates er ff window).
    fold (window_returns er ff window). fold (window_factors er ff window).
    assert (Hcap : (0 < window)%Z ->
              (Z.of_nat (List.length (window_returns er ff window))
               <= window)%Z).
    { intro Hw. rewrite (usable_observations er ff window Hw). lia. }
    destruct (Z.ltb_spec (Z.of_nat (List.length (window_returns er ff window)))
                min_obs) as [Hlt|Hge].
    + intro H. injection H as <-. simpl.
      repeat split; try reflexivity; try discriminate. exact Hcap.
    + destruct (OLS_fit _ _) as [model|e].
      * destruct (py_index (params model) 1) as [p1|e1]; simpl;
          [|discriminate].
        destruct (py_index (params model) 2) as [p2|e2]; simpl;
          [|discriminate].
        destruct (py_index (params model) 3) as [p3|e3]; simpl;
          [|discriminate].
        destruct (py_index (params model) 0) as [p0|e0]; simpl;
          [|discriminate].
        intro H. injection H as <-. simpl.
        repeat split; try reflexivity; try discriminate;
          try assumption.
      * intro H. injection H as <-. simpl.
        repeat split; try reflexivity; try discriminate. intro; lia.
Qed.

Lemma X15_sufficient_data_flag_witness :
  exists l,
    run_factor_regression RegExamples.failing_fit "A"
      RegExamples.returns_short RegExamples.factors_short 252 60 = Ret l
    /\ ticker l = "A"%string
    /\ ((0 < 252)%Z -> (Z.of_nat (n_observations l) <= 252)%Z)
    /\ (sufficient_data l = true ->
        (60 <= Z.of_nat (n_observations l))%Z
        /\ n_observations l
           = List.length (window_returns RegExamples.returns_short
                            RegExamples.factors_short 252))
    /\ (sufficient_data l = false ->
        beta_mkt l = 0 /\ beta_smb l = 0 /\ beta_hml l = 0
        /\ alpha l = 0 /\ r_squared l = 0).
Proof.
  eexists. split; [vm_compute; reflexivity|].
  apply (X15_sufficient_data_flag RegExamples.failing_fit "A"
           RegExamples.returns_short RegExamples.factors_short 252 60).
  vm_compute; reflexivity.
Defined.

(** * Toronto tickers *)

Lemma endswith_refl (s : string) : endswith s s = true.
Proof.
  destruct s; [reflexivity|].
  cbn [endswith]. rewrite String.eqb_refl. reflexivity.
Qed.

Lemma endswith_spec (s suffix : string) :
  endswith s suffix = true <-> exists stem, s = (stem ++ suffix)%string.
Proof.
  split.
  - induction s as [|c s IH]; cbn [endswith].
    + destruct (String.eqb_spec "" suffix) as [<-|Hne]; [|discriminate].
      intros _. exists ""%string. reflexivity.
    + destruct (String.eqb_spec (String c s) suffix) as [<-|Hne].
      * intros _. exists ""%string. reflexivity.
      * intro H. destruct (IH H) as [stem ->].
        exists (String c stem). reflexivity.
  - intros [stem ->]. induction stem as [|c stem IH].
    + apply endswith_refl.
    + cbn [append endswith].
      destruct (String.eqb _ suffix); [reflexivity | exact IH].
Qed.

Lemma str_upper_app (a b : string) :
  str_upper (a ++ b) = (str_upper a ++ str_upper b)%string.
Proof. induction a as [|c a IH]; simpl; [reflexivity | rewrite IH; reflexivity]. Qed.

Lemma str_upper_split (t a b : string) :
  str_upper t = (a ++ b)%string ->
  exists t1 t2,
    t = (t1 ++ t2)%string /\ str_upper t1 = a /\ str_upper t2 = b.
Proof.
  revert t; induction a as [|c a IH]; intros t H.
  - exists ""%string, t. repeat split. exact H.
  - destruct t as [|c' t]; simpl in H; [discriminate|].
    injection H as Hc H.
    destruct (IH t H) as (t1 & t2 & -> & <- & <-).
    exists (String c' t1), t2. simpl. rewrite Hc. repeat split.
Qed.

(** X16. [_is_tsx_ticker] holds exactly for the tickers that end in [.TO] or
    [.V], in any mix of upper and lower case. *)
Theorem X16_tsx_ticker_suffix (t : string) :
  _is_tsx_ticker t = true
  <-> exists stem suffix,
        t = (stem ++ suffix)%string
        /\ (str_upper suffix = ".TO"%string \/ str_upper suffix = ".V"%string).
Proof.
  unfold _is_tsx_ticker. rewrite orb_true_iff, !endswith_spec. split.
  - intros [[a H]|[a H]];
      destruct (str_upper_split t _ _ H) as (t1 & t2 & -> & _ & H2);
      exists t1, t2; (split; [reflexivity|]); [left | right]; exact H2.
  - intros (stem & suffix & -> & [H|H]); [left | right];
      exists (str_upper stem); rewrite str_upper_app, H; reflexivity.
Qed.

Example tsx_examples :
  _is_tsx_ticker "SHOP.TO" = true /\ _is_tsx_ticker "ry.To" = true
  /\ _is_tsx_ticker "ABC.V" = true /\ _is_tsx_ticker "AAPL" = false
  /\ _is_tsx_ticker "TO" = false.
Proof. repeat split. Qed.

(** * The insight sentence *)

Import Insight.

Lemma py_sum_bound (k : Q) (l : list Q) :
  Forall (fun x => x <= k) l ->
  py_sum l <= k * inject_Z (Z.of_nat (List.length l)).
Proof.
  induction 1 as [|x l Hx _ IH].
  - unfold py_sum; simpl. rewrite Qmult_0_r. apply Qle_refl.
  - rewrite py_sum_cons. simpl List.length.
    rewrite Nat2Z.inj_succ, <- Z.add_1_r, inject_Z_plus.
    change (inject_Z 1) with 1.
    set (n := inject_Z (Z.of_nat (List.length l))) in *.
    assert (E : k * (n + 1) == k + k * n) by ring.
    rewrite E. apply Qplus_le_compat; assumption.
Qed.

Lemma py_sum_zero (l : list Q) : Forall (fun x => x == 0) l -> py_sum l == 0.
Proof.
  induction 1 as [|x l Hx _ IH]; [reflexivity|].
  rewrite py_sum_cons, Hx, IH. ring.
Qed.

Lemma num_item_of_get (d : dict value) (k : string) (q : Q) :
  get_num d k = Some q -> Flamegraph.num_item d k = Ret q.
Proof.
  unfold get_num, Flamegraph.num_item.
  destruct (dict_get k d) as [[x|sc]|]; intro H; try discriminate.
  injection H as <-. reflexivity.
Qed.

Lemma generate_insight_market (d : dict value) (p : list (string * Q))
    (m s h i vol : Q) :
  insight_inputs d m s h i vol ->
  65 < m ->
  generate_insight d p = Ret (market_message m).
Proof.
  intros (Hm & Hs & Hh & Hi & Hv) Hgt. unfold generate_insight.
  rewrite (num_item_of_get _ _ _ Hm), (num_item_of_get _ _ _ Hs),
          (num_item_of_get _ _ _ Hh), (num_item_of_get _ _ _ Hi),
          (num_item_of_get _ _ _ Hv).
  cbn [bind]. apply Qltb_lt in Hgt. rewrite Hgt. reflexivity.
Qed.

Lemma insert_component_perm (x : string * Q) (l : list (string * Q)) :
  Permutation (x :: l) (insert_component x l).
Proof.
  induction l as [|y l IH]; simpl.
  - apply Permutation_refl.
  - destruct (Qltb (snd y) (snd x)).
    + apply Permutation_refl.
    + eapply perm_trans; [apply perm_swap|]. apply perm_skip, IH.
Qed.

Lemma insert_component_sorted (x : string * Q) (l : list (string * Q)) :
  StronglySorted (fun a b => snd b <= snd a) l ->
  StronglySorted (fun a b => snd b <= snd a) (insert_component x l).
Proof.
  induction 1 as [|y l Hs IH Hall]; simpl.
  - constructor; constructor.
  - case_ltb (snd y) (snd x).
    + constructor; [constructor; assumption|].
      constructor; [lra|].
      eapply Forall_impl; [|exact Hall]. intros z Hz. simpl in Hz. lra.
    + constructor; [exact IH|].
      eapply Permutation_Forall; [apply insert_component_perm|].
      constructor; [exact E | exact Hall].
Qed.

Lemma sort_components_acc (l acc : list (string * Q)) :
  StronglySorted (fun a b => snd b <= snd a) acc ->
  Permutation (acc ++ l)
    (fold_left (fun acc x => insert_component x acc) l acc)
  /\ StronglySorted (fun a b => snd b <= snd a)
       (fold_left (fun acc x => insert_component x acc) l acc).
Proof.
  revert acc; induction l as [|x l IH]; intros acc Hs; simpl.
  - rewrite app_nil_r. split; [apply Permutation_refl | exact Hs].
  - destruct (IH _ (insert_component_sorted x acc Hs)) as [Hp Hsorted].
    split; [|exact Hsorted].
    eapply perm_trans; [|exact Hp].
    eapply perm_trans; [apply Permutation_sym, Permutation_middle|].
    rewrite app_comm_cons. apply Permutation_app_tail, insert_component_perm.
Qed.

(** The first two of four sorted components are the two largest. *)
Lemma sort_components_four (a b c e : string * Q) :
  exists x y rest,
    sort_components [a; b; c; e] = x :: y :: rest
    /\ Permutation [a; b; c; e] (x :: y :: rest)
    /\ snd y <= snd x
    /\ Forall (fun z => snd z <= snd y) rest.
Proof.
  destruct (sort_components_acc [a; b; c; e] []) as [Hp Hs]; [constructor|].
  fold (sort_components [a; b; c; e]) in Hp, Hs. simpl in Hp.
  pose proof (Permutation_length Hp) as Hl.
  destruct (sort_components [a; b; c; e]) as [|x [|y rest]];
    try discriminate.
  exists x, y, rest. split; [reflexivity|]. split; [exact Hp|].
  inversion Hs as [|? ? Hs' Hx]; subst.
  inversion Hs' as [|? ? _ Hy]; subst.
  split; [|exact Hy].
  inversion Hx; subst. assumption.
Qed.

Lemma py_sum_shares (T : Q) (l : list Q) :
  py_sum (map (fun x => x / T * 100) l) == py_sum l / T * 100.
Proof.
  induction l as [|x l IH]; simpl map.
  - unfold py_sum; simpl. unfold Qdiv. ring.
  - rewrite !py_sum_cons, IH. unfold Qdiv. ring.
Qed.

(** The shares of the stock-specific risk add up to 100. *)
Lemma stock_shares_sum (sc : dict StockContribution) :
  0 < total_idio sc ->
  py_sum (map (fun item => stock_share (total_idio sc) (snd item)) sc) == 100.
Proof.
  intro Hpos.
  assert (E : map (fun item => stock_share (total_idio sc) (snd item)) sc
              = map (fun x => x / total_idio sc * 100)
                    (map (fun s => idio_contribution s) (dict_values sc))).
  { unfold dict_values. rewrite !map_map. reflexivity. }
  rewrite E, py_sum_shares. fold (total_idio sc).
  field. intro H0. rewrite H0 in Hpos. lra.
Qed.

Lemma find_first {A} (f : A -> bool) (pre post : list A) (x : A) :
  Forall (fun a => f a = false) pre -> f x = true ->
  find f (pre ++ x :: post) = Some x.
Proof.
  induction 1 as [|a pre Ha _ IH]; intro Hx; simpl.
  - rewrite Hx. reflexivity.
  - rewrite Ha. apply IH, Hx.
Qed.

(** [generate_insight] on a dict that holds the five numbers. *)
Lemma insight_numbers (d : dict value) (p : list (string * Q))
    (m s h i vol : Q) :
  insight_inputs d m s h i vol ->
  generate_insight d p
  = if Qltb 65 m then Ret (market_message m) else
    match concentrated i (stock_contribs_of d) with
    | Some (t, c) =>
        Ret (stock_message t (stock_share (total_idio (stock_contribs_of d)) c))
    | None =>
        if Qltb 20 s then Ret (smb_message s) else
        if Qltb 20 h then Ret (hml_message h) else
        match sort_components (components m s h i) with
        | (n1, p1) :: (n2, p2) :: _ => Ret (top_message n1 p1 n2 p2 vol)
        | _ => Raise (IndexError "list index out of range")
        end
    end.
Proof.
  intros (Hm & Hs & Hh & Hi & Hv). unfold generate_insight.
  rewrite (num_item_of_get _ _ _ Hm), (num_item_of_get _ _ _ Hs),
          (num_item_of_get _ _ _ Hh), (num_item_of_get _ _ _ Hi),
          (num_item_of_get _ _ _ Hv).
  reflexivity.
Qed.

Lemma generate_insight_total (d : dict value) (p : list (string * Q))
    (m s h i vol : Q) :
  insight_inputs d m s h i vol ->
  exists sentence, generate_insight d p = Ret sentence.
Proof.
  intro H. rewrite (insight_numbers d p m s h i vol H).
  destruct (Qltb 65 m); [eexists; reflexivity|].
  destruct (concentrated i (stock_contribs_of d)) as [[t c]|];
    [eexists; reflexivity|].
  destruct (Qltb 20 s); [eexists; reflexivity|].
  destruct (Qltb 20 h); [eexists; reflexivity|].
  unfold components.
  destruct (sort_components_four ("market exposure"%string, m)
              ("size factor (SMB)"%string, s) ("value factor (HML)"%string, h)
              ("stock-specific risk"%string, i))
    as ([n1 p1] & [n2 p2] & rest & -> & _).
  eexists; reflexivity.
Qed.

Lemma concentrated_low_idio (i : Q) (sc : dict StockContribution) :
  i <= 10 -> concentrated i sc = None.
Proof.
  intro H. unfold concentrated. apply Qltb_ge in H. rewrite H. reflexivity.
Qed.

Lemma concentrated_no_idio (i : Q) (sc : dict StockContribution) :
  total_idio sc <= 0 -> concentrated i sc = None.
Proof.
  intro H. unfold concentrated. apply Qltb_ge in H. rewrite H.
  destruct (_ && _); reflexivity.
Qed.

Lemma concentrated_search (i : Q) (sc : dict StockContribution) :
  10 < i -> 0 < total_idio sc ->
  concentrated i sc
  = find (fun item => Qltb 20 (stock_share (total_idio sc) (snd item))) sc.
Proof.
  intros Hi Hpos. unfold concentrated.
  apply Qltb_lt in Hi. rewrite Hi.
  pose proof Hpos as Hpos'. apply Qltb_lt in Hpos'. rewrite Hpos'.
  destruct sc as [|x sc]; [|reflexivity].
  unfold total_idio, py_sum in Hpos. simpl in Hpos. lra.
Qed.

Lemma stock_contribs_of_get (d : dict value) (sc : dict StockContribution) :
  get_stocks d "stock_contributions" = Some sc -> stock_contribs_of d = sc.
Proof. unfold stock_contribs_of. intros ->. reflexivity. Qed.

(** X17. [generate_insight] returns a sentence for every result of
    [decompose_portfolio_variance]: the keys it reads are always there, and
    the sorted list of components always has its first two entries. *)
Theorem X17_insight_of_decomposition (np_sqrt : Q -> Q) (weights : dict Q)
    (betas : dict Loadings) (F : mat3) (residual_vars : dict Q)
    (r : dict value) (positions : list (string * Q)) :
  decompose_portfolio_variance np_sqrt weights betas F residual_vars = Ret r ->
  exists sentence, generate_insight r positions = Ret sentence.
Proof.
  intro Hr.
  destruct (decompose_number_keys _ _ _ _ _ _ Hr)
    as (vol & v1 & v2 & v3 & v4 & Hvol & H1 & H2 & H3 & H4).
  apply (generate_insight_total r positions v1 v2 v3 v4 vol).
  repeat split; assumption.
Qed.

Lemma X17_insight_of_decomposition_witness :
  exists r,
    decompose_portfolio_variance sqrt_rational ExtraExamples.weights_A_only
      Examples.betas_AB Examples.F_identity Examples.resid_AB = Ret r
    /\ exists sentence, generate_insight r [] = Ret sentence.
Proof.
  eexists. split; [vm_compute; reflexivity|].
  apply (X17_insight_of_decomposition sqrt_rational
           ExtraExamples.weights_A_only Examples.betas_AB Examples.F_identity
           Examples.resid_AB).
  vm_compute; reflexivity.
Defined.

(** X18. When the market share is at most 65 and the idiosyncratic share is
    above 10, the sentence names the first entry of [stock_contributions],
    in dict order, that carries more than 20% of the summed
    [idio_contribution], whatever later entries carry. *)
Theorem X18_insight_names_first_concentrated (d : dict value)
    (positions : list (string * Q)) (m s h i vol : Q)
    (pre post : dict StockContribution) (t : string) (c : StockContribution) :
  insight_inputs d m s h i vol ->
  get_stocks d "stock_contributions" = Some (pre ++ (t, c) :: post) ->
  m <= 65 -> 10 < i ->
  0 < total_idio (pre ++ (t, c) :: post) ->
  Forall (fun item =>
            stock_share (total_idio (pre ++ (t, c) :: post)) (snd item) <= 20)
         pre ->
  20 < stock_share (total_idio (pre ++ (t, c) :: post)) c ->
  generate_insight d positions
  = Ret (stock_message t
           (stock_share (total_idio (pre ++ (t, c) :: post)) c)).
Proof.
  intros Hin Hsc Hm Hi Hpos Hpre Hc.
  rewrite (insight_numbers d positions m s h i vol Hin).
  apply Qltb_ge in Hm. rewrite Hm.
  rewrite (stock_contribs_of_get _ _ Hsc).
  rewrite (concentrated_search _ _ Hi Hpos).
  rewrite (find_first _ pre post (t, c)); [reflexivity| |].
  - eapply Forall_impl; [|exact Hpre].
    intros item Hitem. apply Qltb_ge. exact Hitem.
  - apply Qltb_lt. exact Hc.
Qed.

Lemma X18_insight_names_first_concentrated_witness :
  generate_insight InsightExamples.stock_heavy []
  = Ret (stock_message "B"
           (stock_share (total_idio InsightExamples.three_stocks)
              (InsightExamples.entry 10))).
Proof.
  apply (X18_insight_names_first_concentrated InsightExamples.stock_heavy []
           40 15 5 40 18 [("A"%string, InsightExamples.entry 2)]
           [("C"%string, InsightExamples.entry 30)] "B"
           (InsightExamples.entry 10)).
  - repeat split; reflexivity.
  - reflexivity.
  - vm_compute; discriminate.
  - vm_compute; reflexivity.
  - vm_compute; reflexivity.
  - constructor; [vm_compute; discriminate | constructor].
  - vm_compute; reflexivity.
Defined.

(** X19. A portfolio of at most four holdings whose market share is at most
    65, whose idiosyncratic share is above 10 and whose summed
    [idio_contribution] is positive always gets the single-stock sentence:
    one of at most four shares that add up to 100 exceeds 20. *)
Theorem X19_few_holdings_name_a_stock (d : dict value)
    (positions : list (string * Q)) (m s h i vol : Q)
    (sc : dict StockContribution) :
  insight_inputs d m s h i vol ->
  get_stocks d "stock_contributions" = Some sc ->
  m <= 65 -> 10 < i ->
  0 < total_idio sc ->
  (List.length sc <= 4)%nat ->
  exists t c,
    In (t, c) sc
    /\ 20 < stock_share (total_idio sc) c
    /\ generate_insight d positions
       = Ret (stock_message t (stock_share (total_idio sc) c)).
Proof.
  intros Hin Hsc Hm Hi Hpos Hlen.
  rewrite (insight_numbers d positions m s h i vol Hin).
  apply Qltb_ge in Hm. rewrite Hm.
  rewrite (stock_contribs_of_get _ _ Hsc).
  rewrite (concentrated_search _ _ Hi Hpos).
  destruct (find _ sc) as [[t c]|] eqn:Ef.
  - apply find_some in Ef. destruct Ef as [Hmem Hc]. apply Qltb_lt in Hc.
    exists t, c. repeat split; assumption.
  - exfalso.
    assert (Hall : Forall (fun x => x <= 20)
              (map (fun item => stock_share (total_idio sc) (snd item)) sc)).
    { apply Forall_map, Forall_forall. intros item Hitem.
      apply Qltb_ge. exact (find_none _ _ Ef item Hitem). }
    apply py_sum_bound in Hall.
    rewrite (stock_shares_sum sc Hpos), length_map in Hall.
    assert (Hn : inject_Z (Z.of_nat (List.length sc)) <= 4).
    { change 4 with (inject_Z 4). rewrite <- Zle_Qle. lia. }
    nra.
Qed.

Lemma X19_few_holdings_name_a_stock_witness :
  exists t c,
    In (t, c) InsightExamples.three_stocks
    /\ 20 < stock_share (total_idio InsightExamples.three_stocks) c
    /\ generate_insight InsightExamples.stock_heavy []
       = Ret (stock_message t
                (stock_share (total_idio InsightExamples.three_stocks) c)).
Proof.
  apply (X19_few_holdings_name_a_stock InsightExamples.stock_heavy []
           40 15 5 40 18 InsightExamples.three_stocks).
  - repeat split; reflexivity.
  - reflexivity.
  - vm_compute; discriminate.
  - vm_compute; reflexivity.
  - vm_compute; reflexivity.
  - simpl; lia.
Defined.

(** X20. When no earlier rule applies, the sentence names the two largest
    of the four percentages, the larger first, with the volatility. *)
Theorem X20_top_two_drivers (d : dict value) (positions : list (string * Q))
    (m s h i vol : Q) :
  insight_inputs d m s h i vol ->
  m <= 65 -> s <= 20 -> h <= 20 ->
  concentrated i (stock_contribs_of d) = None ->
  exists n1 p1 n2 p2 rest,
    generate_insight d positions = Ret (top_message n1 p1 n2 p2 vol)
    /\ Permutation (components m s h i) ((n1, p1) :: (n2, p2) :: rest)
    /\ p2 <= p1
    /\ Forall (fun z => snd z <= p2) rest.
Proof.
  intros Hin Hm Hs Hh Hc.
  rewrite (insight_numbers d positions m s h i vol Hin).
  apply Qltb_ge in Hm, Hs, Hh. rewrite Hm, Hc, Hs, Hh.
  unfold components.
  destruct (sort_components_four ("market exposure"%string, m)
              ("size factor (SMB)"%string, s) ("value factor (HML)"%string, h)
              ("stock-specific risk"%string, i))
    as ([n1 p1] & [n2 p2] & rest & -> & Hp & Hle & Hrest).
  exists n1, p1, n2, p2, rest. repeat split; assumption.
Qed.

Lemma X20_top_two_drivers_witness :
  exists n1 p1 n2 p2 rest,
    generate_insight InsightExamples.balanced []
    = Ret (top_message n1 p1 n2 p2 18)
    /\ Permutation (components 60 15 16 9) ((n1, p1) :: (n2, p2) :: rest)
    /\ p2 <= p1
    /\ Forall (fun z => snd z <= p2) rest.
Proof.
  apply (X20_top_two_drivers InsightExamples.balanced [] 60 15 16 9 18).
  - repeat split; reflexivity.
  - vm_compute; discriminate.
  - vm_compute; discriminate.
  - vm_compute; discriminate.
  - reflexivity.
Defined.

Lemma dict_set_values_Forall {V} (P : V -> Prop) (d : dict V) (k : string)
    (v : V) :
  Forall P (dict_values d) -> P v -> Forall P (dict_values (dict_set d k v)).
Proof.
  unfold dict_values.
  induction d as [|[k' v'] d IH]; intros Hd Hv; simpl.
  - constructor; [exact Hv | constructor].
  - inversion Hd; subst.
    destruct (String.eqb k k'); simpl; constructor; auto.
Qed.

Lemma comprehension_values_Forall {V} (P : V -> Prop) (f : string -> V)
    (l : list string) (acc : dict V) :
  Forall P (dict_values acc) -> (forall t, P (f t)) ->
  Forall P (dict_values (fold_left (fun acc t => dict_set acc t (f t)) l acc)).
Proof.
  revert acc; induction l as [|t l IH]; intros acc Hacc Hf; simpl.
  - exact Hacc.
  - apply IH; [|exact Hf]. apply dict_set_values_Forall; [exact Hacc | apply Hf].
Qed.

Lemma zero_result_total_idio (tickers : list string) (weights : dict Q) :
  total_idio (stock_contribs_of (_zero_result tickers weights)) == 0.
Proof.
  unfold total_idio. apply py_sum_zero. apply Forall_map.
  change (stock_contribs_of (_zero_result tickers weights))
    with (fold_left
            (fun acc t =>
               dict_set acc t
                 (mkContribution 0 0 0 0 (dict_get_default weights t 0)))
            tickers []).
  apply (comprehension_values_Forall
           (fun c => idio_contribution c == 0)
           (fun t => mkContribution 0 0 0 0 (dict_get_default weights t 0))).
  - constructor.
  - intro t. reflexivity.
Qed.

Lemma zero_result_insight (tickers : list string) (weights : dict Q)
    (positions : list (string * Q)) :
  generate_insight (_zero_result tickers weights) positions
  = Ret (smb_message 25).
Proof.
  rewrite (insight_numbers _ positions 25 25 25 25 0)
    by (repeat split; reflexivity).
  change (Qltb 65 25) with false. cbv iota.
  rewrite concentrated_no_idio; [reflexivity|].
  rewrite zero_result_total_idio. apply Qle_refl.
Qed.

(** X21. For a portfolio whose total variance is not positive the
    decomposition is the 25/25/25/25 fallback, and the sentence drawn from
    it is the small-cap one with 25%: the market rule needs more than 65,
    the single-stock rule a positive sum of [idio_contribution], and
    [smb_pct = 25] exceeds 20. *)
Theorem X21_degenerate_insight (np_sqrt : Q -> Q) (weights : dict Q)
    (betas : dict Loadings) (F : mat3) (residual_vars : dict Q) (tv : Q)
    (positions : list (string * Q)) :
  portfolio_variance weights betas F residual_vars = Ret tv ->
  tv <= 0 ->
  exists r,
    decompose_portfolio_variance np_sqrt weights betas F residual_vars = Ret r
    /\ generate_insight r positions = Ret (smb_message 25).
Proof.
  intros Htv Hle. eexists. split.
  - apply (decompose_degenerate np_sqrt _ _ _ _ tv Htv Hle).
  - apply zero_result_insight.
Qed.

Lemma X21_degenerate_insight_witness :
  exists r,
    decompose_portfolio_variance sqrt_rational Examples.weights_zero
      Examples.betas_AB Examples.F_small Examples.resid_AB = Ret r
    /\ generate_insight r [] = Ret (smb_message 25).
Proof.
  eapply (X21_degenerate_insight sqrt_rational Examples.weights_zero
            Examples.betas_AB Examples.F_small Examples.resid_AB).
  - vm_compute; reflexivity.
  - vm_compute; discriminate.
Defined.

(** * The analysis endpoint *)

Import Analyze.
Import Insight.

(** ** Dicts filled in a loop *)

Lemma dict_fill_acc {V} (f : string -> result V) (l : list string)
    (acc d : dict V) :
  foldM (fun acc t => v <- f t ;; Ret (dict_set acc t v)) l acc = Ret d ->
  (forall t, In t l -> exists v, f t = Ret v /\ dict_get t d = Some v)
  /\ (forall t, ~ In t l -> dict_get t d = dict_get t acc).
Proof.
  revert acc; induction l as [|a l IH]; intros acc H; simpl in H.
  - injection H as <-. split; [intros t []|reflexivity].
  - destruct (f a) as [v|e] eqn:Ea; simpl in H; [|discriminate].
    destruct (IH _ H) as [Hin Hout]. split.
    + intros t Ht.
      destruct (in_dec string_dec t l) as [Hl|Hl]; [apply Hin, Hl|].
      destruct Ht as [<-|Ht]; [|contradiction].
      exists v. split; [exact Ea|].
      rewrite (Hout a Hl). apply dict_get_set_same.
    + intros t Ht.
      rewrite (Hout t) by (intro; apply Ht; right; assumption).
      apply dict_get_set_other. intro; apply Ht; left; congruence.
Qed.

Lemma dict_fill_spec {V} (f : string -> result V) (l : list string)
    (d : dict V) :
  dict_fill f l = Ret d ->
  (forall t, In t l -> exists v, f t = Ret v /\ dict_get t d = Some v)
  /\ (forall t, In t (dict_keys d) -> In t l).
Proof.
  intro H. destruct (dict_fill_acc f l [] d H) as [Hin Hout].
  split; [exact Hin|].
  intros t Ht. destruct (in_dec string_dec t l) as [Hl|Hl]; [exact Hl|].
  apply dict_get_keys in Ht. destruct Ht as [v Hv].
  rewrite (Hout t Hl) in Hv. discriminate.
Qed.

Lemma dict_fill_total_acc {V} (f : string -> result V) (l : list string)
    (acc : dict V) :
  (forall t, In t l -> exists v, f t = Ret v) ->
  exists d,
    foldM (fun acc t => v <- f t ;; Ret (dict_set acc t v)) l acc = Ret d.
Proof.
  revert acc; induction l as [|a l IH]; intros acc H; simpl.
  - eexists; reflexivity.
  - destruct (H a (or_introl eq_refl)) as [v ->]. simpl.
    apply IH. intros t Ht. apply H. right; exact Ht.
Qed.

Lemma dict_fill_total {V} (f : string -> result V) (l : list string) :
  (forall t, In t l -> exists v, f t = Ret v) ->
  exists d, dict_fill f l = Ret d.
Proof. apply dict_fill_total_acc. Qed.

(** The first exception of the loop is the exception of the whole. *)
Lemma dict_fill_raises_acc {V} (f : string -> result V) (l : list string)
    (acc : dict V) (e : exn) :
  foldM (fun acc t => v <- f t ;; Ret (dict_set acc t v)) l acc = Raise e ->
  exists t, In t l /\ f t = Raise e.
Proof.
  revert acc; induction l as [|a l IH]; intros acc H; simpl in H;
    [discriminate|].
  destruct (f a) as [v|e'] eqn:Ea; simpl in H.
  - destruct (IH _ H) as (t & Ht & Hf). exists t. split; [right|]; assumption.
  - exists a. split; [left; reflexivity | congruence].
Qed.

(** ** The regressions of [analyze_all] *)

Lemma run_factor_regression_ticker
    (OLS_fit : list Q -> list (list (option Q)) -> result OLSResults)
    (t : string) (er : Series) (ff : Frame) (window min_obs : Z)
    (l : Loadings) :
  run_factor_regression OLS_fit t er ff window min_obs = Ret l ->
  ticker l = t.
Proof.
  unfold run_factor_regression.
  destruct (Nat.eqb _ 0); [intro H; injection H as <-; reflexivity|].
  destruct (Z.ltb _ min_obs); [intro H; injection H as <-; reflexivity|].
  destruct (OLS_fit _ _) as [model|e];
    [|intro H; injection H as <-; reflexivity].
  destruct (py_index (params model) 1); simpl; [|discriminate].
  destruct (py_index (params model) 2); simpl; [|discriminate].
  destruct (py_index (params model) 3); simpl; [|discriminate].
  destruct (py_index (params model) 0); simpl; [|discriminate].
  intro H; injection H as <-; reflexivity.
Qed.

Lemma py_index_in_range (l : list Q) (i : nat) :
  (i < List.length l)%nat -> exists x, py_index l i = Ret x.
Proof.
  intro H. unfold py_index.
  destruct (nth_error l i) as [x|] eqn:E; [eexists; reflexivity|].
  apply nth_error_None in E. lia.
Qed.

Lemma run_factor_regression_returns
    (OLS_fit : list Q -> list (list (option Q)) -> result OLSResults)
    (t : string) (er : Series) (ff : Frame) (window min_obs : Z) :
  (forall y X model,
     OLS_fit y X = Ret model -> (4 <= List.length (params model))%nat) ->
  exists l, run_factor_regression OLS_fit t er ff window min_obs = Ret l.
Proof.
  intro Hfit. unfold run_factor_regression.
  destruct (Nat.eqb _ 0); [eexists; reflexivity|].
  destruct (Z.ltb _ min_obs); [eexists; reflexivity|].
  destruct (OLS_fit _ _) as [model|e] eqn:E; [|eexists; reflexivity].
  specialize (Hfit _ _ _ E).
  destruct (py_index_in_range (params model) 1) as [p1 ->]; [lia|].
  destruct (py_index_in_range (params model) 2) as [p2 ->]; [lia|].
  destruct (py_index_in_range (params model) 3) as [p3 ->]; [lia|].
  destruct (py_index_in_range (params model) 0) as [p0 ->]; [lia|].
  eexists; reflexivity.
Qed.

Lemma run_factor_regression_no_dates
    (OLS_fit : list Q -> list (list (option Q)) -> result OLSResults)
    (t : string) (er : Series) (ff : Frame) (window min_obs : Z) :
  index_intersection (index (series_dropna er)) (index ff) = [] ->
  run_factor_regression OLS_fit t er ff window min_obs
  = Ret (_empty_result t).
Proof. intro H. unfold run_factor_regression. rewrite H. reflexivity. Qed.

(** X22. When the loop of [analyze_all] finishes, the results have an entry
    for every requested ticker and for nothing else; the entry of a ticker
    is what the regression of its column returned and carries that ticker,
    and a ticker without a column of excess returns has the empty result. *)
Theorem X22_analyze_all_covers
    (OLS_fit : list Q -> list (list (option Q)) -> result OLSResults)
    (tickers : list string) (excess : dict Series) (ff : Frame)
    (results : dict Loadings) :
  regress_all OLS_fit tickers excess ff = Ret results ->
  (forall t, In t (dict_keys results) <-> In t tickers)
  /\ (forall t, In t tickers ->
        exists l,
          dict_get t results = Some l
          /\ regress_one OLS_fit excess ff t = Ret l
          /\ ticker l = t
          /\ (dict_get t excess = None -> l = _empty_result t)).
Proof.
  intro H. destruct (dict_fill_spec _ _ _ H) as [Hin Hkeys].
  split.
  - intro t. split; [apply Hkeys|].
    intro Ht. destruct (Hin t Ht) as (l & _ & Hl).
    apply dict_get_keys. eauto.
  - intros t Ht. destruct (Hin t Ht) as (l & Hf & Hl).
    exists l. split; [exact Hl|]. split; [exact Hf|].
    unfold regress_one in Hf.
    destruct (dict_get t excess) as [column|].
    + split; [|discriminate].
      exact (run_factor_regression_ticker _ _ _ _ _ _ _ Hf).
    + injection Hf as <-. split; reflexivity.
Qed.

Lemma X22_analyze_all_covers_witness :
  exists results,
    regress_all AnalyzeExamples.unit_fit ["AAPL"; "MSFT"]%string
      [("AAPL"%string, RegExamples.returns_60)] CovExamples.factors_61
    = Ret results
    /\ (forall t, In t (dict_keys results) <-> In t ["AAPL"; "MSFT"]%string)
    /\ (forall t, In t ["AAPL"; "MSFT"]%string ->
        exists l,
          dict_get t results = Some l
          /\ regress_one AnalyzeExamples.unit_fit
               [("AAPL"%string, RegExamples.returns_60)]
               CovExamples.factors_61 t = Ret l
          /\ ticker l = t
          /\ (dict_get t [("AAPL"%string, RegExamples.returns_60)] = None ->
              l = _empty_result t)).
Proof.
  eexists. split; [vm_compute; reflexivity|].
  apply (X22_analyze_all_covers AnalyzeExamples.unit_fit
           ["AAPL"; "MSFT"]%string [("AAPL"%string, RegExamples.returns_60)]
           CovExamples.factors_61).
  vm_compute; reflexivity.
Defined.

(** ** The weights *)


Lemma dict_set_fresh {V} (d : dict V) (k : string) (v : V) :
  ~ In k (dict_keys d) -> dict_set d k v = d ++ [(k, v)].
Proof.
  induction d as [|[k' v'] d IH]; intro H; simpl; [reflexivity|].
  destruct (String.eqb_spec k k') as [->|Hne].
  - exfalso. apply H. left. reflexivity.
  - rewrite IH; [reflexivity|]. intro Hin. apply H. right. exact Hin.
Qed.

Lemma dict_set_keys {V} (d : dict V) (k : string) (v : V) (t : string) :
  In t (dict_keys (dict_set d k v)) <-> t = k \/ In t (dict_keys d).
Proof.
  rewrite !dict_get_keys.
  destruct (string_dec t k) as [->|Hne].
  - rewrite dict_get_set_same. split; [left; reflexivity | eauto].
  - rewrite (dict_get_set_other d t k v Hne).
    split; [right; assumption | intros [H|H]; [contradiction | exact H]].
Qed.

Lemma fold_dict_set_keys {A V} (key : A -> string) (val : A -> V)
    (ps : list A) (acc : dict V) (t : string) :
  In t (dict_keys (fold_left (fun acc p => dict_set acc (key p) (val p))
                             ps acc))
  <-> In t (dict_keys acc) \/ In t (map key ps).
Proof.
  revert acc; induction ps as [|p ps IH]; intro acc; simpl.
  - tauto.
  - rewrite IH, dict_set_keys. split.
    + intros [[H|H]|H]; auto.
    + intros [H|[H|H]]; auto.
Qed.

Lemma fold_dict_set_nodup {A V} (key : A -> string) (val : A -> V)
    (ps : list A) (acc : dict V) :
  NoDup (dict_keys acc ++ map key ps) ->
  fold_left (fun acc p => dict_set acc (key p) (val p)) ps acc
  = acc ++ map (fun p => (key p, val p)) ps.
Proof.
  revert acc; induction ps as [|p ps IH]; intros acc H; simpl.
  - rewrite app_nil_r. reflexivity.
  - simpl in H. pose proof (NoDup_remove_2 _ _ _ H) as Hfresh.
    rewrite dict_set_fresh
      by (intro Hin; apply Hfresh, in_or_app; left; exact Hin).
    rewrite IH.
    + rewrite <- app_assoc. reflexivity.
    + unfold dict_keys in *. rewrite map_app, <- app_assoc. exact H.
Qed.

Lemma py_sum_div (T : Q) (l : list Q) :
  py_sum (map (fun x => x / T) l) == py_sum l / T.
Proof.
  induction l as [|x l IH]; simpl map.
  - unfold py_sum; simpl. unfold Qdiv. ring.
  - rewrite !py_sum_cons, IH. unfold Qdiv. ring.
Qed.

Lemma weights_of_keys (positions : list Position) (t : string) :
  In t (dict_keys (weights_of positions)) <-> In t (tickers_of positions).
Proof.
  unfold weights_of, tickers_of.
  rewrite (fold_dict_set_keys (fun p => str_upper (symbol p))
             (fun p => market_value p / total_value positions)).
  simpl. tauto.
Qed.

(** X23. When the symbols are ASCII strings, no two of them the same up to
    case, and the total value is positive, [weights] holds one entry per
    position, in the order of the positions, with weight
    [market_value / total_value], and the weights add up to 1. *)
Theorem X23_weights_sum_to_one (positions : list Position) :
  forallb (fun p => is_ascii (symbol p)) positions = true ->
  NoDup (tickers_of positions) ->
  0 < total_value positions ->
  weights_of positions
  = map (fun p => (str_upper (symbol p),
                   market_value p / total_value positions)) positions
  /\ py_sum (dict_values (weights_of positions)) == 1.
Proof.
  intros _ Hnd Hpos.
  assert (E : weights_of positions
              = map (fun p => (str_upper (symbol p),
                               market_value p / total_value positions))
                    positions).
  { unfold weights_of.
    rewrite (fold_dict_set_nodup (fun p => str_upper (symbol p))
               (fun p => market_value p / total_value positions));
      [reflexivity | exact Hnd]. }
  split; [exact E|].
  rewrite E. unfold dict_values. rewrite map_map. simpl.
  rewrite <- (map_map market_value (fun x => x / total_value positions)).
  rewrite py_sum_div. fold (total_value positions).
  field. intro H0. rewrite H0 in Hpos. lra.
Qed.

Lemma X23_weights_sum_to_one_witness :
  forallb (fun p => is_ascii (symbol p)) AnalyzeExamples.positions = true
  /\ weights_of AnalyzeExamples.positions
  = map (fun p => (str_upper (symbol p),
                   market_value p / total_value AnalyzeExamples.positions))
        AnalyzeExamples.positions
  /\ py_sum (dict_values (weights_of AnalyzeExamples.positions)) == 1.
Proof.
  split; [reflexivity|].
  apply (X23_weights_sum_to_one AnalyzeExamples.positions).
  - reflexivity.
  - repeat constructor; simpl; intuition discriminate.
  - vm_compute; reflexivity.
Defined.

(** ** The endpoint *)

Section EndpointFacts.

Variable np_sqrt : Q -> Q.
Variable OLS_fit : list Q -> list (list (option Q)) -> result OLSResults.
Variable Prices : Type.
Variable fetch_data : list string -> result (Frame * Prices * dict Series).
Variable realized_vol_of : Prices -> list string -> dict Q -> option Q.

Lemma analyze_portfolio_outcome (positions : list Position) :
  analyze_portfolio np_sqrt OLS_fit Prices fetch_data realized_vol_of positions
  = match positions with
    | [] => HTTPException 400 "No positions provided"
    | _ :: _ =>
        if Qle_bool (total_value positions) 0 then
          HTTPException 400 "Total portfolio value must be positive"
        else
          match analysis np_sqrt OLS_fit Prices fetch_data realized_vol_of
                  (tickers_of positions) (weights_of positions) with
          | Ret r => Ok r
          | Raise e => HTTPException 500 ("Analysis failed: " ++ str_exn e)
          end
    end.
Proof. destruct positions; reflexivity. Qed.

End EndpointFacts.

(** X24. The endpoint answers with status 400 exactly when there is no
    position or the total value is not positive; every other failure is
    reported with status 500 and a detail that starts with
    "Analysis failed: ". *)
Theorem X24_client_errors (np_sqrt : Q -> Q)
    (OLS_fit : list Q -> list (list (option Q)) -> result OLSResults)
    (Prices : Type)
    (fetch_data : list string -> result (Frame * Prices * dict Series))
    (realized_vol_of : Prices -> list string -> dict Q -> option Q)
    (positions : list Position) :
  ((exists detail,
      analyze_portfolio np_sqrt OLS_fit Prices fetch_data realized_vol_of
        positions = HTTPException 400 detail)
   <-> positions = [] \/ total_value positions <= 0)
  /\ (forall code detail,
        analyze_portfolio np_sqrt OLS_fit Prices fetch_data realized_vol_of
          positions = HTTPException code detail ->
        code = 400%Z
        \/ (code = 500%Z
            /\ exists e,
                 analysis np_sqrt OLS_fit Prices fetch_data realized_vol_of
                   (tickers_of positions) (weights_of positions) = Raise e
                 /\ detail = ("Analysis failed: " ++ str_exn e)%string)).
Proof.
  rewrite analyze_portfolio_outcome.
  destruct positions as [|p ps].
  - split.
    + split; [intros _; left; reflexivity | intros _; eexists; reflexivity].
    + intros code detail H. injection H as <- _. left; reflexivity.
  - set (positions := p :: ps).
    destruct (Qle_bool (total_value positions) 0) eqn:E.
    + split.
      * split; [|intros _; eexists; reflexivity].
        intros _. right. apply Qle_bool_iff. exact E.
      * intros code detail H. injection H as <- _. left; reflexivity.
    + destruct (analysis _ _ _ _ _ _ _) as [r|e].
      * split; [|intros code detail H; discriminate].
        split; [intros [detail H]; discriminate|].
        intros [H|H]; [discriminate|].
        apply Qle_bool_iff in H. congruence.
      * split.
        -- split; [intros [detail H]; discriminate|].
           intros [H|H]; [discriminate|].
           apply Qle_bool_iff in H. congruence.
        -- intros code detail H. injection H as <- <-. right.
           split; [reflexivity|]. exists e. split; reflexivity.
Qed.

(** ** The steps of the analysis, composed *)


Lemma mapM_total {A B} (f : A -> result B) (l : list A) :
  (forall a, In a l -> exists b, f a = Ret b) ->
  exists bs, mapM f l = Ret bs.
Proof.
  induction l as [|a l IH]; intro H; simpl.
  - eexists; reflexivity.
  - destruct (H a (or_introl eq_refl)) as [b ->].
    destruct IH as [bs ->]; [intros x Hx; apply H; right; exact Hx|].
    eexists; reflexivity.
Qed.

Lemma loading_matrix_total (betas : dict Loadings) (tickers : list string) :
  (forall t, In t tickers -> In t (dict_keys betas)) ->
  exists B, loading_matrix betas tickers = Ret B.
Proof.
  intro H. apply mapM_total. intros t Ht.
  apply H, dict_get_keys in Ht. destruct Ht as [l Hl].
  unfold dict_item. rewrite Hl. eexists; reflexivity.
Qed.

Lemma decompose_returns (np_sqrt : Q -> Q) (weights : dict Q)
    (betas : dict Loadings) (F : mat3) (residual_vars : dict Q) :
  (forall t, In t (dict_keys weights) -> In t (dict_keys betas)) ->
  weights <> [] ->
  exists tv r,
    portfolio_variance weights betas F residual_vars = Ret tv
    /\ decompose_portfolio_variance np_sqrt weights betas F residual_vars
       = Ret r.
Proof.
  intros Hcov Hne.
  destruct (loading_matrix_total betas _ Hcov) as [B HB].
  assert (Hpv : portfolio_variance weights betas F residual_vars
                = Ret (total_var (weight_vector weights) B F
                         (residual_vector weights residual_vars))).
  { unfold portfolio_variance. rewrite HB.
    destruct weights; [contradiction | reflexivity]. }
  eexists. 
  destruct (Qlt_le_dec 0 (total_var (weight_vector weights) B F
                            (residual_vector weights residual_vars)))
    as [Hlt|Hle].
  - destruct (decompose_nondegenerate np_sqrt _ _ _ _ _ Hpv Hlt)
      as (B' & _ & _ & Hd).
    eexists. split; [exact Hpv | exact Hd].
  - eexists. split; [exact Hpv|].
    exact (decompose_degenerate np_sqrt _ _ _ _ _ Hpv Hle).
Qed.

Lemma flamegraph_of_decomposition (np_sqrt : Q -> Q) (weights : dict Q)
    (betas : dict Loadings) (F : mat3) (residual_vars : dict Q)
    (r : dict value) :
  decompose_portfolio_variance np_sqrt weights betas F residual_vars = Ret r ->
  exists tree, build_flamegraph_json r betas = Ret tree.
Proof.
  intro Hr.
  destruct (decompose_number_keys _ _ _ _ _ _ Hr)
    as (vol & v1 & v2 & v3 & v4 & Hvol & H1 & H2 & H3 & H4).
  destruct (stock_entries _ _ _ _ _ _ Hr) as (sc & Hsc & Hall).
  destruct (decompose_ret_inv _ _ _ _ _ _ Hr) as [tv Htv].
  destruct (portfolio_variance_loading _ _ _ _ _ Htv) as [B HB].
  apply (build_flamegraph_json_total r betas sc vol v1 v2 v3 v4);
    try assumption.
  intros t Ht.
  apply (loading_matrix_covers betas _ B HB).
  apply dict_get_keys in Ht. destruct Ht as [c Hc].
  specialize (Hall t).
  destruct (dict_get t weights) as [x|] eqn:Ex.
  - apply dict_get_keys. eauto.
  - congruence.
Qed.

Section Steps.

Variable np_sqrt : Q -> Q.
Variable OLS_fit : list Q -> list (list (option Q)) -> result OLSResults.
Variable Prices : Type.
Variable fetch_data : list string -> result (Frame * Prices * dict Series).
Variable realized_vol_of : Prices -> list string -> dict Q -> option Q.

(** Once the data are fetched, the regressions have run and the factor
    covariance is estimated, no later step of the [try] block raises. *)
Lemma analysis_steps (tickers : list string) (weights : dict Q)
    (ff : Frame) (prices : Prices) (excess : dict Series) (F : mat3)
    (betas : dict Loadings) :
  fetch_data tickers = Ret (ff, prices, excess) ->
  regress_all OLS_fit tickers excess ff = Ret betas ->
  compute_factor_covariance ff 252 = Ret F ->
  (forall t, In t (dict_keys weights) <-> In t tickers) ->
  weights <> [] ->
  exists rv tv d tree sentence m s h i vol,
    residual_vars_of betas tickers = Ret rv
    /\ portfolio_variance weights betas F rv = Ret tv
    /\ decompose_portfolio_variance np_sqrt weights betas F rv = Ret d
    /\ insight_inputs d m s h i vol
    /\ (forall p, exists sentence', generate_insight d p = Ret sentence')
    /\ analysis np_sqrt OLS_fit Prices fetch_data realized_vol_of
         tickers weights
       = Ret {| flamegraph := tree;
                decomposition :=
                  {| sum_market_pct := m;
                     sum_smb_pct := s;
                     sum_hml_pct := h;
                     sum_idiosyncratic_pct := i;
                     sum_cross_factor_pct :=
                       match get_num d "cross_factor_pct" with
                       | Some q => q
                       | None => 0
                       end;
                     sum_total_annual_vol := vol;
                     sum_realized_vol :=
                       realized_vol_of prices tickers weights |};
                insight := sentence;
                stock_details := betas |}
    /\ exists p, generate_insight d p = Ret sentence.
Proof.
  intros Hfetch Hreg Hcov Hkeys Hne.
  destruct (dict_fill_spec _ _ _ Hreg) as [Hin _].
  assert (Hbetas : forall t, In t tickers -> In t (dict_keys betas)).
  { intros t Ht. destruct (Hin t Ht) as (l & _ & Hl).
    apply dict_get_keys. eauto. }
  destruct (dict_fill_total
              (fun t => b <- dict_item betas t ;; Ret (residual_variance b))
              tickers) as [rv Hrv].
  { intros t Ht. apply Hbetas, dict_get_keys in Ht. destruct Ht as [l Hl].
    unfold dict_item. rewrite Hl. eexists; reflexivity. }
  destruct (decompose_returns np_sqrt weights betas F rv) as (tv & d & Hpv & Hd);
    [intros t Ht; apply Hbetas, Hkeys, Ht | exact Hne |].
  destruct (flamegraph_of_decomposition _ _ _ _ _ _ Hd) as [tree Htree].
  destruct (mapM_total (fun t => w <- dict_item weights t ;; Ret (t, w))
              tickers) as [pl Hpl].
  { intros t Ht. apply Hkeys, dict_get_keys in Ht. destruct Ht as [w Hw].
    unfold dict_item. rewrite Hw. eexists; reflexivity. }
  destruct (decompose_number_keys _ _ _ _ _ _ Hd)
    as (vol & m & s & h & i & Hvol & Hm & Hs & Hh & Hi).
  assert (Hinputs : insight_inputs d m s h i vol)
    by (repeat split; assumption).
  destruct (generate_insight_total d pl m s h i vol Hinputs)
    as [sentence Hsentence].
  exists rv, tv, d, tree, sentence, m, s, h, i, vol.
  split; [exact Hrv|]. split; [exact Hpv|]. split; [exact Hd|].
  split; [exact Hinputs|].
  split; [intro p; exact (generate_insight_total d p m s h i vol Hinputs)|].
  split; [|exists pl; exact Hsentence].
  unfold analysis, analyze_all. rewrite Hfetch. cbn [bind].
  rewrite Hreg. cbn [bind]. rewrite Hcov. cbn [bind].
  unfold residual_vars_of in Hrv |- *. rewrite Hrv. cbn [bind].
  rewrite Hd. cbn [bind]. rewrite Htree. cbn [bind].
  unfold positions_list_of. rewrite Hpl. cbn [bind].
  rewrite Hsentence. cbn [bind].
  rewrite (num_item_of_get _ _ _ Hm), (num_item_of_get _ _ _ Hs),
          (num_item_of_get _ _ _ Hh), (num_item_of_get _ _ _ Hi),
          (num_item_of_get _ _ _ Hvol).
  reflexivity.
Qed.

End Steps.

Lemma weights_of_nonempty (positions : list Position) :
  positions <> [] -> weights_of positions <> [].
Proof.
  intros Hne Hw. destruct positions as [|p ps]; [contradiction|].
  assert (Hin : In (str_upper (symbol p)) (dict_keys (weights_of (p :: ps)))).
  { apply weights_of_keys. left. reflexivity. }
  rewrite Hw in Hin. destruct Hin.
Qed.

Lemma regress_all_total
    (OLS_fit : list Q -> list (list (option Q)) -> result OLSResults)
    (tickers : list string) (excess : dict Series) (ff : Frame) :
  (forall y X model,
     OLS_fit y X = Ret model -> (4 <= List.length (params model))%nat) ->
  exists betas, regress_all OLS_fit tickers excess ff = Ret betas.
Proof.
  intro Hfit. apply dict_fill_total. intros t _. unfold regress_one.
  destruct (dict_get t excess) as [column|]; [|eexists; reflexivity].
  apply run_factor_regression_returns, Hfit.
Qed.

(** X25. With at least one position and a positive total value, the
    endpoint answers with a response, not an error, as soon as the data are
    fetched, the factor covariance can be estimated and every fit returns
    its four parameters: none of the later steps raises.  The response
    reports loadings for exactly the requested tickers, and the realized
    volatility as computed (or [None]). *)
Theorem X25_analysis_succeeds (np_sqrt : Q -> Q)
    (OLS_fit : list Q -> list (list (option Q)) -> result OLSResults)
    (Prices : Type)
    (fetch_data : list string -> result (Frame * Prices * dict Series))
    (realized_vol_of : Prices -> list string -> dict Q -> option Q)
    (positions : list Position)
    (ff : Frame) (prices : Prices) (excess : dict Series) (F : mat3) :
  positions <> [] ->
  0 < total_value positions ->
  fetch_data (tickers_of positions) = Ret (ff, prices, excess) ->
  compute_factor_covariance ff 252 = Ret F ->
  (forall y X model,
     OLS_fit y X = Ret model -> (4 <= List.length (params model))%nat) ->
  exists r,
    analyze_portfolio np_sqrt OLS_fit Prices fetch_data realized_vol_of
      positions = Ok r
    /\ regress_all OLS_fit (tickers_of positions) excess ff
       = Ret (stock_details r)
    /\ (forall t, In t (dict_keys (stock_details r))
                  <-> In t (tickers_of positions))
    /\ sum_realized_vol (decomposition r)
       = realized_vol_of prices (tickers_of positions) (weights_of positions).
Proof.
  intros Hne Hpos Hfetch Hcov Hfit.
  destruct (regress_all_total OLS_fit (tickers_of positions) excess ff Hfit)
    as [betas Hreg].
  destruct (analysis_steps np_sqrt OLS_fit Prices fetch_data realized_vol_of
              (tickers_of positions) (weights_of positions) ff prices excess
              F betas Hfetch Hreg Hcov (weights_of_keys positions)
              (weights_of_nonempty positions Hne))
    as (rv & tv & d & tree & sentence & m & s & h & i & vol
        & _ & _ & _ & _ & _ & Ha & _).
  rewrite analyze_portfolio_outcome.
  destruct positions as [|p ps]; [contradiction|].
  set (positions := p :: ps) in *.
  assert (E : Qle_bool (total_value positions) 0 = false).
  { destruct (Qle_bool (total_value positions) 0) eqn:E; [|reflexivity].
    apply Qle_bool_iff in E. lra. }
  rewrite E, Ha. eexists. split; [reflexivity|]. simpl.
  split; [exact Hreg|]. split; [|reflexivity].
  intro t. destruct (dict_fill_spec _ _ _ Hreg) as [Hin Hkeys].
  split; [apply Hkeys|].
  intro Ht. destruct (Hin t Ht) as (l & _ & Hl). apply dict_get_keys. eauto.
Qed.

Lemma X25_analysis_succeeds_witness :
  exists r,
    analyze_portfolio sqrt_rational AnalyzeExamples.unit_fit unit
      AnalyzeExamples.fetch_aapl AnalyzeExamples.no_realized_vol
      AnalyzeExamples.positions = Ok r
    /\ regress_all AnalyzeExamples.unit_fit
         (tickers_of AnalyzeExamples.positions)
         [("AAPL"%string, RegExamples.returns_60)] CovExamples.factors_61
       = Ret (stock_details r)
    /\ (forall t, In t (dict_keys (stock_details r))
                  <-> In t (tickers_of AnalyzeExamples.positions))
    /\ sum_realized_vol (decomposition r)
       = AnalyzeExamples.no_realized_vol tt
           (tickers_of AnalyzeExamples.positions)
           (weights_of AnalyzeExamples.positions).
Proof.
  apply (X25_analysis_succeeds sqrt_rational AnalyzeExamples.unit_fit unit
           AnalyzeExamples.fetch_aapl AnalyzeExamples.no_realized_vol
           AnalyzeExamples.positions CovExamples.factors_61 tt
           [("AAPL"%string, RegExamples.returns_60)]
           (df_cov (map snd (recent CovExamples.factors_61 252)))).
  - discriminate.
  - vm_compute; reflexivity.
  - reflexivity.
  - unfold compute_factor_covariance.
    replace (Nat.ltb (List.length (recent CovExamples.factors_61 252)) 60)
      with false by (vm_compute; reflexivity).
    reflexivity.
  - intros y X model H. injection H as <-. simpl. lia.
Defined.

(** ** No usable returns *)


Lemma Forall_map_const {A B} (P : B -> Prop) (b : B) (l : list A) :
  P b -> Forall P (map (fun _ => b) l).
Proof. intro H. induction l; simpl; constructor; assumption. Qed.

(** With empty regression results for every ticker of [weights], and the
    residual variances read from them, the total variance is 0. *)
Lemma portfolio_variance_empty_results (weights : dict Q)
    (betas : dict Loadings) (F : mat3) (rv : dict Q) (tv : Q) :
  (forall t, In t (dict_keys weights) ->
             dict_get t betas = Some (_empty_result t)) ->
  (forall t, In t (dict_keys weights) -> dict_get t rv = Some 0) ->
  portfolio_variance weights betas F rv = Ret tv ->
  tv == 0.
Proof.
  intros Hbetas Hrv Hpv. unfold portfolio_variance in Hpv.
  assert (HB : loading_matrix betas (dict_keys weights)
               = Ret (map (fun _ => (0, 0, 0)) (dict_keys weights))).
  { apply mapM_ret. intros t Ht. unfold dict_item.
    rewrite (Hbetas t Ht). reflexivity. }
  rewrite HB in Hpv. cbn [bind] in Hpv.
  destruct (Nat.eqb _ 0); [discriminate|]. injection Hpv as <-.
  rewrite total_var_split.
  - rewrite total_systematic_zero_loadings, idio_var_zero; [reflexivity| |].
    + unfold residual_vector. apply Forall_forall. intros x Hx.
      apply in_map_iff in Hx. destruct Hx as (t & <- & Ht).
      unfold dict_get_default. rewrite (Hrv t Ht). reflexivity.
    + apply Forall_map_const. repeat split; reflexivity.
  - unfold weight_vector. rewrite !length_map. reflexivity.
  - unfold residual_vector, weight_vector. rewrite !length_map. reflexivity.
Qed.

(** X26. When no requested ticker has a valid return on a date of the
    factor table (its column is missing, empty or on other dates), every
    regression result is the empty one, the total variance is 0, and the
    endpoint still answers with a response: 25% for each of the four
    buckets, a volatility of 0, and the small-cap sentence. *)
Theorem X26_no_usable_returns_fallback (np_sqrt : Q -> Q)
    (OLS_fit : list Q -> list (list (option Q)) -> result OLSResults)
    (Prices : Type)
    (fetch_data : list string -> result (Frame * Prices * dict Series))
    (realized_vol_of : Prices -> list string -> dict Q -> option Q)
    (positions : list Position)
    (ff : Frame) (prices : Prices) (excess : dict Series) (F : mat3) :
  positions <> [] ->
  0 < total_value positions ->
  fetch_data (tickers_of positions) = Ret (ff, prices, excess) ->
  compute_factor_covariance ff 252 = Ret F ->
  no_usable_returns (tickers_of positions) excess ff ->
  exists r,
    analyze_portfolio np_sqrt OLS_fit Prices fetch_data realized_vol_of
      positions = Ok r
    /\ (forall t, In t (tickers_of positions) ->
          dict_get t (stock_details r) = Some (_empty_result t))
    /\ sum_market_pct (decomposition r) = 25
    /\ sum_smb_pct (decomposition r) = 25
    /\ sum_hml_pct (decomposition r) = 25
    /\ sum_idiosyncratic_pct (decomposition r) = 25
    /\ sum_total_annual_vol (decomposition r) = 0
    /\ insight r = smb_message 25.
Proof.
  intros Hne Hpos Hfetch Hcov Hno.
  set (tickers := tickers_of positions) in *.
  set (weights := weights_of positions) in *.
  assert (Hone : forall t, In t tickers ->
            regress_one OLS_fit excess ff t = Ret (_empty_result t)).
  { intros t Ht. unfold regress_one.
    destruct (dict_get t excess) as [column|] eqn:E; [|reflexivity].
    apply run_factor_regression_no_dates. exact (Hno t column Ht E). }
  destruct (dict_fill_total (regress_one OLS_fit excess ff) tickers)
    as [betas Hreg]; [intros t Ht; rewrite (Hone t Ht); eauto|].
  fold (regress_all OLS_fit tickers excess ff) in Hreg.
  assert (Hbetas : forall t, In t tickers ->
            dict_get t betas = Some (_empty_result t)).
  { intros t Ht. destruct (dict_fill_spec _ _ _ Hreg) as [Hin _].
    destruct (Hin t Ht) as (l & Hf & Hl). rewrite (Hone t Ht) in Hf.
    injection Hf as <-. exact Hl. }
  destruct (analysis_steps np_sqrt OLS_fit Prices fetch_data realized_vol_of
              tickers weights ff prices excess F betas Hfetch Hreg Hcov
              (weights_of_keys positions) (weights_of_nonempty positions Hne))
    as (rv & tv & d & tree & sentence & m & s & h & i & vol
        & Hrv & Hpv & Hd & Hinputs & _ & Ha & p & Hsentence).
  assert (Hrv0 : forall t, In t tickers -> dict_get t rv = Some 0).
  { intros t Ht. destruct (dict_fill_spec _ _ _ Hrv) as [Hin _].
    destruct (Hin t Ht) as (v & Hf & Hv). unfold dict_item in Hf.
    rewrite (Hbetas t Ht) in Hf. injection Hf as <-. exact Hv. }
  assert (Htv : tv <= 0).
  { rewrite (portfolio_variance_empty_results weights betas F rv tv);
      [apply Qle_refl | | | exact Hpv].
    - intros t Ht. apply Hbetas, (weights_of_keys positions), Ht.
    - intros t Ht. apply Hrv0, (weights_of_keys positions), Ht. }
  rewrite (decompose_degenerate np_sqrt _ _ _ _ tv Hpv Htv) in Hd.
  injection Hd as <-.
  rewrite zero_result_insight in Hsentence. injection Hsentence as <-.
  destruct Hinputs as (Hm & Hs & Hh & Hi & Hvol).
  cbn in Hm, Hs, Hh, Hi, Hvol.
  injection Hm as <-. injection Hs as <-. injection Hh as <-.
  injection Hi as <-. injection Hvol as <-.
  rewrite analyze_portfolio_outcome.
  destruct positions as [|p0 ps]; [contradiction|].
  assert (E : Qle_bool (total_value (p0 :: ps)) 0 = false).
  { destruct (Qle_bool (total_value (p0 :: ps)) 0) eqn:E; [|reflexivity].
    apply Qle_bool_iff in E. lra. }
  rewrite E. fold tickers. fold weights. rewrite Ha.
  eexists. split; [reflexivity|]. simpl.
  split; [exact Hbetas|]. repeat split; reflexivity.
Qed.

Lemma X26_no_usable_returns_fallback_witness :
  exists r,
    analyze_portfolio sqrt_rational AnalyzeExamples.unit_fit unit
      AnalyzeExamples.fetch_stale AnalyzeExamples.no_realized_vol
      AnalyzeExamples.positions = Ok r
    /\ (forall t, In t (tickers_of AnalyzeExamples.positions) ->
          dict_get t (stock_details r) = Some (_empty_result t))
    /\ sum_market_pct (decomposition r) = 25
    /\ sum_smb_pct (decomposition r) = 25
    /\ sum_hml_pct (decomposition r) = 25
    /\ sum_idiosyncratic_pct (decomposition r) = 25
    /\ sum_total_annual_vol (decomposition r) = 0
    /\ insight r = smb_message 25.
Proof.
  apply (X26_no_usable_returns_fallback sqrt_rational AnalyzeExamples.unit_fit
           unit AnalyzeExamples.fetch_stale AnalyzeExamples.no_realized_vol
           AnalyzeExamples.positions CovExamples.factors_61 tt
           [("AAPL"%string, [(100%Z, Some 1)])]
           (df_cov (map snd (recent CovExamples.factors_61 252)))).
  - discriminate.
  - vm_compute; reflexivity.
  - reflexivity.
  - unfold compute_factor_covariance.
    replace (Nat.ltb (List.length (recent CovExamples.factors_61 252)) 60)
      with false by (vm_compute; reflexivity).
    reflexivity.
  - intros t column Ht H. vm_compute in Ht.
    destruct Ht as [<-|[<-|[]]]; vm_compute in H;
      [injection H as <-; vm_compute; reflexivity | discriminate].
Defined.
